(** * A shallow embedding of the pixel blockchain core

    The development follows the JavaScript sources
    - [lib/transaction/transaction.js] (pixel transfer record, codec, builder,
      signatures),
    - [lib/block/block.js] (Merkle tree of a block, block codec and
      constructors),
    - [lib/block/blockheader.js] (header codec, target and proof of work),
    - [lib/blockchain.js] (the chain-state engine)
    and states the properties of the natural-language specification over it.

    Conventions.
    - A JavaScript number is an integer of [Z] or [NaN]; heights, work and
      coordinates stay far below 2^53, where doubles are exact.
    - [undefined] (and [null]) is [None] of an [option].
    - A JavaScript object used as a dictionary is an association list kept in
      insertion order, the order in which keys that are not array indices are
      enumerated; the one dictionary the code enumerates, [prev], has hashes
      as keys.
    - A call either returns, throws, or (for loops whose termination depends
      on the data) runs out of fuel: see [outcome]. *)

From Stdlib Require Import ZArith List String Ascii Bool Lia DecimalString.
From Stdlib Require Import Strings.Byte DecimalPos DecimalZ.
Import ListNotations.
Local Open Scope Z_scope.
Set Warnings "-register-all".

(** ** Results of calls *)

Inductive outcome (A : Type) : Type :=
| Returned (a : A)
| Threw (msg : string)
| OutOfFuel.
Arguments Returned {A} a.
Arguments Threw {A} msg.
Arguments OutOfFuel {A}.

Definition bindO {A B} (o : outcome A) (k : A -> outcome B) : outcome B :=
  match o with
  | Returned a => k a
  | Threw m => Threw m
  | OutOfFuel => OutOfFuel
  end.

Declare Scope outcome_scope.
Delimit Scope outcome_scope with outcome.
Notation "'do' x <- o ; k" := (bindO o (fun x => k))
  (at level 10, x pattern, o at level 100, k at level 200) : outcome_scope.
Local Open Scope outcome_scope.

(** [$.checkArgument(cond, msg)] and [$.checkState(cond, msg)] of
    [util/preconditions]: throw unless the condition is truthy. *)
Definition check (cond : bool) (msg : string) : outcome unit :=
  if cond then Returned tt else Threw msg.

(** ** JavaScript numbers and dictionaries *)

Inductive number : Type :=
| Num (z : Z)
| NaN.

(** [undefined + 1] is [NaN]; [ToNumber(undefined)] is [NaN]. *)
Definition toNumber (v : option number) : number :=
  match v with Some n => n | None => NaN end.

Definition num_add (a b : number) : number :=
  match a, b with
  | Num x, Num y => Num (x + y)
  | _, _ => NaN
  end.

(** [a > b]: false as soon as one side is [NaN]. *)
Definition num_gt (a b : number) : bool :=
  match a, b with
  | Num x, Num y => y <? x
  | _, _ => false
  end.

(** Truthiness of a number: [0] and [NaN] are falsy. *)
Definition num_truthy (a : number) : bool :=
  match a with
  | Num z => negb (z =? 0)
  | NaN => false
  end.

(** [String(n)] for an integral number: decimal digits, [-] for negatives. *)
Definition Z_toString (z : Z) : string := NilZero.string_of_int (Z.to_int z).

Definition num_toString (n : number) : string :=
  match n with
  | Num z => Z_toString z
  | NaN => "NaN"
  end.

(** A property key made of a value that may be [undefined]. *)
Definition key (h : option string) : string :=
  match h with Some s => s | None => "undefined" end.

(** [a === b] on values that are strings or [undefined]. *)
Definition str_eq (a b : option string) : bool :=
  match a, b with
  | Some x, Some y => String.eqb x y
  | None, None => true
  | _, _ => false
  end.

(** Truthiness of a string-or-undefined value: [undefined] and [""] are
    falsy. *)
Definition str_truthy (a : option string) : bool :=
  match a with
  | Some s => negb (String.eqb s "")
  | None => false
  end.

Definition isUndefined {A} (v : option A) : bool :=
  match v with Some _ => false | None => true end.

(** Dictionaries: [o[k]], [o[k] = v], [delete o[k]], and the own keys in
    enumeration order. *)
Definition obj (V : Type) : Type := list (string * V).

Fixpoint get {V} (o : obj V) (k : string) : option V :=
  match o with
  | [] => None
  | (k', v) :: r => if String.eqb k k' then Some v else get r k
  end.

Fixpoint set {V} (o : obj V) (k : string) (v : V) : obj V :=
  match o with
  | [] => [(k, v)]
  | (k', v') :: r =>
      if String.eqb k k' then (k', v) :: r else (k', v') :: set r k v
  end.

Fixpoint delete {V} (o : obj V) (k : string) : obj V :=
  match o with
  | [] => []
  | (k', v') :: r =>
      if String.eqb k k' then delete r k else (k', v') :: delete r k
  end.

Definition keys {V} (o : obj V) : list string := map fst o.

(** ** Bytes and buffers *)

Definition bytes : Type := list byte.

Definition Z_of_byte (b : byte) : Z := Z.of_N (Byte.to_N b).

Definition byte_of_Z (z : Z) : byte :=
  match Byte.of_N (Z.to_N (z mod 256)) with
  | Some b => b
  | None => x00
  end.

(** [k] bytes of [n], least significant first; a negative [n] comes out in
    two's complement. *)
Fixpoint le_bytes (k : nat) (n : Z) : bytes :=
  match k with
  | O => []
  | S k' => byte_of_Z n :: le_bytes k' (n / 256)
  end.

Fixpoint le_value (bs : bytes) : Z :=
  match bs with
  | [] => 0
  | b :: r => Z_of_byte b + 256 * le_value r
  end.

(** Hexadecimal text of bytes: [buf.toString('hex')]. *)
Definition hex_digit (n : Z) : ascii :=
  if n <? 10 then ascii_of_nat (Z.to_nat (48 + n))
  else ascii_of_nat (Z.to_nat (87 + n)).

Fixpoint toHex (bs : bytes) : string :=
  match bs with
  | [] => EmptyString
  | b :: r =>
      String (hex_digit (Z_of_byte b / 16))
        (String (hex_digit (Z_of_byte b mod 16)) (toHex r))
  end.

Definition hex_value (c : ascii) : option Z :=
  let n := Z.of_nat (nat_of_ascii c) in
  if (48 <=? n) && (n <=? 57) then Some (n - 48)
  else if (97 <=? n) && (n <=? 102) then Some (n - 87)
  else if (65 <=? n) && (n <=? 70) then Some (n - 55)
  else None.

(** [new Buffer(text, 'hex')]: the bytes of a hexadecimal text. A text of odd
    length or with a character that is no hexadecimal digit is modelled as a
    throw ('Invalid hex string'). *)
Fixpoint fromHex (s : string) : outcome bytes :=
  match s with
  | EmptyString => Returned []
  | String _ EmptyString => Threw "Invalid hex string"
  | String a (String b r) =>
      match hex_value a, hex_value b with
      | Some h, Some l =>
          do bs <- fromHex r; Returned (byte_of_Z (16 * h + l) :: bs)
      | _, _ => Threw "Invalid hex string"
      end
  end.

(** A [Buffer] is an object: [ref] is its identity (what [===] compares),
    [data] its content. References are handed out by a counter, the [heap];
    reference [0] belongs to the constant [BufferUtil.NULL_HASH], which is
    created when the library is loaded. *)
Record Buffer : Type := { ref : nat; data : bytes }.

Definition heap : Type := nat.

Definition alloc (h : heap) (d : bytes) : Buffer * heap :=
  ({| ref := h; data := d |}, S h).

Definition NULL_HASH : Buffer := {| ref := 0; data := repeat x00 32 |}.

(** The heap right after the library is loaded. *)
Definition heap0 : heap := 1%nat.

(** [a === b] on buffers: the same object. *)
Definition buf_eq (a b : Buffer) : bool := Nat.eqb (ref a) (ref b).

(** ** BufferWriter and BufferReader *)

(** Modelled from the spec: [encoding/bufferwriter] is not among the sources.
    A writer accumulates bytes; [u8], [u32 LE] and [i32 LE] write the value
    least significant byte first, a negative [i32] in two's complement. The
    specification is silent on values outside the range of the wire type;
    they are reduced modulo 2^8 or 2^32 here. *)
Definition BufferWriter : Type := bytes.

Definition write (b : bytes) (w : BufferWriter) : BufferWriter := w ++ b.
Definition writeUInt8 (n : Z) (w : BufferWriter) : BufferWriter :=
  w ++ le_bytes 1 n.
Definition writeInt32LE (n : Z) (w : BufferWriter) : BufferWriter :=
  w ++ le_bytes 4 n.
Definition writeUInt32LE (n : Z) (w : BufferWriter) : BufferWriter :=
  w ++ le_bytes 4 n.

(** Modelled from the spec: [encoding/bufferreader] is not among the sources.
    A reader is the bytes not yet consumed; reading past the end fails. *)
Definition BufferReader : Type := bytes.

Definition finished (r : BufferReader) : bool :=
  match r with [] => true | _ => false end.

Definition read (n : nat) (r : BufferReader) : outcome (bytes * BufferReader) :=
  if (n <=? List.length r)%nat then Returned (firstn n r, skipn n r)
  else Threw "UnexpectedEOF".

Definition readUInt8 (r : BufferReader) : outcome (Z * BufferReader) :=
  do (b, r') <- read 1 r; Returned (le_value b, r').

Definition readUInt32LE (r : BufferReader) : outcome (Z * BufferReader) :=
  do (b, r') <- read 4 r; Returned (le_value b, r').

Definition readInt32LE (r : BufferReader) : outcome (Z * BufferReader) :=
  do (b, r') <- read 4 r;
  let v := le_value b in
  Returned (if 2 ^ 31 <=? v then v - 2 ^ 32 else v, r').

(** ** Keys, signatures and hashing *)

(** The key, signature and hash modules ([publickey], [privatekey],
    [crypto/signature], [crypto/hash], and the curve arithmetic behind
    [transaction/sighash]) are not among the sources and are opaque to the
    specification: they are an interface. *)
Class Primitives : Type := {
  PublicKey : Type;
  PrivateKey : Type;
  Signature : Type;
  (** [owner.toBufferWriter(writer)] appends these bytes *)
  PublicKey_toBuffer : PublicKey -> bytes;
  PublicKey_fromBufferReader :
    BufferReader -> outcome (PublicKey * BufferReader);
  Signature_toBuffer : Signature -> bytes;
  Signature_fromBuffer : bytes -> outcome Signature;
  (** [Hash.sha256sha256] *)
  sha256sha256 : bytes -> bytes;
  (** [privateKey.toPublicKey()] *)
  toPublicKey : PrivateKey -> PublicKey;
  (** [sign(privateKey, digest)] and [verify(publicKey, digest, signature)]
      of the crypto adapter *)
  ECDSA_sign : PrivateKey -> bytes -> Signature;
  ECDSA_verify : PublicKey -> bytes -> Signature -> bool
}.

(** ** Transactions ([lib/transaction/transaction.js]) *)

Record Position : Type := { pos_x : Z; pos_y : Z }.

(** [pos.x + '_' + pos.y] of [blockchain.js] *)
Definition posToString (pos : Position) : string :=
  Z_toString (pos_x pos) ++ "_" ++ Z_toString (pos_y pos).

Definition neighbors (pos : Position) : list Position :=
  [ {| pos_x := pos_x pos - 1; pos_y := pos_y pos |};
    {| pos_x := pos_x pos + 1; pos_y := pos_y pos |};
    {| pos_x := pos_x pos; pos_y := pos_y pos - 1 |};
    {| pos_x := pos_x pos; pos_y := pos_y pos + 1 |} ].

(** An argument that the source tests with [_.isNumber]. *)
Inductive jsval : Type :=
| JNumber (z : Z)
| JString (s : string)
| JUndefined.

Definition CURRENT_VERSION : Z := 1.

Section Model.
Context {P : Primitives}.

(** The fields of a transaction object. [owner] is [None] for [null],
    [signature] and [_previous] are [None] while they are not set. *)
Inductive Transaction : Type := mkTransaction {
  version : Z;
  input : Buffer;
  position : Position;
  color : Z;
  owner : option PublicKey;
  signature : option Signature;
  _previous : option Transaction
}.

(** An argument of [isValidSignature] and [applySignature], which the source
    tests with [instanceof Signature]. *)
Inductive jsobj : Type :=
| JSignature (s : Signature)
| JPublicKey (p : PublicKey)
| JNothing.

(** The argument of [from]: a string, a transaction, or something else. *)
Inductive fromArg : Type :=
| FromString (s : string)
| FromTransaction (tx : Transaction)
| FromOther.

(** The argument of [sign]: one key or an array of keys. *)
Inductive signArg : Type :=
| SignKey (k : PrivateKey)
| SignKeys (ks : list PrivateKey).

(** [new Transaction()]: the fields set by [_newTransaction] on a new
    object. *)
Definition _newTransaction : Transaction :=
  {| version := CURRENT_VERSION;
     input := NULL_HASH;
     position := {| pos_x := 0; pos_y := 0 |};
     color := 0;
     owner := None;
     signature := None;
     _previous := None |}.

Definition toBufferWriter (this : Transaction) (writer : BufferWriter)
  : BufferWriter :=
  let writer := writeUInt8 (version this) writer in
  let writer := write (data (input this)) writer in
  let writer := writeInt32LE (pos_x (position this)) writer in
  let writer := writeInt32LE (pos_y (position this)) writer in
  let writer := writeUInt32LE (color this) writer in
  let writer :=
    match owner this with
    | Some o => write (PublicKey_toBuffer o) writer
    | None => writer
    end in
  match signature this with
  | Some s =>
      let sigbuf := Signature_toBuffer s in
      let writer := writeUInt8 (Z.of_nat (List.length sigbuf)) writer in
      write sigbuf writer
  | None => writeUInt8 0 writer
  end.

Definition toBuffer (this : Transaction) : bytes := toBufferWriter this [].

(** The fields are assigned one after the other in the source; a throw in
    the middle is modelled as a throw of the whole call. The fields that the
    source does not assign ([signature] when the length byte is zero, and
    [_previous]) keep the value they have in [this]. *)
Definition fromBufferReader (this : Transaction) (reader : BufferReader)
  (h : heap) : outcome (Transaction * BufferReader * heap) :=
  do _ <- check (negb (finished reader)) "No transaction data received";
  do (v, reader) <- readUInt8 reader;
  do (inp, reader) <- read 32 reader;
  let (inbuf, h) := alloc h inp in
  do (px, reader) <- readInt32LE reader;
  do (py, reader) <- readInt32LE reader;
  do (c, reader) <- readUInt32LE reader;
  do (o, reader) <- PublicKey_fromBufferReader reader;
  do (siglen, reader) <- readUInt8 reader;
  if siglen =? 0 then
    Returned
      ({| version := v; input := inbuf;
          position := {| pos_x := px; pos_y := py |};
          color := c; owner := Some o;
          signature := signature this;
          _previous := _previous this |}, reader, h)
  else
    do (sigbuf, reader) <- read (Z.to_nat siglen) reader;
    do s <- Signature_fromBuffer sigbuf;
    Returned
      ({| version := v; input := inbuf;
          position := {| pos_x := px; pos_y := py |};
          color := c; owner := Some o;
          signature := Some s;
          _previous := _previous this |}, reader, h).

Definition fromBuffer (this : Transaction) (buffer : bytes) (h : heap)
  : outcome (Transaction * heap) :=
  do (r, h') <- fromBufferReader this buffer h;
  Returned (fst r, h').

Definition getHash (this : Transaction) : bytes :=
  sha256sha256 (toBuffer this).

(** The [hash] and [id] properties: the hash reversed, in hexadecimal. *)
Definition id (this : Transaction) : string := toHex (rev (getHash this)).

Definition from (this : Transaction) (tx : fromArg) (h : heap)
  : outcome (Transaction * heap) :=
  match tx with
  | FromString s =>
      do d <- fromHex s;
      let (b, h') := alloc h d in
      Returned
        ({| version := version this; input := b;
            position := position this; color := color this;
            owner := owner this; signature := signature this;
            _previous := _previous this |}, h')
  | FromTransaction tx =>
      do d <- fromHex (id tx);
      let (b, h') := alloc h d in
      Returned
        ({| version := version this; input := b;
            position := {| pos_x := pos_x (position tx);
                           pos_y := pos_y (position tx) |};
            color := color this;
            owner := owner this; signature := signature this;
            _previous := Some tx |}, h')
  | FromOther => Threw "tx is a required Transaction"
  end.

Definition at_ (this : Transaction) (x y : jsval) : outcome Transaction :=
  do _ <- check (isUndefined (_previous this))
            "Can not set position if a previous transaction was set";
  match x, y with
  | JNumber x, JNumber y =>
      Returned
        {| version := version this; input := input this;
           position := {| pos_x := x; pos_y := y |};
           color := color this; owner := owner this;
           signature := signature this; _previous := _previous this |}
  | JNumber _, _ => Threw "y is a required integer"
  | _, _ => Threw "x is a required integer"
  end.

Definition _clearSignatures (this : Transaction) : Transaction :=
  {| version := version this; input := input this;
     position := position this; color := color this; owner := owner this;
     signature := None; _previous := _previous this |}.

(** Modelled from the spec: [transaction/sighash] is not among the sources.
    The preimage is the serialization with a zero signature length, the
    signed message its double SHA-256. *)
Definition sighash (transaction : Transaction) : bytes :=
  sha256sha256 (toBuffer (_clearSignatures transaction)).

Definition Sighash_sign (transaction : Transaction) (privateKey : PrivateKey)
  : Signature :=
  ECDSA_sign privateKey (sighash transaction).

Definition Sighash_verify (transaction : Transaction) (sig : Signature)
  (publicKey : PublicKey) : bool :=
  ECDSA_verify publicKey (sighash transaction) sig.

Definition getSignature (this : Transaction) (privateKey : PrivateKey)
  : Signature :=
  Sighash_sign this privateKey.

Definition isValidSignature (this : Transaction) (sig : jsobj)
  : outcome bool :=
  match _previous this with
  | None =>
      Threw "No previous transaction information, cannot validate signature"
  | Some previous =>
      match owner previous with
      | None => Threw "Previous transaction has invalid owner"
      | Some previousOwner =>
          match sig with
          | JSignature s => Returned (Sighash_verify this s previousOwner)
          | _ => Threw "signature must be a Signature"
          end
      end
  end.

Definition applySignature (this : Transaction) (sig : jsobj)
  : outcome Transaction :=
  do _ <- check (match sig with JNothing => false | _ => true end)
            "signature is required";
  do valid <- isValidSignature this sig;
  do _ <- check valid "invalid signature for this transaction";
  match sig with
  | JSignature s =>
      Returned
        {| version := version this; input := input this;
           position := position this; color := color this;
           owner := owner this; signature := Some s;
           _previous := _previous this |}
  | _ => Threw "signature must be a Signature"
  end.

Fixpoint sign_each (this : Transaction) (keys : list PrivateKey)
  : outcome Transaction :=
  match keys with
  | [] => Returned this
  | pk :: rest =>
      do this' <- applySignature this (JSignature (getSignature this pk));
      sign_each this' rest
  end.

Definition sign (this : Transaction) (privateKey : signArg)
  : outcome Transaction :=
  match privateKey with
  | SignKeys ks => sign_each this ks
  | SignKey k => applySignature this (JSignature (getSignature this k))
  end.

Definition isFullySigned (this : Transaction) : bool :=
  negb (isUndefined (signature this)).

Definition isCoinbase (this : Transaction) : bool :=
  buf_eq (input this) NULL_HASH.

(** ** Blocks ([lib/block/block.js]) *)

(** A block as the engine and the Merkle code read it: the values of the
    properties [hash], [prevHash] and [height] (getters over the header) and
    the list of transactions. *)
Record Block : Type := {
  block_hash : string;
  block_prevHash : string;
  block_height : Z;
  transactions : list Transaction
}.

(** [Block.Values.NULL_HASH] *)
Definition Block_NULL_HASH : bytes := repeat x00 32.

Definition getTransactionHashes (this : Block) : list bytes :=
  if (List.length (transactions this) =? 0)%nat then [Block_NULL_HASH]
  else map getHash (transactions this).

(** [Buffer.concat([a, b])]; an element that is [undefined] makes it throw. *)
Definition Buffer_concat (a b : option bytes) : outcome bytes :=
  match a, b with
  | Some a, Some b => Returned (a ++ b)
  | _, _ => Threw "list argument must be an Array of Buffers"
  end.

(** The inner loop of [getMerkleTree]:
    [for (var i = 0; i < size; i += 2) { ... tree.push(...) }]. *)
Fixpoint getMerkleTree_pairs (fuel : nat) (tree : list bytes)
  (j size i : nat) : outcome (list bytes) :=
  match fuel with
  | O => OutOfFuel
  | S fuel' =>
      if (i <? size)%nat then
        let i2 := Nat.min (i + 1) (size - 1) in
        do buf <- Buffer_concat (nth_error tree (j + i))
                    (nth_error tree (j + i2));
        getMerkleTree_pairs fuel' (tree ++ [sha256sha256 buf]) j size (i + 2)
      else Returned tree
  end.

(** The outer loop of [getMerkleTree]:
    [for (var size = ...; size > 1; size = Math.floor((size + 1) / 2))]. *)
Fixpoint getMerkleTree_levels (fuel : nat) (tree : list bytes)
  (j size : nat) : outcome (list bytes) :=
  match fuel with
  | O => OutOfFuel
  | S fuel' =>
      if (1 <? size)%nat then
        do tree' <- getMerkleTree_pairs (S size) tree j size 0;
        getMerkleTree_levels fuel' tree' (j + size) ((size + 1) / 2)
      else Returned tree
  end.

Definition getMerkleTree (this : Block) : outcome (list bytes) :=
  let size := List.length (transactions this) in
  getMerkleTree_levels (S size) (getTransactionHashes this) 0 size.

Definition getMerkleRoot (this : Block) : outcome bytes :=
  do tree <- getMerkleTree this;
  match nth_error tree (List.length tree - 1) with
  | Some root => Returned root
  | None => Threw "root should be a Buffer"
  end.

(** The Merkle root in the words of the specification: every level of [n]
    nodes is reduced to [ceil(n/2)] parents, parent [i] being the double hash
    of node [2i] followed by node [min(2i+1, n-1)]. *)
Definition merkle_parents (nodes : list bytes) : list bytes :=
  let n := List.length nodes in
  map (fun i =>
         sha256sha256
           (nth (2 * i) nodes [] ++ nth (Nat.min (2 * i + 1) (n - 1)) nodes []))
      (seq 0 ((n + 1) / 2)).

Fixpoint merkle_reduce (fuel : nat) (nodes : list bytes) : list bytes :=
  match fuel with
  | O => nodes
  | S fuel' =>
      if (List.length nodes <=? 1)%nat then nodes
      else merkle_reduce fuel' (merkle_parents nodes)
  end.

Definition merkle_root_spec (hashes : list bytes) : bytes :=
  match hashes with
  | [] => repeat x00 32
  | _ => last (merkle_reduce (List.length hashes) hashes) []
  end.

(** ** The chain-state engine ([lib/blockchain.js]) *)

Definition NULL : string :=
  "0000000000000000000000000000000000000000000000000000000000000000".

Definition MAX_REWIND : Z := 100.

(** Modelled from the spec: [store/block] and [store/transaction] are not
    among the sources. A store is a key-value map from the display hash to
    the object, with [get] and [set]. *)
Definition BlockStore : Type := obj Block.
Definition TransactionStore : Type := obj Transaction.

Definition BlockStore_set (st : BlockStore) (b : Block) : BlockStore :=
  set st (block_hash b) b.
Definition BlockStore_get (st : BlockStore) (hash : option string)
  : option Block :=
  get st (key hash).
Definition TransactionStore_set (st : TransactionStore) (tx : Transaction)
  : TransactionStore :=
  set st (id tx) tx.

Record Blockchain : Type := mkBlockchain {
  tip : option string;
  work : obj number;
  height : obj number;
  hashByHeight : obj string;
  next : obj string;
  prev : obj string;
  pixels : obj Transaction;
  blockStore : BlockStore;
  txStore : TransactionStore
}.

(** [new Blockchain()] *)
Definition new_Blockchain : Blockchain :=
  {| tip := Some NULL;
     work := [(NULL, Num 0)];
     height := [(NULL, Num (-1))];
     hashByHeight := [("-1"%string, NULL)];
     next := [];
     prev := [];
     pixels := [];
     blockStore := [];
     txStore := [] |}.

Definition with_tip (s : Blockchain) (v : option string) : Blockchain :=
  mkBlockchain v (work s) (height s) (hashByHeight s) (next s) (prev s)
    (pixels s) (blockStore s) (txStore s).
Definition with_work (s : Blockchain) (v : obj number) : Blockchain :=
  mkBlockchain (tip s) v (height s) (hashByHeight s) (next s) (prev s)
    (pixels s) (blockStore s) (txStore s).
Definition with_height (s : Blockchain) (v : obj number) : Blockchain :=
  mkBlockchain (tip s) (work s) v (hashByHeight s) (next s) (prev s)
    (pixels s) (blockStore s) (txStore s).
Definition with_hashByHeight (s : Blockchain) (v : obj string) : Blockchain :=
  mkBlockchain (tip s) (work s) (height s) v (next s) (prev s)
    (pixels s) (blockStore s) (txStore s).
Definition with_next (s : Blockchain) (v : obj string) : Blockchain :=
  mkBlockchain (tip s) (work s) (height s) (hashByHeight s) v (prev s)
    (pixels s) (blockStore s) (txStore s).
Definition with_prev (s : Blockchain) (v : obj string) : Blockchain :=
  mkBlockchain (tip s) (work s) (height s) (hashByHeight s) (next s) v
    (pixels s) (blockStore s) (txStore s).
Definition with_pixels (s : Blockchain) (v : obj Transaction) : Blockchain :=
  mkBlockchain (tip s) (work s) (height s) (hashByHeight s) (next s) (prev s)
    v (blockStore s) (txStore s).
Definition with_blockStore (s : Blockchain) (v : BlockStore) : Blockchain :=
  mkBlockchain (tip s) (work s) (height s) (hashByHeight s) (next s) (prev s)
    (pixels s) v (txStore s).
Definition with_txStore (s : Blockchain) (v : TransactionStore) : Blockchain :=
  mkBlockchain (tip s) (work s) (height s) (hashByHeight s) (next s) (prev s)
    (pixels s) (blockStore s) v.

(** A method of the engine: it returns or throws, and leaves a state behind
    in both cases. *)
Definition method (A : Type) : Type := outcome A * Blockchain.

Definition getWork (hash : string) : number := Num 1.

Definition addHashReferences (s : Blockchain) (block : Block) : Blockchain :=
  let prevHash := block_prevHash block in
  let hash := block_hash block in
  let s := with_work s
             (set (work s) hash
                (num_add (toNumber (get (work s) prevHash)) (getWork hash))) in
  with_prev s (set (prev s) hash prevHash).

Definition saveTxToStore (s : Blockchain) (block : Block) : Blockchain :=
  fold_left (fun s tx => with_txStore s (TransactionStore_set (txStore s) tx))
    (transactions block) s.

Definition saveBlockToStore (s : Blockchain) (block : Block) : Blockchain :=
  saveTxToStore (with_blockStore s (BlockStore_set (blockStore s) block)) block.

(** [Sighash.verify(tx, signature, owner)] as [checkValidBlock] calls it: the
    signature or the owner may be missing, which the argument checks of the
    sighash module refuse. *)
Definition Sighash_verify_call (tx : Transaction) (sig : option Signature)
  (publicKey : option PublicKey) : outcome bool :=
  match sig, publicKey with
  | Some sg, Some pk => Returned (Sighash_verify tx sg pk)
  | _, _ => Threw "Invalid Argument"
  end.

(** The loop of [checkValidBlock] over the transactions after the first. *)
Fixpoint checkValidBlock_signatures (s : Blockchain)
  (prevTx : obj Transaction) (i : nat) (txs : list Transaction)
  : outcome bool :=
  match txs with
  | [] => Returned true
  | tx :: rest =>
      let pos := posToString (position tx) in
      let holder :=
        match get prevTx pos with
        | Some t => Some t
        | None => get (pixels s) pos
        end in
      match holder with
      | None => Threw "Cannot read property 'owner' of undefined"
      | Some p =>
          do ok <- Sighash_verify_call tx (signature tx) (owner p);
          if ok then checkValidBlock_signatures s (set prevTx pos tx) (S i) rest
          else Threw ("Signature mismatch for transaction index "
                        ++ Z_toString (Z.of_nat i) ++ ", hash " ++ id tx)
      end
  end.

Definition checkValidBlock (s : Blockchain) (block : Block) : outcome bool :=
  if isUndefined (get (work s) (block_prevHash block)) then
    Threw ("Could not find parent in memory for block "
             ++ block_hash block ++ " - parent is: " ++ block_prevHash block)
  else
    match transactions block with
    | [] => Threw "Cannot read property 'position' of undefined"
    | coinbase :: rest =>
        let coinbasePos := posToString (position coinbase) in
        if negb (isUndefined (get (pixels s) coinbasePos)) then
          Threw "Pixel in coinbase already mined"
        else
          let neighborList := neighbors (position coinbase) in
          let adjacent :=
            fold_left
              (fun adjacent n =>
                 if negb (isUndefined (get (pixels s) (posToString n)))
                 then true else adjacent)
              neighborList (block_height block =? 0) in
          if negb adjacent then
            Threw "Mined block is not adjacent to another pixel"
          else
            checkValidBlock_signatures s [(coinbasePos, coinbase)] 1 rest
    end.

Definition isValidBlock (s : Blockchain) (block : Block) : bool :=
  match checkValidBlock s block with
  | Returned _ => true
  | _ => false
  end.

Definition hasData (s : Blockchain) (hash : string) : bool :=
  if String.eqb hash NULL then true
  else negb (isUndefined (get (work s) hash)).

Definition confirm (s : Blockchain) (block : Block) : method unit :=
  let hash := block_hash block in
  let prevHash := get (prev s) hash in
  if negb (negb (str_eq prevHash (Some NULL)) || str_eq prevHash (tip s)) then
    (Threw "Attempting to confirm a non-contiguous block.", s)
  else
    let s := with_tip s (Some hash) in
    let h := num_add (toNumber (get (height s) (key prevHash))) (Num 1) in
    let s := with_next s (set (next s) (key prevHash) hash) in
    let s := with_hashByHeight s (set (hashByHeight s) (num_toString h) hash) in
    let s := with_height s (set (height s) hash h) in
    let s :=
      fold_left
        (fun s tx =>
           with_pixels s (set (pixels s) (posToString (position tx)) tx))
        (transactions block) s in
    (Returned tt, s).

(** What a caller hands to [unconfirm]: a hash (possibly [undefined]), as
    the parameter is named, or a block object, as [_appendNewBlock] does. *)
Inductive unconfirmArg : Type :=
| UHash (hash : option string)
| UBlock (block : Block).

(** [String(v)] for a number that may be [undefined]. *)
Definition height_key (v : option number) : string :=
  match v with
  | Some n => num_toString n
  | None => "undefined"
  end.

(** With a block object as argument, [hash === this.tip] compares an object
    with a string (or [undefined]) and is false: the check throws, and the
    value read from [this.prev] before it is not used. *)
Definition unconfirm (s : Blockchain) (arg : unconfirmArg) : method unit :=
  match arg with
  | UBlock _ => (Threw "Attempting to unconfirm a non-tip block", s)
  | UHash hash =>
      let prevHash := get (prev s) (key hash) in
      if negb (str_eq hash (tip s)) then
        (Threw "Attempting to unconfirm a non-tip block", s)
      else
        let s := with_tip s prevHash in
        let h := get (height s) (key hash) in
        let s := with_next s (delete (next s) (key prevHash)) in
        let s := with_hashByHeight s (delete (hashByHeight s) (height_key h)) in
        let s := with_height s (delete (height s) (key hash)) in
        (Returned tt, s)
  end.

(** [list.map(f)] for a method [f] of the engine: a throw ends the walk. *)
Fixpoint each {A} (f : Blockchain -> A -> method unit) (l : list A)
  (s : Blockchain) : method unit :=
  match l with
  | [] => (Returned tt, s)
  | a :: r =>
      match f s a with
      | (Returned _, s') => each f r s'
      | (o, s') => (o, s')
      end
  end.

(** [while (_.isUndefined(this.height[pointer])) { toConfirm.push(pointer);
    pointer = this.prev[pointer]; }] *)
Fixpoint walk_toConfirm (fuel : nat) (s : Blockchain)
  (pointer : option string) (toConfirm : list (option string))
  : outcome (list (option string) * option string) :=
  match fuel with
  | O => OutOfFuel
  | S fuel' =>
      if isUndefined (get (height s) (key pointer)) then
        walk_toConfirm fuel' s (get (prev s) (key pointer))
          (toConfirm ++ [pointer])
      else Returned (toConfirm, pointer)
  end.

(** [while (pointer !== commonAncestor) { toUnconfirm.push(pointer);
    pointer = this.prev[pointer]; }] *)
Fixpoint walk_toUnconfirm (fuel : nat) (s : Blockchain)
  (commonAncestor pointer : option string)
  (toUnconfirm : list (option string)) : outcome (list (option string)) :=
  match fuel with
  | O => OutOfFuel
  | S fuel' =>
      if negb (str_eq pointer commonAncestor) then
        walk_toUnconfirm fuel' s commonAncestor (get (prev s) (key pointer))
          (toUnconfirm ++ [pointer])
      else Returned toUnconfirm
  end.

Record reorg : Type := {
  unconfirmed : list (option string);
  confirmed : list (option string)
}.

Definition _appendNewBlock (fuel : nat) (s : Blockchain) (hash : string)
  : method reorg :=
  match walk_toConfirm fuel s (Some hash) [] with
  | Returned (toConfirm, commonAncestor) =>
      match walk_toUnconfirm fuel s commonAncestor (tip s) [] with
      | Returned toUnconfirm =>
          let toConfirm := rev toConfirm in
          match
            each (fun s hash =>
                    unconfirm s
                      match BlockStore_get (blockStore s) hash with
                      | Some b => UBlock b
                      | None => UHash None
                      end) toUnconfirm s
          with
          | (Returned _, s) =>
              match
                each (fun s hash =>
                        match BlockStore_get (blockStore s) hash with
                        | Some b => confirm s b
                        | None =>
                            (Threw "Cannot read property 'hash' of undefined",
                             s)
                        end) toConfirm s
              with
              | (Returned _, s) =>
                  (Returned {| unconfirmed := toUnconfirm;
                               confirmed := toConfirm |}, s)
              | (Threw m, s) => (Threw m, s)
              | (OutOfFuel, s) => (OutOfFuel, s)
              end
          | (Threw m, s) => (Threw m, s)
          | (OutOfFuel, s) => (OutOfFuel, s)
          end
      | Threw m => (Threw m, s)
      | OutOfFuel => (OutOfFuel, s)
      end
  | Threw m => (Threw m, s)
  | OutOfFuel => (OutOfFuel, s)
  end.

(** [fuel] bounds the two walks of [_appendNewBlock]. *)
Definition proposeNewBlock (fuel : nat) (s : Blockchain) (block : Block)
  : method reorg :=
  let prevHash := block_prevHash block in
  let hash := block_hash block in
  if negb (isValidBlock s block) then (Threw "Invalid Argument", s)
  else if negb (hasData s prevHash) then
    (Threw "No previous data to estimate work", s)
  else
    let s := saveBlockToStore s block in
    let s := addHashReferences s block in
    let w := get (work s) hash in
    let tipWork := get (work s) (key (tip s)) in
    match w, tipWork with
    | None, _ => (Threw ("No work found for " ++ hash), s)
    | _, None => (Threw ("No work found for tip " ++ key (tip s)), s)
    | Some w, Some tipWork =>
        if num_gt w tipWork then _appendNewBlock fuel s hash
        else (Returned {| unconfirmed := []; confirmed := [] |}, s)
    end.

(** [_.each(this.prev, function(key) { ... })]: lodash lists the own keys of
    [this.prev] once, then calls the function on the value found under each
    key at that moment. The parameter the source names [key] receives that
    value. *)
Definition prune_visit (s : Blockchain) (k : string) : Blockchain :=
  let key_ := key (get (prev s) k) in
  let falsy :=
    match get (height s) key_ with
    | Some n => negb (num_truthy n)
    | None => true
    end in
  if falsy then
    let s := with_prev s (delete (prev s) key_) in
    with_work s (delete (work s) key_)
  else s.

Definition prune (s : Blockchain) : Blockchain :=
  fold_left prune_visit (keys (prev s)) s.

Definition getCurrentHeight (s : Blockchain) : option number :=
  get (height s) (key (tip s)).

(** [for (var i = 0; i < 10; i++) { if (currentHeight >= 0) {
    result.push(this.hashByHeight[currentHeight--]); } }] *)
Fixpoint getBlockLocator_recent (n : nat) (s : Blockchain)
  (currentHeight : Z) (result : list (option string))
  : list (option string) * Z :=
  match n with
  | O => (result, currentHeight)
  | S n' =>
      if 0 <=? currentHeight then
        getBlockLocator_recent n' s (currentHeight - 1)
          (result ++ [get (hashByHeight s) (Z_toString currentHeight)])
      else getBlockLocator_recent n' s currentHeight result
  end.

(** [while (currentHeight > 0) { result.push(...);
    currentHeight -= exponentialBackOff; exponentialBackOff *= 2; }] *)
Fixpoint getBlockLocator_backOff (fuel : nat) (s : Blockchain)
  (currentHeight exponentialBackOff : Z) (result : list (option string))
  : outcome (list (option string)) :=
  match fuel with
  | O => OutOfFuel
  | S fuel' =>
      if 0 <? currentHeight then
        getBlockLocator_backOff fuel' s
          (currentHeight - exponentialBackOff) (exponentialBackOff * 2)
          (result ++ [get (hashByHeight s) (Z_toString currentHeight)])
      else Returned result
  end.

Definition getBlockLocator (s : Blockchain) : outcome (list (option string)) :=
  do _ <- check (str_truthy (tip s)) "Invalid state";
  do _ <- check (negb (isUndefined (get (height s) (key (tip s)))))
            "Invalid state";
  match getCurrentHeight s with
  | Some (Num currentHeight) =>
      let (result, currentHeight) :=
        getBlockLocator_recent 10 s currentHeight [] in
      getBlockLocator_backOff (S (Z.to_nat currentHeight)) s currentHeight 1
        result
  | _ => Returned []
  end.

End Model.

(** ** Laws of the interface *)

(** The codec of public keys reads back what it wrote and leaves the rest of
    the input. *)
Definition PublicKey_codec_ok (P : Primitives) : Prop :=
  forall (pk : PublicKey) (rest : bytes),
    PublicKey_fromBufferReader (PublicKey_toBuffer pk ++ rest)
    = Returned (pk, rest).

Definition Signature_codec_ok (P : Primitives) : Prop :=
  forall s : Signature, Signature_fromBuffer (Signature_toBuffer s) = Returned s.

(** A signature made with a private key verifies under its public key. *)
Definition ECDSA_ok (P : Primitives) : Prop :=
  forall (sk : PrivateKey) (digest : bytes),
    ECDSA_verify (toPublicKey sk) digest (ECDSA_sign sk digest) = true.

(** ** Definitions that follow the words of the specification *)

Section Specification.
Context {P : Primitives}.

Definition signature_bytes (t : Transaction) : bytes :=
  match signature t with
  | Some s => Signature_toBuffer s
  | None => []
  end.

(** [u8 version | [32] input | i32 x | i32 y | u32 color | PublicKey owner |
    u8 sigLen | [sigLen] signature] *)
Definition wire_layout (t : Transaction) (pk : PublicKey) : bytes :=
  le_bytes 1 (version t)
  ++ data (input t)
  ++ le_bytes 4 (pos_x (position t))
  ++ le_bytes 4 (pos_y (position t))
  ++ le_bytes 4 (color t)
  ++ PublicKey_toBuffer pk
  ++ le_bytes 1 (Z.of_nat (List.length (signature_bytes t)))
  ++ signature_bytes t.

(** A valid transaction: the fields fit their wire types, the input is a
    32-byte hash, the owner is present, and a signature, when present, has at
    most 255 bytes. *)
Record valid_transaction (t : Transaction) (pk : PublicKey) : Prop := {
  valid_version : 0 <= version t < 2 ^ 8;
  valid_input : List.length (data (input t)) = 32%nat;
  valid_x : - 2 ^ 31 <= pos_x (position t) < 2 ^ 31;
  valid_y : - 2 ^ 31 <= pos_y (position t) < 2 ^ 31;
  valid_color : 0 <= color t < 2 ^ 32;
  valid_owner : owner t = Some pk;
  valid_signature : (List.length (signature_bytes t) <= 255)%nat
}.

(** The block locator in the words of the specification: the heights of the
    ten most recent blocks, [H] downwards, as many as are not negative ... *)
Definition recent_heights (n : nat) (H : Z) : list Z :=
  filter (fun h => 0 <=? h) (map (fun i => H - Z.of_nat i) (seq 0 n)).

(** ... then heights at gaps 1, 2, 4, 8, ...: the [k]-th of them lies
    [2^k - 1] below the first, ... *)
Definition backoff_height (start : Z) (k : nat) : Z :=
  start - (2 ^ Z.of_nat k - 1).

(** ... as long as the height is above zero. *)
Definition backoff_count (start : Z) : nat :=
  if 0 <? start then S (Z.to_nat (Z.log2 start)) else O.

Definition backoff_heights (start : Z) : list Z :=
  map (backoff_height start) (seq 0 (backoff_count start)).

Definition locator_heights (H : Z) : list Z :=
  recent_heights 10 H ++ backoff_heights (H - 10).

(** [this.hashByHeight[h]] *)
Definition hashAt (s : Blockchain) (h : Z) : option string :=
  get (hashByHeight s) (Z_toString h).

End Specification.

(** * The code around the claims *)

(** ** What the transaction code needs besides the primitives *)

(** The plain-object form of a public key ([owner.toObject()],
    [PublicKey.fromObject]), the constructor [new PublicKey(text)] and the
    built-in [parseInt] are outside the sources: an interface again. *)
Class Platform (P : Primitives) : Type := {
  PublicKeyObject : Type;
  PublicKey_toObject : PublicKey -> PublicKeyObject;
  PublicKey_fromObject : PublicKeyObject -> outcome PublicKey;
  PublicKey_fromString : string -> outcome PublicKey;
  parseInt : string -> number
}.

(** The plain-object form of a public key reads back. *)
Definition PublicKey_object_ok (P : Primitives) (Q : Platform P) : Prop :=
  forall pk : PublicKey, PublicKey_fromObject (PublicKey_toObject pk) = Returned pk.




(** The argument of [colored]: a number, a string or [undefined]. *)
Inductive colorArg : Type :=
| ColorNumber (n : number)
| ColorString (s : string)
| ColorUndefined.

(** The argument of [serialize] and [checkedSerialize]: [true], an object of
    flags, or nothing. *)
Inductive serializeArg : Type :=
| Unsafe_true
| Unsafe_flags (disableAll disableIsFullySigned : bool)
| Unsafe_nothing.

Section MoreTransaction.
Context {P : Primitives} {Q : Platform P}.

(** The argument of [to]: a string, a public key, or something else. *)
Inductive toArg : Type :=
| ToString (s : string)
| ToPublicKey (pk : PublicKey)
| ToOther.

(** What [toObject] returns and [fromObject] reads. *)
Record TransactionObject : Type := {
  obj_version : Z;
  obj_input : string;
  obj_position : Position;
  obj_color : Z;
  obj_owner : PublicKeyObject
}.

(** The argument of [fromObject] and [fromJSON]: a transaction or a plain
    object. *)
Inductive txArg : Type :=
| TxInstance (t : Transaction)
| TxObject (o : TransactionObject).




Definition to (this : Transaction) (o : toArg) : outcome Transaction :=
  do pk <- match o with
           | ToString s => PublicKey_fromString s
           | ToPublicKey pk => Returned pk
           | ToOther => Threw "owner is required and must be a PublicKey"
           end;
  Returned
    {| version := version this; input := input this;
       position := position this; color := color this; owner := Some pk;
       signature := signature this; _previous := _previous this |}.

Definition colored (this : Transaction) (c : colorArg) : outcome Transaction :=
  let c := match c with
           | ColorString s => Some (parseInt s)
           | ColorNumber n => Some n
           | ColorUndefined => None
           end in
  match c with
  | Some (Num n) =>
      do _ <- check (num_truthy (Num n)) "color is required";
      do _ <- check ((0 <=? n) && (n <=? 4294967295))
                "color needs to be between 0 and 0xffffffff (0xrrggbbaa)";
      Returned
        {| version := version this; input := input this;
           position := position this; color := n; owner := owner this;
           signature := signature this; _previous := _previous this |}
  | _ => Threw "color is required"
  end.

Definition uncheckedSerialize (this : Transaction) : string :=
  toHex (toBuffer this).

(** The error object, or [None] for [undefined]. *)
Definition _isMissingSignatures (this : Transaction)
  (disableIsFullySigned : bool) : option string :=
  if disableIsFullySigned then None
  else if negb (isFullySigned this) then Some "MissingSignatures"%string
  else None.

Definition getSerializationError (this : Transaction) (opts : serializeArg)
  : option string :=
  _isMissingSignatures this
    match opts with
    | Unsafe_flags _ d => d
    | _ => false
    end.

Definition checkedSerialize (this : Transaction) (opts : serializeArg)
  : outcome string :=
  match getSerializationError this opts with
  | Some e =>
      Threw (e ++ " Use Transaction#uncheckedSerialize if you want to skip security checks. "
               ++ "See http://bitcore.io/guide/transaction.html#Serialization for more info.")
  | None => Returned (uncheckedSerialize this)
  end.

Definition serialize (this : Transaction) (unsafe : serializeArg)
  : outcome string :=
  match unsafe with
  | Unsafe_true => Returned (uncheckedSerialize this)
  | Unsafe_flags true _ => Returned (uncheckedSerialize this)
  | _ => checkedSerialize this unsafe
  end.

Definition fromString (this : Transaction) (s : string) (h : heap)
  : outcome (Transaction * heap) :=
  do b <- fromHex s; fromBuffer this b h.

(** An object the constructor has just made: no field is set. The numeric
    fields and the input hold placeholders, which every reading method
    assigns before anything reads them. *)
Definition blank : Transaction :=
  {| version := 0; input := NULL_HASH;
     position := {| pos_x := 0; pos_y := 0 |}; color := 0; owner := None;
     signature := None; _previous := None |}.

(** [new Transaction(buffer)]: the constructor hands a buffer to
    [fromBuffer]. *)
Definition new_Transaction_buffer (buffer : bytes) (h : heap)
  : outcome (Transaction * heap) :=
  fromBuffer blank buffer h.

Definition shallowCopy (transaction : Transaction) (h : heap)
  : outcome (Transaction * heap) :=
  new_Transaction_buffer (toBuffer transaction) h.

Definition toObject (this : Transaction) : outcome TransactionObject :=
  match owner this with
  | None => Threw "Cannot read property 'toObject' of null"
  | Some o =>
      Returned
        {| obj_version := version this;
           obj_input := toHex (data (input this));
           obj_position := {| pos_x := pos_x (position this);
                              pos_y := pos_y (position this) |};
           obj_color := color this;
           obj_owner := PublicKey_toObject o |}
  end.

Definition fromObject (this : Transaction) (transaction : txArg) (h : heap)
  : outcome (Transaction * heap) :=
  do o <- match transaction with
          | TxInstance t => toObject t
          | TxObject o => Returned o
          end;
  do d <- fromHex (obj_input o);
  let (b, h') := alloc h d in
  do pk <- PublicKey_fromObject (obj_owner o);
  Returned
    ({| version := obj_version o; input := b; position := obj_position o;
        color := obj_color o; owner := Some pk;
        signature := signature this; _previous := _previous this |}, h').

(** [fromJSON] on an argument that is not a JSON text. *)
Definition fromJSON (this : Transaction) (json : txArg) (h : heap)
  : outcome (Transaction * heap) :=
  fromObject this json h.

End MoreTransaction.

(** ** Block headers ([lib/block/blockheader.js]) *)

(** Modelled from the spec: [crypto/bn] is not among the sources.
    [new BN(text, 'hex')] is the integer that the hexadecimal text writes,
    most significant digit first. *)
Fixpoint BN_digits (acc : Z) (s : string) : outcome Z :=
  match s with
  | EmptyString => Returned acc
  | String c r =>
      match hex_value c with
      | Some d => BN_digits (16 * acc + d) r
      | None => Threw "Invalid character"
      end
  end.

Definition BN_fromHex (s : string) : outcome Z := BN_digits 0 s.

(** The integer that bytes write, most significant byte first. *)
Definition be_value (bs : bytes) : Z :=
  fold_left (fun acc b => 256 * acc + Z_of_byte b) bs 0.

(** Modelled from the spec: the variable-length count of
    [encoding/bufferwriter] and [encoding/bufferreader]: one byte below
    [0xfd], else [0xfd] and a [u16], [0xfe] and a [u32], or [0xff] and a
    [u64], little-endian. *)
Definition writeVarintNum (n : Z) (w : BufferWriter) : BufferWriter :=
  if n <? 253 then w ++ le_bytes 1 n
  else if n <? 2 ^ 16 then w ++ xfd :: le_bytes 2 n
  else if n <? 2 ^ 32 then w ++ xfe :: le_bytes 4 n
  else w ++ xff :: le_bytes 8 n.

Definition readVarintNum (r : BufferReader) : outcome (Z * BufferReader) :=
  do (first, r) <- readUInt8 r;
  if first =? 253 then do (b, r') <- read 2 r; Returned (le_value b, r')
  else if first =? 254 then do (b, r') <- read 4 r; Returned (le_value b, r')
  else if first =? 255 then do (b, r') <- read 8 r; Returned (le_value b, r')
  else Returned (first, r).

(** The fields of a header object. [header_timestamp] is set by
    [_fromObject] only; [header__id] is the cache [_id] of the [id] and
    [hash] getters. *)
Record BlockHeader : Type := mkBlockHeader {
  header_version : Z;
  header_height : Z;
  header_time : Z;
  header_timestamp : option Z;
  header_bits : Z;
  header_prevHash : option bytes;
  header_merkleRoot : option bytes;
  header_nonce : Z;
  header__id : option string
}.

(** A [prevHash] or [merkleRoot] in an object handed to the header code: a
    string, a buffer, or [undefined]. *)
Inductive hashArg : Type :=
| HashString (s : string)
| HashBuffer (b : bytes)
| HashUndefined.

(** The plain object that [_fromObject] reads and [toObject] returns. *)
Record HeaderData : Type := {
  data_version : Z;
  data_height : Z;
  data_time : Z;
  data_bits : Z;
  data_prevHash : hashArg;
  data_merkleRoot : hashArg;
  data_nonce : Z
}.

(** The argument of the constructor. *)
Inductive headerArg : Type :=
| HeaderArgBuffer (b : bytes)
| HeaderArgObject (d : HeaderData)
| HeaderArgOther.

(** The argument of [create]; a field that is [undefined] is [None]. *)
Record CreateData : Type := {
  create_height : option Z;
  create_prevHash : hashArg;
  create_time : option Z;
  create_nonce : option Z;
  create_bits : option Z;
  create_merkleRoot : hashArg
}.

Definition BlockHeader_CURRENT_VERSION : Z := 1.
Definition DEFAULT_BITS : Z := 545259519.
Definition MAX_TIME_OFFSET : Z := 2 * 60 * 60.

Definition hashArg_of (b : option bytes) : hashArg :=
  match b with
  | Some b => HashBuffer b
  | None => HashUndefined
  end.

(** A header object read as the data of another header. *)
Definition HeaderData_of (h : BlockHeader) : HeaderData :=
  {| data_version := header_version h;
     data_height := header_height h;
     data_time := header_time h;
     data_bits := header_bits h;
     data_prevHash := hashArg_of (header_prevHash h);
     data_merkleRoot := hashArg_of (header_merkleRoot h);
     data_nonce := header_nonce h |}.

(** [if (_.isString(h)) h = BufferUtil.reverse(new Buffer(h, 'hex'))] *)
Definition BlockHeader_hash_field (a : hashArg) : outcome (option bytes) :=
  match a with
  | HashString s => do b <- fromHex s; Returned (Some (rev b))
  | HashBuffer b => Returned (Some b)
  | HashUndefined => Returned None
  end.

Definition BlockHeader__fromObject (d : HeaderData) : outcome BlockHeader :=
  do prevHash <- BlockHeader_hash_field (data_prevHash d);
  do merkleRoot <- BlockHeader_hash_field (data_merkleRoot d);
  Returned
    {| header_version := data_version d;
       header_height := data_height d;
       header_time := data_time d;
       header_timestamp := Some (data_time d);
       header_bits := data_bits d;
       header_prevHash := prevHash;
       header_merkleRoot := merkleRoot;
       header_nonce := data_nonce d;
       header__id := None |}.

Definition BlockHeader__fromBufferReader (br : BufferReader)
  : outcome (BlockHeader * BufferReader) :=
  do (v, br) <- readUInt32LE br;
  do (hgt, br) <- readUInt32LE br;
  do (t, br) <- readUInt32LE br;
  do (b, br) <- readUInt32LE br;
  do (p, br) <- read 32 br;
  do (m, br) <- read 32 br;
  do (n, br) <- readUInt32LE br;
  Returned
    ({| header_version := v; header_height := hgt; header_time := t;
        header_timestamp := None; header_bits := b;
        header_prevHash := Some p; header_merkleRoot := Some m;
        header_nonce := n; header__id := None |}, br).

(** [new BlockHeader(arg)] *)
Definition new_BlockHeader (arg : headerArg) : outcome BlockHeader :=
  match arg with
  | HeaderArgBuffer b =>
      do (info, _) <- BlockHeader__fromBufferReader b; Returned info
  | HeaderArgObject d => BlockHeader__fromObject d
  | HeaderArgOther => Threw "Unrecognized argument for BlockHeader"
  end.

Definition BlockHeader_fromObject (obj : HeaderData) : outcome BlockHeader :=
  do info <- BlockHeader__fromObject obj;
  new_BlockHeader (HeaderArgObject (HeaderData_of info)).

Definition BlockHeader_fromBufferReader (br : BufferReader)
  : outcome (BlockHeader * BufferReader) :=
  do (info, br) <- BlockHeader__fromBufferReader br;
  do h <- new_BlockHeader (HeaderArgObject (HeaderData_of info));
  Returned (h, br).

Definition BlockHeader_fromBuffer (buf : bytes) : outcome BlockHeader :=
  do (info, _) <- BlockHeader__fromBufferReader buf;
  new_BlockHeader (HeaderArgObject (HeaderData_of info)).

Definition BlockHeader_fromString (str : string) : outcome BlockHeader :=
  do buf <- fromHex str; BlockHeader_fromBuffer buf.

(** [now] is [Math.floor(new Date().getTime() / 1000)]. *)
Definition BlockHeader_create (now : Z) (d : CreateData) : outcome BlockHeader :=
  match create_height d with
  | None => Threw "data.height is required"
  | Some hgt =>
      match create_prevHash d with
      | HashUndefined => Threw "data.prevHash is required"
      | prevHash =>
          let time := match create_time d with
                      | Some t => if t =? 0 then now else t
                      | None => now
                      end in
          let nonce := match create_nonce d with
                       | Some n => n
                       | None => 0
                       end in
          let bits := match create_bits d with
                      | Some b => if b =? 0 then DEFAULT_BITS else b
                      | None => DEFAULT_BITS
                      end in
          new_BlockHeader
            (HeaderArgObject
               {| data_version := BlockHeader_CURRENT_VERSION;
                  data_height := hgt;
                  data_time := time;
                  data_bits := bits;
                  data_prevHash := prevHash;
                  data_merkleRoot := create_merkleRoot d;
                  data_nonce := nonce |})
      end
  end.

Definition BlockHeader_toBufferWriter (this : BlockHeader) (bw : BufferWriter)
  : outcome BufferWriter :=
  let bw := writeUInt32LE (header_version this) bw in
  let bw := writeUInt32LE (header_height this) bw in
  let bw := writeUInt32LE (header_time this) bw in
  let bw := writeUInt32LE (header_bits this) bw in
  match header_prevHash this with
  | None => Threw "Cannot read property 'length' of undefined"
  | Some p =>
      let bw := write p bw in
      match header_merkleRoot this with
      | None => Threw "Cannot read property 'length' of undefined"
      | Some m =>
          let bw := write m bw in
          Returned (writeUInt32LE (header_nonce this) bw)
      end
  end.

Definition BlockHeader_toBuffer (this : BlockHeader) : outcome bytes :=
  BlockHeader_toBufferWriter this [].

Definition BlockHeader_toString (this : BlockHeader) : outcome string :=
  do b <- BlockHeader_toBuffer this; Returned (toHex b).

Definition BlockHeader_toObject (this : BlockHeader) : outcome HeaderData :=
  match header_prevHash this, header_merkleRoot this with
  | Some p, Some m =>
      Returned
        {| data_version := header_version this;
           data_height := header_height this;
           data_time := header_time this;
           data_bits := header_bits this;
           data_prevHash := HashString (toHex (rev p));
           data_merkleRoot := HashString (toHex (rev m));
           data_nonce := header_nonce this |}
  | _, _ => Threw "Cannot read property 'length' of undefined"
  end.

Definition with__id (this : BlockHeader) (v : option string) : BlockHeader :=
  mkBlockHeader (header_version this) (header_height this) (header_time this)
    (header_timestamp this) (header_bits this) (header_prevHash this)
    (header_merkleRoot this) (header_nonce this) v.

Definition with_merkleRoot (this : BlockHeader) (v : option bytes)
  : BlockHeader :=
  mkBlockHeader (header_version this) (header_height this) (header_time this)
    (header_timestamp this) (header_bits this) (header_prevHash this)
    v (header_nonce this) (header__id this).

Definition increaseNonce (this : BlockHeader) : BlockHeader :=
  mkBlockHeader (header_version this) (header_height this) (header_time this)
    (header_timestamp this) (header_bits this) (header_prevHash this)
    (header_merkleRoot this) (header_nonce this + 1) None.

(** [while (mov-- > 0) { target = target.mul(new BN(2)); }] *)
Fixpoint getTargetDifficulty_loop (fuel : nat) (mov target : Z) : outcome Z :=
  match fuel with
  | O => OutOfFuel
  | S fuel' =>
      if 0 <? mov then getTargetDifficulty_loop fuel' (mov - 1) (target * 2)
      else Returned target
  end.

(** [bits & 0xffffff] and [bits >>> 24] work on [bits] reduced to 32 bits. *)
Definition getTargetDifficulty (bits : jsval) : outcome Z :=
  match bits with
  | JNumber bits =>
      let target := Z.land (bits mod 2 ^ 32) 16777215 in
      let mov := 8 * (Z.shiftr (bits mod 2 ^ 32) 24 - 3) in
      getTargetDifficulty_loop (S (Z.to_nat mov)) mov target
  | _ => Threw "bits must be a number"
  end.

Section MoreBlocks.
Context {P : Primitives} {Q : Platform P}.

Definition BlockHeader_getHash (this : BlockHeader) : outcome bytes :=
  do buf <- BlockHeader_toBuffer this; Returned (sha256sha256 buf).

(** The getter of [id] and [hash]: the value, and the header with its cache
    filled. *)
Definition BlockHeader_id (this : BlockHeader) : outcome (string * BlockHeader) :=
  if str_truthy (header__id this) then Returned (key (header__id this), this)
  else
    do hsh <- BlockHeader_getHash this;
    let i := toHex (rev hsh) in
    Returned (i, with__id this (Some i)).

Definition validProofOfWork (this : BlockHeader)
  : outcome (bool * BlockHeader) :=
  do (i, this) <- BlockHeader_id this;
  do pow <- BN_fromHex i;
  do target <- getTargetDifficulty (JNumber (header_bits this));
  Returned (negb (target <? pow), this).

(** ** Blocks with their header ([lib/block/block.js]) *)

Record BlockInstance : Type := {
  blk_header : BlockHeader;
  blk_transactions : list Transaction
}.

(** The object that [Block._fromObject] reads. *)
Record BlockData : Type := {
  data_header : HeaderData;
  data_transactions : list txArg
}.

Inductive blockArg : Type :=
| BlockArgBuffer (b : bytes)
| BlockArgObject (d : BlockData)
| BlockArgOther.

(** A block object read as the data of another block. *)
Definition BlockData_of (b : BlockInstance) : BlockData :=
  {| data_header := HeaderData_of (blk_header b);
     data_transactions := map TxInstance (blk_transactions b) |}.

(** [getTransactionHashes] and [getMerkleTree] read a block through its
    transactions only. *)
Definition Block_of_transactions (txs : list Transaction) : Block :=
  {| block_hash := ""; block_prevHash := ""; block_height := 0;
     transactions := txs |}.

Definition Block_getMerkleRoot (this : BlockInstance) : outcome bytes :=
  getMerkleRoot (Block_of_transactions (blk_transactions this)).

Definition validMerkleRoot (this : BlockInstance) : outcome bool :=
  match header_merkleRoot (blk_header this) with
  | None => Threw "Cannot read property 'toString' of undefined"
  | Some m =>
      do h <- BN_fromHex (toHex m);
      do root <- Block_getMerkleRoot this;
      do c <- BN_fromHex (toHex root);
      Returned (h =? c)
  end.

(** The loop of [Block._fromBufferReader]: each transaction is read into a
    [new Transaction()]. *)
Fixpoint Block_read_transactions (n : nat) (br : BufferReader) (h : heap)
  : outcome (list Transaction * BufferReader * heap) :=
  match n with
  | O => Returned ([], br, h)
  | S n' =>
      do (r, h) <- fromBufferReader _newTransaction br h;
      do (r', h) <- Block_read_transactions n' (snd r) h;
      Returned (fst r :: fst r', snd r', h)
  end.

Definition Block__fromBufferReader (br : BufferReader) (h : heap)
  : outcome (BlockInstance * BufferReader * heap) :=
  do _ <- check (negb (finished br)) "No block data received";
  do (hdr, br) <- BlockHeader_fromBufferReader br;
  do (n, br) <- readVarintNum br;
  do (r, h) <- Block_read_transactions (Z.to_nat n) br h;
  Returned ({| blk_header := hdr; blk_transactions := fst r |}, snd r, h).

(** [data.transactions.forEach(function(tx) {
    transactions.push(Transaction().fromJSON(tx)); })] *)
Fixpoint Block_transactions_fromJSON (l : list txArg) (h : heap)
  : outcome (list Transaction * heap) :=
  match l with
  | [] => Returned ([], h)
  | tx :: rest =>
      do (t, h) <- fromJSON _newTransaction tx h;
      do (ts, h) <- Block_transactions_fromJSON rest h;
      Returned (t :: ts, h)
  end.

Definition Block__fromObject (d : BlockData) (h : heap)
  : outcome (BlockInstance * heap) :=
  do (txs, h) <- Block_transactions_fromJSON (data_transactions d) h;
  do hdr <- BlockHeader_fromObject (data_header d);
  Returned ({| blk_header := hdr; blk_transactions := txs |}, h).

Definition Block__from (arg : blockArg) (h : heap)
  : outcome (BlockInstance * heap) :=
  match arg with
  | BlockArgBuffer b =>
      do (r, h) <- Block__fromBufferReader b h; Returned (fst r, h)
  | BlockArgObject d => Block__fromObject d h
  | BlockArgOther => Threw "Unrecognized argument for Block"
  end.

(** [new Block(arg)] *)
Definition new_Block (arg : blockArg) (h : heap)
  : outcome (BlockInstance * heap) :=
  do (this, h) <- Block__from arg h;
  do this <-
    match header_merkleRoot (blk_header this) with
    | Some _ => Returned this
    | None =>
        do root <- Block_getMerkleRoot this;
        Returned {| blk_header := with_merkleRoot (blk_header this) (Some root);
                    blk_transactions := blk_transactions this |}
    end;
  do valid <- validMerkleRoot this;
  do _ <- check valid "invalid merkle root found in header.";
  Returned (this, h).

Definition Block_fromObject (obj : BlockData) (h : heap)
  : outcome (BlockInstance * heap) :=
  do (info, h) <- Block__fromObject obj h;
  new_Block (BlockArgObject (BlockData_of info)) h.

Definition Block_fromBufferReader (br : BufferReader) (h : heap)
  : outcome (BlockInstance * heap) :=
  do (r, h) <- Block__fromBufferReader br h;
  new_Block (BlockArgObject (BlockData_of (fst r))) h.

Definition Block_fromBuffer (buf : bytes) (h : heap)
  : outcome (BlockInstance * heap) :=
  Block_fromBufferReader buf h.

Definition Block_fromString (str : string) (h : heap)
  : outcome (BlockInstance * heap) :=
  do buf <- fromHex str; Block_fromBuffer buf h.

Definition Block_fromCoinbase (now : Z) (coinbase : Transaction)
  (hd : CreateData) (h : heap) : outcome (BlockInstance * heap) :=
  do _ <- check (isCoinbase coinbase) "coinbase must be a coinbase Transaction";
  do _ <- check (negb (isUndefined (create_height hd)))
            "header.height is a required number";
  do _ <- check (match create_prevHash hd with
                 | HashUndefined => false
                 | _ => true
                 end) "header.prevHash is required";
  do o <- toObject coinbase;
  do hdr <- BlockHeader_create now hd;
  new_Block
    (BlockArgObject {| data_header := HeaderData_of hdr;
                       data_transactions := [TxObject o] |}) h.

Definition Block_toBufferWriter (this : BlockInstance) (bw : BufferWriter)
  : outcome BufferWriter :=
  do hb <- BlockHeader_toBuffer (blk_header this);
  let bw := write hb bw in
  let bw := writeVarintNum (Z.of_nat (List.length (blk_transactions this))) bw in
  Returned (fold_left (fun bw tx => toBufferWriter tx bw)
              (blk_transactions this) bw).

Definition Block_toBuffer (this : BlockInstance) : outcome bytes :=
  Block_toBufferWriter this [].

Definition Block_toString (this : BlockInstance) : outcome string :=
  do b <- Block_toBuffer this; Returned (toHex b).

Definition addTransaction (this : BlockInstance) (tx : Transaction)
  : outcome BlockInstance :=
  let this := {| blk_header := blk_header this;
                 blk_transactions := blk_transactions this ++ [tx] |} in
  do root <- Block_getMerkleRoot this;
  Returned {| blk_header := with_merkleRoot (blk_header this) (Some root);
              blk_transactions := blk_transactions this |}.

Definition Block_getHash (this : BlockInstance) : outcome bytes :=
  BlockHeader_getHash (blk_header this).

(** The getters [hash] and [id] of a block: those of its header, which fill
    its cache. *)
Definition Block_hash (this : BlockInstance) : outcome (string * BlockInstance) :=
  do (i, hdr) <- BlockHeader_id (blk_header this);
  Returned (i, {| blk_header := hdr;
                  blk_transactions := blk_transactions this |}).

(** The getter [prevHash]: the buffer of the header reversed, in
    hexadecimal. *)
Definition Block_prevHash (this : BlockInstance) : option string :=
  match header_prevHash (blk_header this) with
  | Some p => Some (toHex (rev p))
  | None => None
  end.

(** The block as the engine reads it, for a header that has a [prevHash]. *)
Definition Block_properties (this : BlockInstance) : outcome Block :=
  do (i, _) <- Block_hash this;
  match Block_prevHash this with
  | Some p =>
      Returned {| block_hash := i; block_prevHash := p;
                  block_height := header_height (blk_header this);
                  transactions := blk_transactions this |}
  | None => Threw "prevHash is undefined"
  end.

(** ** The engine: snapshots and lookups *)

Record BlockchainObject : Type := {
  object_tip : option string;
  object_work : obj number;
  object_next : obj string;
  object_hashByHeight : obj string;
  object_height : obj number;
  object_prev : obj string
}.

Definition Blockchain_toObject (s : Blockchain) : BlockchainObject :=
  {| object_tip := tip s; object_work := work s; object_next := next s;
     object_hashByHeight := hashByHeight s; object_height := height s;
     object_prev := prev s |}.

Definition Blockchain_fromObject (o : BlockchainObject) : Blockchain :=
  {| tip := object_tip o; work := object_work o; height := object_height o;
     hashByHeight := object_hashByHeight o; next := object_next o;
     prev := object_prev o; pixels := pixels new_Blockchain;
     blockStore := blockStore new_Blockchain;
     txStore := txStore new_Blockchain |}.

(** The engine after the two writes of [proposeNewBlock],
    [saveBlockToStore] and [addHashReferences]. *)
Definition recorded (s : Blockchain) (block : Block) : Blockchain :=
  addHashReferences (saveBlockToStore s block) block.

Definition getBlock (s : Blockchain) (hash : option string) : option Block :=
  BlockStore_get (blockStore s) hash.

Definition getTipBlock (s : Blockchain) : option Block :=
  BlockStore_get (blockStore s) (tip s).

End MoreBlocks.

(** A header whose fields fit the wire format: five unsigned 32-bit numbers
    and two hashes of 32 bytes. *)
Record valid_header (h : BlockHeader) (p m : bytes) : Prop := {
  valid_header_version : 0 <= header_version h < 2 ^ 32;
  valid_header_height : 0 <= header_height h < 2 ^ 32;
  valid_header_time : 0 <= header_time h < 2 ^ 32;
  valid_header_bits : 0 <= header_bits h < 2 ^ 32;
  valid_header_nonce : 0 <= header_nonce h < 2 ^ 32;
  valid_header_prevHash : header_prevHash h = Some p;
  valid_header_merkleRoot : header_merkleRoot h = Some m;
  valid_header_prevHash_length : List.length p = 32%nat;
  valid_header_merkleRoot_length : List.length m = 32%nat
}.

(** A header as a constructor leaves it: [timestamp] repeats [time], and the
    cache of the id is empty. *)
Definition constructed (h : BlockHeader) : BlockHeader :=
  {| header_version := header_version h;
     header_height := header_height h;
     header_time := header_time h;
     header_timestamp := Some (header_time h);
     header_bits := header_bits h;
     header_prevHash := header_prevHash h;
     header_merkleRoot := header_merkleRoot h;
     header_nonce := header_nonce h;
     header__id := None |}.

(** ** A small instance of the interface, and sample data *)

Fixpoint bytes_eqb (a b : bytes) : bool :=
  match a, b with
  | [], [] => true
  | x :: a', y :: b' => Byte.eqb x y && bytes_eqb a' b'
  | _, _ => false
  end.

(** Keys are one byte, the public key of a private key is the same byte, a
    signature is the key followed by the digest, and the hash keeps the first
    32 bytes of its input, padded with zeros. *)
Definition toy : Primitives :=
  {| PublicKey := byte;
     PrivateKey := byte;
     Signature := bytes;
     PublicKey_toBuffer := fun pk => [pk];
     PublicKey_fromBufferReader := fun r =>
       match r with
       | b :: r' => Returned (b, r')
       | [] => Threw "UnexpectedEOF"
       end;
     Signature_toBuffer := fun s => s;
     Signature_fromBuffer := fun b => Returned b;
     sha256sha256 := fun b => firstn 32 (b ++ repeat x00 32);
     toPublicKey := fun sk => sk;
     ECDSA_sign := fun sk digest => sk :: digest;
     ECDSA_verify := fun pk digest s => bytes_eqb s (pk :: digest) |}.

Definition hash_G : string :=
  "00000000000000000000000000000000000000000000000000000000000000a0".
Definition hash_A : string :=
  "00000000000000000000000000000000000000000000000000000000000000a1".
Definition hash_C : string :=
  "00000000000000000000000000000000000000000000000000000000000000c1".

(** A coinbase at [(px, py)] built by [new Transaction().at(px, py).to(pk)
    .colored(0x13371337)]. *)
Definition coinbase_at (px py : Z) : @Transaction toy :=
  @mkTransaction toy CURRENT_VERSION NULL_HASH
    {| pos_x := px; pos_y := py |} 322376503 (Some x02) None None.

(** A transfer of a pixel with a two-byte signature. *)
Definition signed_sample : @Transaction toy :=
  @mkTransaction toy CURRENT_VERSION
    {| ref := 7; data := repeat xab 32 |}
    {| pos_x := -1; pos_y := 5 |} 4278190335 (Some x03) (Some [x02; x01])
    None.

Definition block_G : @Block toy :=
  @Build_Block toy hash_G NULL 0 [coinbase_at 0 0].
Definition block_A : @Block toy :=
  @Build_Block toy hash_A hash_G 1 [coinbase_at 1 0].
Definition block_C : @Block toy :=
  @Build_Block toy hash_C hash_G 1 [coinbase_at 0 1].

(** The engine after [proposeNewBlock(block_G)]. *)
Definition chain_G : @Blockchain toy :=
  snd (proposeNewBlock 4 new_Blockchain block_G).

(** The engine after [proposeNewBlock(block_G)], [proposeNewBlock(block_A)]. *)
Definition chain_GA : @Blockchain toy :=
  snd (proposeNewBlock 4 chain_G block_A).

(** The engine after a further [proposeNewBlock(block_C)], a fork of equal
    work that is stored and not confirmed. *)
Definition chain_GAC : @Blockchain toy :=
  snd (proposeNewBlock 4 chain_GA block_C).

(** A block on top of [block_G] whose coinbase touches no mined pixel. *)
Definition hash_F : string :=
  "00000000000000000000000000000000000000000000000000000000000000f1".
Definition block_far : @Block toy :=
  @Build_Block toy hash_F hash_G 1 [coinbase_at 5 5].

(** A block on top of the fork [block_C] whose coinbase touches the pixel of
    [block_A]. *)
Definition hash_D : string :=
  "00000000000000000000000000000000000000000000000000000000000000d2".
Definition block_D : @Block toy :=
  @Build_Block toy hash_D hash_C 2 [coinbase_at 2 0].

(** A straight chain: block [n] mines the pixel [(n, 0)] on top of block
    [n - 1]. *)
Definition sample_hash (n : nat) : string := toHex (le_bytes 32 (Z.of_nat n)).
Definition sample_block (n : nat) : @Block toy :=
  @Build_Block toy (sample_hash (S n))
    (match n with O => NULL | S _ => sample_hash n end)
    (Z.of_nat n) [coinbase_at (Z.of_nat n) 0].
Definition sample_chain (n : nat) : @Blockchain toy :=
  fold_left (fun s i => snd (proposeNewBlock 4 s (sample_block i)))
    (seq 0 n) new_Blockchain.

(** The rest of the sample instance: the plain object of a key is the key,
    [new PublicKey(text)] reads one byte in hexadecimal, and [parseInt] reads
    a decimal number. *)
Definition toy_platform : Platform toy :=
  @Build_Platform toy byte
    (fun pk : byte => pk)
    (fun o : byte => @Returned byte o)
    (fun s =>
       match fromHex s with
       | Returned [b] => @Returned byte b
       | _ => Threw "Invalid DER format public key"
       end)
    (fun s =>
       match NilZero.int_of_string s with
       | Some i => Num (Z.of_int i)
       | None => NaN
       end).

(** [new Transaction().from(coinbase_at 0 0)] on the fresh heap: a transfer
    of the pixel [(0, 0)] that is not signed yet. *)
Definition spend_G : @Transaction toy :=
  @mkTransaction toy CURRENT_VERSION
    {| ref := 1; data := rev (getHash (coinbase_at 0 0)) |}
    {| pos_x := 0; pos_y := 0 |} 0 None None (Some (coinbase_at 0 0)).

(** [spend_G.sign(x02)], signed by the owner of the coinbase. *)
Definition spend_G_signed : @Transaction toy :=
  match sign spend_G (SignKey (x02 : @PrivateKey toy)) with
  | Returned t => t
  | _ => spend_G
  end.

(** A block on top of [block_G]: a coinbase next to the pixel [(0, 0)] and
    the transfer of that pixel. *)
Definition block_transfer : @Block toy :=
  @Build_Block toy hash_A hash_G 1 [coinbase_at 1 0; spend_G_signed].

(** A header with the numbers of the genesis block of [block.js], and a
    block around it. *)
Definition sample_header : BlockHeader :=
  mkBlockHeader 1 0 1433037823 None 504365055
    (Some (repeat x00 32)) (Some (repeat x11 32)) 586081 None.

Definition sample_instance : @BlockInstance toy :=
  @Build_BlockInstance toy sample_header [coinbase_at 0 0; signed_sample].

(** The second argument of the call [Block.fromCoinbase(genesisTx, {...})]
    of [block.js]. *)
Definition genesis_header_data : CreateData :=
  {| create_height := Some 0;
     create_prevHash := HashString NULL;
     create_time := Some 1433037823;
     create_nonce := Some 586081;
     create_bits := Some 504365055;
     create_merkleRoot := HashUndefined |}.

(** A block object without Merkle root, and what the constructor makes of
    it. *)
Definition sample_data : @BlockData toy toy_platform :=
  @Build_BlockData toy toy_platform
    {| data_version := 1; data_height := 0; data_time := 1433037823;
       data_bits := 504365055; data_prevHash := HashString NULL;
       data_merkleRoot := HashUndefined; data_nonce := 586081 |}
    [@TxInstance toy toy_platform signed_sample].

Definition sample_built : @BlockInstance toy * heap :=
  match @new_Block toy toy_platform (BlockArgObject sample_data) heap0 with
  | Returned r => r
  | _ => (sample_instance, heap0)
  end.

(** [sample_instance] after its [hash] has been read. *)
Definition sample_hashed : string * @BlockInstance toy :=
  match Block_hash sample_instance with
  | Returned r => r
  | _ => (EmptyString, sample_instance)
  end.

(** * Properties *)

(** ** Bytes, integers and hexadecimal text *)

Lemma Z_of_byte_range (b : byte) : 0 <= Z_of_byte b < 256.
Proof.
  unfold Z_of_byte. pose proof (Byte.to_N_bounded b). lia.
Qed.

Lemma Z_of_byte_of_Z (z : Z) : Z_of_byte (byte_of_Z z) = z mod 256.
Proof.
  unfold Z_of_byte, byte_of_Z.
  assert (Hr : 0 <= z mod 256 < 256) by (apply Z.mod_pos_bound; lia).
  destruct (Byte.of_N (Z.to_N (z mod 256))) as [b|] eqn:E.
  - apply Byte.to_of_N in E. rewrite E. lia.
  - apply Byte.of_N_None_iff in E. lia.
Qed.

Lemma byte_of_Z_of_byte (b : byte) : byte_of_Z (Z_of_byte b) = b.
Proof.
  unfold byte_of_Z, Z_of_byte.
  pose proof (Byte.to_N_bounded b) as Hb.
  rewrite Z.mod_small by lia.
  rewrite N2Z.id, Byte.of_to_N. reflexivity.
Qed.

Lemma length_le_bytes (k : nat) (n : Z) : List.length (le_bytes k n) = k.
Proof.
  revert n. induction k as [|k IH]; intros n; simpl; [reflexivity|].
  now rewrite IH.
Qed.

Lemma le_value_le_bytes (k : nat) (n : Z) :
  le_value (le_bytes k n) = n mod 2 ^ (8 * Z.of_nat k).
Proof.
  revert n. induction k as [|k IH]; intros n.
  - simpl. now rewrite Z.mod_1_r.
  - cbn [le_bytes le_value]. rewrite Z_of_byte_of_Z, IH.
    replace (8 * Z.of_nat (S k)) with (8 + 8 * Z.of_nat k) by lia.
    rewrite Z.pow_add_r by lia.
    change (2 ^ 8) with 256.
    rewrite Z.rem_mul_r by lia. reflexivity.
Qed.

Lemma le_value_u8 (n : Z) : 0 <= n < 2 ^ 8 -> le_value (le_bytes 1 n) = n.
Proof.
  intros H. rewrite le_value_le_bytes. apply Z.mod_small.
  change (2 ^ (8 * Z.of_nat 1)) with (2 ^ 8). lia.
Qed.

Lemma le_value_u32 (n : Z) : 0 <= n < 2 ^ 32 -> le_value (le_bytes 4 n) = n.
Proof.
  intros H. rewrite le_value_le_bytes. apply Z.mod_small.
  change (2 ^ (8 * Z.of_nat 4)) with (2 ^ 32). lia.
Qed.

(** The signed reading of the four bytes of a 32-bit integer. *)
Lemma le_value_i32 (n : Z) :
  - 2 ^ 31 <= n < 2 ^ 31 ->
  (if 2 ^ 31 <=? le_value (le_bytes 4 n)
   then le_value (le_bytes 4 n) - 2 ^ 32
   else le_value (le_bytes 4 n)) = n.
Proof.
  intros H. rewrite le_value_le_bytes.
  change (2 ^ (8 * Z.of_nat 4)) with (2 ^ 32).
  destruct (Z_lt_le_dec n 0) as [Hneg|Hpos].
  - replace (n mod 2 ^ 32) with (n + 2 ^ 32).
    + destruct (Z.leb_spec (2 ^ 31) (n + 2 ^ 32)); lia.
    + apply Z.mod_unique with (q := -1); lia.
  - rewrite Z.mod_small by lia.
    destruct (Z.leb_spec (2 ^ 31) n); lia.
Qed.

Lemma hex_byte (b : byte) :
  hex_value (hex_digit (Z_of_byte b / 16)) = Some (Z_of_byte b / 16)
  /\ hex_value (hex_digit (Z_of_byte b mod 16)) = Some (Z_of_byte b mod 16)
  /\ byte_of_Z (16 * (Z_of_byte b / 16) + Z_of_byte b mod 16) = b.
Proof.
  destruct b; vm_compute; auto.
Qed.

Lemma fromHex_toHex (bs : bytes) : fromHex (toHex bs) = Returned bs.
Proof.
  induction bs as [|b r IH]; [reflexivity|].
  cbn [toHex fromHex].
  destruct (hex_byte b) as (H1 & H2 & H3).
  rewrite H1, H2, IH. cbn [bindO]. now rewrite H3.
Qed.

Example le_bytes_minus_one : le_bytes 4 (-1) = [xff; xff; xff; xff].
Proof. reflexivity. Qed.

Example le_bytes_color : le_bytes 4 322376503 = [x37; x13; x37; x13].
Proof. reflexivity. Qed.

Example posToString_negative :
  posToString {| pos_x := -1; pos_y := 10 |} = "-1_10"%string.
Proof. reflexivity. Qed.

Example fromHex_odd : fromHex "abc" = Threw "Invalid hex string".
Proof. reflexivity. Qed.

(** ** Dictionaries *)

Section Dictionaries.
Context {V : Type}.

Lemma get_set_same (o : obj V) (k : string) (v : V) :
  get (set o k v) k = Some v.
Proof.
  induction o as [|[k' v'] r IH]; cbn [set get].
  - now rewrite String.eqb_refl.
  - destruct (String.eqb_spec k k') as [E|E]; cbn [get].
    + subst k'. now rewrite String.eqb_refl.
    + destruct (String.eqb_spec k k'); [congruence|exact IH].
Qed.

Lemma get_set_other (o : obj V) (k k' : string) (v : V) :
  k <> k' -> get (set o k v) k' = get o k'.
Proof.
  intros Hne. induction o as [|[k0 v0] r IH]; cbn [set get].
  - destruct (String.eqb_spec k' k); [congruence|reflexivity].
  - destruct (String.eqb_spec k k0) as [E|E]; cbn [get].
    + destruct (String.eqb_spec k' k0); [congruence|reflexivity].
    + now rewrite IH.
Qed.

Lemma get_delete_same (o : obj V) (k : string) : get (delete o k) k = None.
Proof.
  induction o as [|[k' v'] r IH]; cbn [delete get]; [reflexivity|].
  destruct (String.eqb_spec k k') as [E|E]; [exact IH|].
  cbn [get]. destruct (String.eqb_spec k k'); [congruence|exact IH].
Qed.

Lemma get_delete_other (o : obj V) (k k' : string) :
  k <> k' -> get (delete o k) k' = get o k'.
Proof.
  intros Hne. induction o as [|[k0 v0] r IH]; cbn [delete get];
    [reflexivity|].
  destruct (String.eqb_spec k k0) as [E|E].
  - subst k0. destruct (String.eqb_spec k' k); [congruence|exact IH].
  - cbn [get]. now rewrite IH.
Qed.

End Dictionaries.

(** ** The reader *)

Lemma firstn_skipn_prefix {A} (a r : list A) :
  firstn (List.length a) (a ++ r) = a /\ skipn (List.length a) (a ++ r) = r.
Proof.
  induction a as [|x a [IH1 IH2]]; simpl; [auto|].
  now rewrite IH1, IH2.
Qed.

Lemma read_app (a r : bytes) : read (List.length a) (a ++ r) = Returned (a, r).
Proof.
  unfold read. rewrite length_app.
  destruct (Nat.leb_spec (List.length a) (List.length a + List.length r));
    [|lia].
  destruct (firstn_skipn_prefix a r) as [E1 E2]. now rewrite E1, E2.
Qed.

Lemma readUInt8_le_bytes (n : Z) (r : bytes) :
  0 <= n < 2 ^ 8 -> readUInt8 (le_bytes 1 n ++ r) = Returned (n, r).
Proof.
  intros H. unfold readUInt8.
  pose proof (read_app (le_bytes 1 n) r) as E.
  rewrite length_le_bytes in E. rewrite E. cbn [bindO].
  now rewrite le_value_u8.
Qed.

Lemma readUInt32LE_le_bytes (n : Z) (r : bytes) :
  0 <= n < 2 ^ 32 -> readUInt32LE (le_bytes 4 n ++ r) = Returned (n, r).
Proof.
  intros H. unfold readUInt32LE.
  pose proof (read_app (le_bytes 4 n) r) as E.
  rewrite length_le_bytes in E. rewrite E. cbn [bindO].
  now rewrite le_value_u32.
Qed.

Lemma readInt32LE_le_bytes (n : Z) (r : bytes) :
  - 2 ^ 31 <= n < 2 ^ 31 -> readInt32LE (le_bytes 4 n ++ r) = Returned (n, r).
Proof.
  intros H. unfold readInt32LE.
  pose proof (read_app (le_bytes 4 n) r) as E.
  rewrite length_le_bytes in E. rewrite E. cbn [bindO].
  now rewrite le_value_i32.
Qed.

(** ** The transaction codec *)

Section TransactionCodec.
Context {P : Primitives}.

Lemma toBuffer_layout (t : Transaction) (pk : PublicKey) :
  owner t = Some pk -> toBuffer t = wire_layout t pk.
Proof.
  intros Ho.
  unfold toBuffer, toBufferWriter, wire_layout, signature_bytes.
  unfold write, writeUInt8, writeInt32LE, writeUInt32LE.
  rewrite Ho. destruct (signature t) as [s|]; cbn [app List.length];
    rewrite <- ?app_assoc, ?app_nil_r; reflexivity.
Qed.

(** The serialization is a function of the wire fields alone. *)
Lemma wire_layout_ext (t t' : Transaction) (pk : PublicKey) :
  version t' = version t -> data (input t') = data (input t) ->
  position t' = position t -> color t' = color t ->
  signature_bytes t' = signature_bytes t ->
  wire_layout t' pk = wire_layout t pk.
Proof.
  intros Hv Hi Hp Hc Hs. unfold wire_layout.
  now rewrite Hv, Hi, Hp, Hc, Hs.
Qed.

(** Reading the bytes of a valid transaction, up to the signature. *)
Lemma fromBufferReader_layout
  (Hpk : PublicKey_codec_ok P) (Hsig : Signature_codec_ok P)
  (t this : Transaction) (pk : PublicKey) (rest : bytes) (h : heap) :
  valid_transaction t pk ->
  fromBufferReader this (wire_layout t pk ++ rest) h
  = Returned
      ({| version := version t;
          input := {| ref := h; data := data (input t) |};
          position := position t; color := color t; owner := Some pk;
          signature :=
            match signature t with
            | Some s =>
                if List.length (Signature_toBuffer s) =? 0 then signature this
                else Some s
            | None => signature this
            end%nat;
          _previous := _previous this |}, rest, S h).
Proof.
  intros [Hv Hi Hx Hy Hc Ho Hs].
  unfold fromBufferReader, wire_layout.
  rewrite <- !app_assoc.
  replace (finished (le_bytes 1 (version t) ++ _)) with false by reflexivity.
  cbn [negb check bindO].
  rewrite readUInt8_le_bytes by assumption. cbn [bindO].
  rewrite <- Hi at 1. rewrite read_app. cbn [bindO alloc].
  rewrite readInt32LE_le_bytes by assumption. cbn [bindO].
  rewrite readInt32LE_le_bytes by assumption. cbn [bindO].
  rewrite readUInt32LE_le_bytes by assumption. cbn [bindO].
  rewrite Hpk. cbn [bindO].
  rewrite readUInt8_le_bytes by (change (2 ^ 8) with 256; lia). cbn [bindO].
  destruct (position t) as [px py]. cbn [pos_x pos_y].
  unfold signature_bytes in *.
  destruct (signature t) as [s|].
  - destruct (Nat.eqb_spec (List.length (Signature_toBuffer s)) 0) as [E|E].
    + rewrite E. cbn [Z.of_nat Z.eqb].
      destruct (Signature_toBuffer s); [|discriminate]. reflexivity.
    + destruct (Z.eqb_spec (Z.of_nat (List.length (Signature_toBuffer s))) 0)
        as [E'|E']; [lia|].
      rewrite Nat2Z.id, read_app. cbn [bindO]. rewrite Hsig. reflexivity.
  - reflexivity.
Qed.

(** C8. Decoding the serialization of a valid transaction gives back its
    wire fields, consumes exactly its bytes, and the decoded transaction
    serializes to the same bytes; the bytes follow the layout
    [u8 version | [32] input | i32 x | i32 y | u32 color | PublicKey owner |
    u8 sigLen | [sigLen] signature], a zero [sigLen] standing for no
    signature. The receiver [this] is a transaction object that has no
    signature yet, as the constructors make it. *)
Theorem transaction_codec_roundtrip
  (Hpk : PublicKey_codec_ok P) (Hsig : Signature_codec_ok P)
  (t this : Transaction) (pk : PublicKey) (rest : bytes) (h : heap) :
  valid_transaction t pk ->
  signature this = None ->
  toBuffer t = wire_layout t pk
  /\ exists t',
      fromBufferReader this (toBuffer t ++ rest) h = Returned (t', rest, S h)
      /\ toBuffer t' = toBuffer t
      /\ version t' = version t
      /\ data (input t') = data (input t)
      /\ position t' = position t
      /\ color t' = color t
      /\ owner t' = owner t
      /\ signature_bytes t' = signature_bytes t
      /\ (signature_bytes t <> [] -> signature t' = signature t).
Proof.
  intros Hvalid Hthis.
  pose proof (valid_owner _ _ Hvalid) as Ho.
  split; [now apply toBuffer_layout|].
  rewrite (toBuffer_layout t pk Ho).
  rewrite (fromBufferReader_layout Hpk Hsig t this pk rest h Hvalid).
  eexists. split; [reflexivity|].
  assert (Hs : signature_bytes
                 {| version := version t;
                    input := {| ref := h; data := data (input t) |};
                    position := position t; color := color t;
                    owner := Some pk;
                    signature :=
                      match signature t with
                      | Some s =>
                          if (List.length (Signature_toBuffer s) =? 0)%nat
                          then signature this else Some s
                      | None => signature this
                      end;
                    _previous := _previous this |} = signature_bytes t).
  { unfold signature_bytes. cbn [signature]. rewrite Hthis.
    destruct (signature t) as [s|]; [|reflexivity].
    destruct (Nat.eqb_spec (List.length (Signature_toBuffer s)) 0) as [E|E];
      [|reflexivity].
    destruct (Signature_toBuffer s); [reflexivity|discriminate]. }
  split.
  { rewrite (toBuffer_layout _ pk) by reflexivity.
    apply wire_layout_ext; auto. }
  repeat (split; [first [reflexivity | now symmetry | exact Hs]|]).
  cbn [signature]. unfold signature_bytes.
  destruct (signature t) as [s|]; [|congruence].
  intros Hne.
  destruct (Nat.eqb_spec (List.length (Signature_toBuffer s)) 0) as [E|E];
    [|reflexivity].
  destruct (Signature_toBuffer s); [congruence|discriminate].
Qed.

(** A decoded transaction holds a buffer of its own as input. *)
Lemma fromBufferReader_input_ref (this t : Transaction)
  (r r' : BufferReader) (h h' : heap) :
  fromBufferReader this r h = Returned (t, r', h') -> ref (input t) = h.
Proof.
  unfold fromBufferReader. intros H.
  repeat match type of H with
         | bindO ?o _ = Returned _ =>
             destruct o as [[? ?]| |] eqn:?; cbn [bindO alloc] in H;
             try discriminate H
         | bindO ?o _ = Returned _ =>
             destruct o as [?| |] eqn:?; cbn [bindO alloc] in H;
             try discriminate H
         | (if ?c then _ else _) = Returned _ => destruct c eqn:?
         end;
    inversion H; reflexivity.
Qed.

(** No transaction read from bytes is a coinbase for [isCoinbase], whatever
    its input bytes are: the buffer it holds is not the object [NULL_HASH]. *)
Lemma isCoinbase_decoded (this t : Transaction)
  (r r' : BufferReader) (h h' : heap) :
  (1 <= h)%nat ->
  fromBufferReader this r h = Returned (t, r', h') -> isCoinbase t = false.
Proof.
  intros Hh H. apply fromBufferReader_input_ref in H.
  unfold isCoinbase, buf_eq. rewrite H. cbn [ref NULL_HASH].
  apply Nat.eqb_neq. lia.
Qed.

(** ** The builder *)

Lemma from_Transaction_returns (this tx : Transaction) (h : heap) :
  from this (FromTransaction tx) h
  = Returned
      ({| version := version this;
          input := {| ref := h; data := rev (getHash tx) |};
          position := {| pos_x := pos_x (position tx);
                         pos_y := pos_y (position tx) |};
          color := color this; owner := owner this;
          signature := signature this; _previous := Some tx |}, S h).
Proof.
  unfold from, id. now rewrite fromHex_toHex.
Qed.

(** C10. [from] with a hexadecimal string sets the input to the bytes of the
    string and nothing else: the position is kept and no previous transaction
    is recorded, so that [at] still succeeds afterwards on a transaction that
    had no previous transaction; after [from] with a transaction object, which
    copies the position and records the transaction, [at] is rejected. *)
Theorem from_string_sets_only_input
  (this : Transaction) (s : string) (d : bytes) (h : heap) :
  fromHex s = Returned d ->
  exists t',
    from this (FromString s) h = Returned (t', S h)
    /\ data (input t') = d
    /\ version t' = version this
    /\ position t' = position this
    /\ color t' = color this
    /\ owner t' = owner this
    /\ signature t' = signature this
    /\ _previous t' = _previous this
    /\ (_previous this = None ->
        forall x y, exists t'',
          at_ t' (JNumber x) (JNumber y) = Returned t''
          /\ position t'' = {| pos_x := x; pos_y := y |}
          /\ input t'' = input t')
    /\ (forall tx h2 x y, exists t2 h2',
          from this (FromTransaction tx) h2 = Returned (t2, h2')
          /\ position t2 = {| pos_x := pos_x (position tx);
                              pos_y := pos_y (position tx) |}
          /\ _previous t2 = Some tx
          /\ at_ t2 x y
             = Threw "Can not set position if a previous transaction was set").
Proof.
  intros Hd. unfold from at 1. rewrite Hd. cbn [bindO alloc].
  eexists. split; [reflexivity|]. cbn [data input version position color owner
    signature _previous].
  repeat (split; [reflexivity|]).
  split.
  - intros Hp x y. unfold at_. cbn [_previous]. rewrite Hp. cbn.
    eexists. repeat split.
  - intros tx h2 x y. rewrite from_Transaction_returns.
    do 2 eexists. split; [reflexivity|]. repeat split.
Qed.

(** ** Signatures *)

Lemma sighash_applySignature (t : Transaction) (s : Signature) :
  sighash
    {| version := version t; input := input t; position := position t;
       color := color t; owner := owner t; signature := Some s;
       _previous := _previous t |} = sighash t.
Proof. reflexivity. Qed.

(** Signing a transaction whose recorded previous transaction is owned by
    the public key of [sk]. *)
Lemma sign_with_previous (Hecdsa : ECDSA_ok P)
  (t t0 : Transaction) (sk : PrivateKey) :
  _previous t = Some t0 ->
  owner t0 = Some (toPublicKey sk) ->
  let sg := ECDSA_sign sk (sighash t) in
  let t' :=
    {| version := version t; input := input t; position := position t;
       color := color t; owner := owner t; signature := Some sg;
       _previous := _previous t |} in
  sign t (SignKey sk) = Returned t'
  /\ isValidSignature t' (JSignature sg)
     = Returned (ECDSA_verify (toPublicKey sk) (sighash t') sg)
  /\ isValidSignature t' (JSignature sg) = Returned true
  /\ forall pk,
       isValidSignature t' (JPublicKey pk)
       = Threw "signature must be a Signature".
Proof.
  intros Hp Ho sg t'.
  assert (Hv : forall s, isValidSignature t' (JSignature s)
                         = Returned (ECDSA_verify (toPublicKey sk)
                                       (sighash t') s)).
  { intros s. unfold isValidSignature. subst t'. cbn [_previous].
    rewrite Hp, Ho. reflexivity. }
  split.
  - subst t' sg. unfold sign, applySignature, getSignature, Sighash_sign.
    cbn [check bindO]. unfold isValidSignature.
    rewrite Hp, Ho. unfold Sighash_verify.
    rewrite Hecdsa. cbn [check bindO]. reflexivity.
  - split; [apply Hv|]. split.
    + rewrite Hv. subst t' sg. rewrite sighash_applySignature.
      now rewrite Hecdsa.
    + intros pk. unfold isValidSignature. subst t'. cbn [_previous].
      rewrite Hp, Ho. reflexivity.
Qed.

(** C3, as the code has it. For a transaction [t] made by [from(t0)] on a
    transaction [t0] owned by the public key of [sk], [t.sign(sk)] succeeds
    and stores the signature of the sighash digest, and [isValidSignature],
    which takes that signature and verifies it against the owner of the
    recorded previous transaction, returns true; handed a public key it
    throws. *)
Theorem sign_then_isValidSignature (Hecdsa : ECDSA_ok P)
  (this t0 : Transaction) (sk : PrivateKey) (h : heap) :
  owner t0 = Some (toPublicKey sk) ->
  exists t h' t',
    from this (FromTransaction t0) h = Returned (t, h')
    /\ sign t (SignKey sk) = Returned t'
    /\ signature t' = Some (ECDSA_sign sk (sighash t))
    /\ isValidSignature t' (JSignature (ECDSA_sign sk (sighash t)))
       = Returned (ECDSA_verify (toPublicKey sk) (sighash t')
                     (ECDSA_sign sk (sighash t)))
    /\ isValidSignature t' (JSignature (ECDSA_sign sk (sighash t)))
       = Returned true
    /\ forall pk,
         isValidSignature t' (JPublicKey pk)
         = Threw "signature must be a Signature".
Proof.
  intros Ho. rewrite from_Transaction_returns.
  do 3 eexists. split; [reflexivity|].
  match goal with
  | |- sign ?t _ = _ /\ _ =>
      destruct (sign_with_previous Hecdsa t t0 sk eq_refl Ho)
        as (Hs & Hv & Ht & Hk)
  end.
  split; [exact Hs|]. split; [reflexivity|].
  split; [exact Hv|]. split; [exact Ht|exact Hk].
Qed.

End TransactionCodec.

(** ** The Merkle tree of a block *)

Section Merkle.
Context {P : Primitives}.

(** [Math.floor((size + 1) / 2)]: the facts that [lia] needs about it. *)
Ltac half_up size :=
  pose proof (Nat.div_mod_eq (size + 1) 2);
  pose proof (Nat.mod_upper_bound (size + 1) 2);
  lia.

Lemma half_up_lt (k size : nat) :
  (2 * k < size <-> k < (size + 1) / 2)%nat.
Proof. half_up size. Qed.

Lemma half_up_smaller (size : nat) :
  (2 <= size -> (size + 1) / 2 < size)%nat.
Proof. half_up size. Qed.

Lemma half_up_positive (size : nat) :
  (1 <= size -> (size + 1) / 2 <> 0)%nat.
Proof. half_up size. Qed.

Lemma firstn_succ_nth {A} (l : list A) (k : nat) (d : A) :
  (k < List.length l)%nat -> firstn (S k) l = firstn k l ++ [nth k l d].
Proof.
  revert k. induction l as [|a l IH]; intros k Hk; simpl in Hk; [lia|].
  destruct k as [|k]; [reflexivity|].
  cbn [firstn nth app]. f_equal. apply IH. lia.
Qed.

Lemma nth_error_middle {A} (pre level post : list A) (i : nat) (d : A) :
  (i < List.length level)%nat ->
  nth_error (pre ++ level ++ post) (List.length pre + i)
  = Some (nth i level d).
Proof.
  intros Hi. rewrite nth_error_app2 by lia.
  replace (List.length pre + i - List.length pre)%nat with i by lia.
  rewrite nth_error_app1 by assumption.
  now apply nth_error_nth'.
Qed.

Lemma length_merkle_parents (nodes : list bytes) :
  List.length (merkle_parents nodes) = ((List.length nodes + 1) / 2)%nat.
Proof. unfold merkle_parents. now rewrite length_map, length_seq. Qed.

Lemma nth_merkle_parents (nodes : list bytes) (k : nat) :
  (k < (List.length nodes + 1) / 2)%nat ->
  nth k (merkle_parents nodes) []
  = sha256sha256
      (nth (2 * k) nodes []
       ++ nth (Nat.min (2 * k + 1) (List.length nodes - 1)) nodes []).
Proof.
  intros Hk. unfold merkle_parents.
  set (f := fun i : nat => sha256sha256 _).
  rewrite (nth_indep _ [] (f O)) by now rewrite length_map, length_seq.
  rewrite map_nth, seq_nth by assumption. reflexivity.
Qed.

(** The inner loop appends the parents of the level that starts at [j]. *)
Lemma getMerkleTree_pairs_spec (pre level : list bytes) :
  forall (n k fuel : nat),
    (n + k = (List.length level + 1) / 2)%nat ->
    (n < fuel)%nat ->
    getMerkleTree_pairs fuel
      (pre ++ level ++ firstn k (merkle_parents level))
      (List.length pre) (List.length level) (2 * k)
    = Returned (pre ++ level ++ merkle_parents level).
Proof.
  induction n as [|n IH]; intros k fuel Hk Hfuel;
    (destruct fuel as [|fuel]; [lia|]); cbn [getMerkleTree_pairs].
  - destruct (Nat.ltb_spec (2 * k) (List.length level)) as [Hlt|Hge].
    + apply half_up_lt in Hlt. lia.
    + rewrite firstn_all2 by (rewrite length_merkle_parents; lia).
      reflexivity.
  - destruct (Nat.ltb_spec (2 * k) (List.length level)) as [Hlt|Hge].
    2:{ assert (Hk' : (k < (List.length level + 1) / 2)%nat) by lia.
        apply half_up_lt in Hk'. lia. }
    rewrite (nth_error_middle pre level _ (2 * k) []) by assumption.
    rewrite (nth_error_middle pre level _
               (Nat.min (2 * k + 1) (List.length level - 1)) []) by lia.
    cbn [Buffer_concat bindO].
    rewrite <- nth_merkle_parents by lia.
    rewrite <- !app_assoc.
    rewrite <- (firstn_succ_nth (merkle_parents level) k [])
      by (rewrite length_merkle_parents; lia).
    replace (2 * k + 2)%nat with (2 * S k)%nat by lia.
    apply IH; lia.
Qed.

(** Three leaves: the last one is paired with itself. *)
Example merkle_root_three (a b c : bytes) :
  merkle_root_spec [a; b; c]
  = sha256sha256 (sha256sha256 (a ++ b) ++ sha256sha256 (c ++ c)).
Proof. reflexivity. Qed.

Lemma merkle_reduce_fuel (f1 : nat) :
  forall (f2 : nat) (nodes : list bytes),
    (List.length nodes <= f1)%nat -> (List.length nodes <= f2)%nat ->
    merkle_reduce f1 nodes = merkle_reduce f2 nodes.
Proof.
  induction f1 as [|f1 IH]; intros f2 nodes H1 H2.
  - destruct nodes; [|simpl in H1; lia].
    destruct f2; reflexivity.
  - destruct f2 as [|f2].
    + destruct nodes; [reflexivity|simpl in H2; lia].
    + cbn [merkle_reduce].
      destruct (Nat.leb_spec (List.length nodes) 1) as [Hle|Hgt];
        [reflexivity|].
      pose proof (half_up_smaller (List.length nodes) Hgt).
      apply IH; rewrite length_merkle_parents; lia.
Qed.

(** The reduction ends with exactly one node. *)
Lemma length_merkle_reduce (fuel : nat) :
  forall nodes : list bytes,
    nodes <> [] -> (List.length nodes <= fuel)%nat ->
    List.length (merkle_reduce fuel nodes) = 1%nat.
Proof.
  induction fuel as [|fuel IH]; intros nodes Hne Hlen.
  - destruct nodes; [congruence|simpl in Hlen; lia].
  - cbn [merkle_reduce].
    destruct (Nat.leb_spec (List.length nodes) 1) as [Hle|Hgt].
    + destruct nodes; [congruence|simpl in *; lia].
    + pose proof (half_up_smaller (List.length nodes) Hgt).
      apply IH.
      * intros E. apply (f_equal (@List.length bytes)) in E.
        rewrite length_merkle_parents in E. cbn [List.length] in E.
        apply (half_up_positive (List.length nodes)); [lia|exact E].
      * rewrite length_merkle_parents. lia.
Qed.

(** The outer loop ends on the root of the level-by-level reduction. *)
Lemma getMerkleTree_levels_spec (fuel : nat) :
  forall pre level : list bytes,
    level <> [] -> (List.length level < fuel)%nat ->
    exists tree,
      getMerkleTree_levels fuel (pre ++ level) (List.length pre)
        (List.length level) = Returned tree
      /\ tree <> []
      /\ last tree [] = last (merkle_reduce (List.length level) level) [].
Proof.
  induction fuel as [|fuel IH]; intros pre level Hne Hfuel; [lia|].
  cbn [getMerkleTree_levels].
  destruct (Nat.ltb_spec 1 (List.length level)) as [Hgt|Hle].
  - pose proof (getMerkleTree_pairs_spec pre level
                  ((List.length level + 1) / 2) 0
                  (S (List.length level))) as Hin.
    cbn [firstn] in Hin. rewrite app_nil_r in Hin.
    pose proof (half_up_smaller (List.length level) Hgt) as Hhalf.
    change (2 * 0)%nat with 0%nat in Hin.
    rewrite Hin by lia. cbn [bindO].
    destruct (IH (pre ++ level) (merkle_parents level)) as (tree & E & Ht & Hl).
    + intros E. apply (f_equal (@List.length bytes)) in E.
      rewrite length_merkle_parents in E. cbn [List.length] in E.
      apply (half_up_positive (List.length level)); [lia|exact E].
    + rewrite length_merkle_parents. lia.
    + exists tree. rewrite length_app, length_merkle_parents in E.
      rewrite <- app_assoc in E. rewrite E.
      split; [reflexivity|]. split; [assumption|].
      rewrite Hl.
      destruct (List.length level) as [|m] eqn:Em; [lia|].
      cbn [merkle_reduce]. rewrite Em.
      destruct (Nat.leb_spec (S m) 1) as [Hle|_]; [lia|].
      f_equal. apply merkle_reduce_fuel; rewrite length_merkle_parents, Em;
        lia.
  - exists (pre ++ level). split; [reflexivity|].
    split; [destruct pre; destruct level; simpl; congruence|].
    destruct level as [|a [|b level]]; [congruence| |simpl in Hle; lia].
    cbn. now rewrite last_last.
Qed.

Lemma nth_error_last {A} (l : list A) (d : A) :
  l <> [] -> nth_error l (List.length l - 1) = Some (last l d).
Proof.
  intros Hne. destruct (exists_last Hne) as (l' & a & ->).
  rewrite length_app, last_last. cbn [List.length].
  rewrite nth_error_app2 by lia.
  replace (List.length l' + 1 - 1 - List.length l')%nat with 0%nat by lia.
  reflexivity.
Qed.

(** C7. [getMerkleRoot] returns the Merkle root of the hashes of the
    transactions of the block: 32 zero bytes for a block without
    transactions, and otherwise the single node left when every level of [n]
    nodes has been replaced by its [ceil(n/2)] parents, parent [i] hashing
    node [2i] followed by node [min(2i+1, n-1)]. *)
Theorem getMerkleRoot_spec (b : Block) :
  getMerkleRoot b = Returned (merkle_root_spec (map getHash (transactions b))).
Proof.
  unfold getMerkleRoot, getMerkleTree, getTransactionHashes.
  destruct (transactions b) as [|tx txs] eqn:Etx.
  - reflexivity.
  - change (List.length (tx :: txs) =? 0)%nat with false. cbv iota.
    set (hashes := map getHash (tx :: txs)).
    assert (Hlen : List.length hashes = List.length (tx :: txs))
      by apply length_map.
    rewrite <- Hlen.
    destruct (getMerkleTree_levels_spec (S (List.length hashes)) [] hashes)
      as (tree & E & Hne & Hl); [discriminate|lia|].
    cbn [app List.length] in E. rewrite E. cbn [bindO].
    rewrite (nth_error_last tree []) by assumption.
    rewrite Hl. reflexivity.
Qed.

End Merkle.

(** ** The block locator *)

Section Locator.
Context {P : Primitives}.
Variable s : Blockchain.

Lemma recent_heights_negative (n : nat) (H : Z) :
  H < 0 -> recent_heights n H = [].
Proof.
  intros HH. unfold recent_heights.
  induction (seq 0 n) as [|i l IH]; [reflexivity|].
  cbn [map filter]. destruct (Z.leb_spec 0 (H - Z.of_nat i)); [lia|exact IH].
Qed.

Lemma recent_heights_step (n : nat) (H : Z) :
  0 <= H -> recent_heights (S n) H = H :: recent_heights n (H - 1).
Proof.
  intros HH. unfold recent_heights.
  cbn [seq map filter]. rewrite Z.sub_0_r.
  destruct (Z.leb_spec 0 H); [|lia].
  f_equal. rewrite <- seq_shift, map_map. f_equal.
  apply map_ext. intros i. lia.
Qed.

Lemma getBlockLocator_recent_spec (n : nat) :
  forall (cur : Z) (res : list (option string)),
    getBlockLocator_recent n s cur res
    = (res ++ map (hashAt s) (recent_heights n cur),
       if cur <? 0 then cur else Z.max (cur - Z.of_nat n) (-1)).
Proof.
  induction n as [|n IH]; intros cur res.
  - cbn [getBlockLocator_recent]. unfold recent_heights. cbn [seq map filter].
    rewrite app_nil_r. f_equal. destruct (Z.ltb_spec cur 0); lia.
  - cbn [getBlockLocator_recent].
    destruct (Z.leb_spec 0 cur) as [Hpos|Hneg].
    + rewrite IH, recent_heights_step by assumption.
      cbn [map]. rewrite <- app_assoc. cbn [app]. f_equal.
      destruct (Z.ltb_spec cur 0); [lia|].
      destruct (Z.ltb_spec (cur - 1) 0); lia.
    + rewrite IH, !recent_heights_negative by assumption.
      f_equal. destruct (Z.ltb_spec cur 0); lia.
Qed.

Lemma backoff_height_succ (start : Z) (k : nat) :
  backoff_height start (S k)
  = backoff_height start k - 2 ^ Z.of_nat k.
Proof.
  unfold backoff_height. rewrite Nat2Z.inj_succ, Z.pow_succ_r by lia. lia.
Qed.

(** The back-off heights above zero are exactly the first
    [backoff_count start] ones. *)
Lemma backoff_height_positive (start : Z) (k : nat) :
  0 < backoff_height start k <-> (k < backoff_count start)%nat.
Proof.
  unfold backoff_height, backoff_count.
  assert (Hpow : 0 < 2 ^ Z.of_nat k) by (apply Z.pow_pos_nonneg; lia).
  destruct (Z.ltb_spec 0 start) as [Hpos|Hneg].
  - pose proof (Z.log2_le_pow2 start (Z.of_nat k) Hpos) as Hlog.
    pose proof (Z.log2_nonneg start) as Hnn. split; intros Hk.
    + assert (Z.of_nat k <= Z.log2 start) by (apply Hlog; lia). lia.
    + assert (2 ^ Z.of_nat k <= start) by (apply Hlog; lia). lia.
  - split; intros Hk; lia.
Qed.

Lemma getBlockLocator_backOff_spec (start : Z) (fuel : nat) :
  forall (k : nat) (res : list (option string)),
    (Z.to_nat (backoff_height start k) < fuel)%nat ->
    (k <= backoff_count start)%nat ->
    getBlockLocator_backOff fuel s (backoff_height start k)
      (2 ^ Z.of_nat k) res
    = Returned
        (res ++ map (hashAt s)
                  (map (backoff_height start)
                     (seq k (backoff_count start - k)))).
Proof.
  induction fuel as [|fuel IH]; intros k res Hfuel Hk; [lia|].
  cbn [getBlockLocator_backOff].
  destruct (Z.ltb_spec 0 (backoff_height start k)) as [Hpos|Hneg].
  - assert (Hlt : (k < backoff_count start)%nat)
      by now apply backoff_height_positive.
    assert (Hpow : 0 < 2 ^ Z.of_nat k) by (apply Z.pow_pos_nonneg; lia).
    replace (2 ^ Z.of_nat k * 2) with (2 ^ Z.of_nat (S k))
      by (rewrite Nat2Z.inj_succ, Z.pow_succ_r by lia; lia).
    rewrite <- backoff_height_succ.
    rewrite IH.
    + replace (backoff_count start - k)%nat
        with (S (backoff_count start - S k)) by lia.
      cbn [seq map]. rewrite <- app_assoc. reflexivity.
    + rewrite backoff_height_succ. lia.
    + lia.
  - assert (Hge : ~ (k < backoff_count start)%nat).
    { intros Hlt. apply backoff_height_positive in Hlt. lia. }
    replace (backoff_count start - k)%nat with O by lia.
    cbn [seq map]. now rewrite app_nil_r.
Qed.

Example locator_heights_40 :
  locator_heights 40
  = [40; 39; 38; 37; 36; 35; 34; 33; 32; 31; 30; 29; 27; 23; 15].
Proof. reflexivity. Qed.

Example locator_heights_10 :
  locator_heights 10 = [10; 9; 8; 7; 6; 5; 4; 3; 2; 1].
Proof. reflexivity. Qed.

Lemma backoff_heights_nonpositive (start : Z) :
  start <= 0 -> backoff_heights start = [].
Proof.
  intros H. unfold backoff_heights, backoff_count.
  destruct (Z.ltb_spec 0 start); [lia|reflexivity].
Qed.

(** C6. With a tip at height [H], [getBlockLocator] returns the hashes at
    the heights [H], [H-1], ..., [H-9] that are not negative, followed by the
    hashes at [H-10], [H-11], [H-13], [H-17], ...: gaps 1, 2, 4, 8, ...,
    for as long as the height is above zero. *)
Theorem getBlockLocator_spec (t : string) (H : Z) :
  tip s = Some t ->
  t <> ""%string ->
  get (height s) t = Some (Num H) ->
  getBlockLocator s = Returned (map (hashAt s) (locator_heights H))
  /\ recent_heights 10 H
     = filter (fun h => 0 <=? h)
         [H; H - 1; H - 2; H - 3; H - 4; H - 5; H - 6; H - 7; H - 8; H - 9]
  /\ (forall k : nat,
        In (backoff_height (H - 10) k) (backoff_heights (H - 10))
        <-> 0 < backoff_height (H - 10) k)
  /\ backoff_height (H - 10) 0 = H - 10
  /\ (forall k : nat,
        backoff_height (H - 10) k - backoff_height (H - 10) (S k)
        = 2 ^ Z.of_nat k).
Proof.
  intros Htip Hne Hheight.
  split; [|split; [|split; [|split]]].
  - unfold getBlockLocator, getCurrentHeight.
    rewrite Htip. cbn [str_truthy key].
    destruct (String.eqb_spec t "") as [E|_]; [congruence|].
    rewrite Hheight. cbn [negb check bindO isUndefined].
    rewrite getBlockLocator_recent_spec. cbn [app].
    set (cur := if H <? 0 then H else Z.max (H - Z.of_nat 10) (-1)).
    assert (Hcur : cur = H - 10 \/ (cur <= 0 /\ H - 10 <= 0)).
    { subst cur. destruct (Z.ltb_spec H 0); lia. }
    unfold locator_heights. rewrite map_app.
    destruct Hcur as [-> | [Hc Hh]].
    + pose proof (getBlockLocator_backOff_spec (H - 10)
                    (S (Z.to_nat (H - 10))) 0
                    (map (hashAt s) (recent_heights 10 H))) as Hb.
      unfold backoff_height at 1 2 in Hb.
      change (2 ^ Z.of_nat 0) with 1 in Hb.
      replace (H - 10 - (1 - 1)) with (H - 10) in Hb by lia.
      rewrite Hb by lia. rewrite Nat.sub_0_r. reflexivity.
    + rewrite (backoff_heights_nonpositive (H - 10)) by assumption.
      cbn [getBlockLocator_backOff map].
      destruct (Z.ltb_spec 0 cur); [lia|]. now rewrite app_nil_r.
  - unfold recent_heights. cbn [seq map Z.of_nat].
    now rewrite Z.sub_0_r.
  - intros k. rewrite backoff_height_positive.
    unfold backoff_heights. rewrite in_map_iff. split.
    + intros (j & Ej & Hj). apply in_seq in Hj.
      unfold backoff_height in Ej.
      assert (j = k); [|lia].
      apply Nat2Z.inj. apply (Z.pow_inj_r 2); lia.
    + intros Hk. exists k. split; [reflexivity|]. apply in_seq. lia.
  - unfold backoff_height. change (2 ^ Z.of_nat 0) with 1. lia.
  - intros k. rewrite backoff_height_succ. lia.
Qed.

End Locator.

(** ** The engine: confirm, unconfirm and proposals *)

Section Engine.
Context {P : Primitives}.

(** [unconfirm] never writes to the pixel map. *)
Lemma unconfirm_pixels (s : Blockchain) (arg : unconfirmArg) :
  pixels (snd (unconfirm s arg)) = pixels s.
Proof.
  destruct arg as [hash|b]; [|reflexivity].
  unfold unconfirm. destruct (str_eq hash (tip s)); reflexivity.
Qed.

(** The pixels a confirmed block writes. *)
Lemma confirm_pixels (s s' : Blockchain) (b : Block) :
  confirm s b = (Returned tt, s') ->
  pixels s'
  = pixels
      (fold_left
         (fun s tx =>
            with_pixels s (set (pixels s) (posToString (position tx)) tx))
         (transactions b) s).
Proof.
  unfold confirm.
  destruct (negb (negb (str_eq (get (prev s) (block_hash b)) (Some NULL))
                  || str_eq (get (prev s) (block_hash b)) (tip s)));
    [discriminate|].
  intros E. inversion E; subst; clear E.
  generalize (transactions b). intros txs.
  set (f := fun s0 tx =>
              with_pixels s0 (set (pixels s0) (posToString (position tx)) tx)).
  assert (Hgen : forall s1 s2, pixels s1 = pixels s2 ->
                   pixels (fold_left f txs s1) = pixels (fold_left f txs s2)).
  { induction txs as [|tx txs IH]; intros s1 s2 E; [exact E|].
    cbn [fold_left]. apply IH. unfold f. cbn [pixels with_pixels].
    now rewrite E. }
  apply Hgen. reflexivity.
Qed.

(** The check of [confirm] passes for every block whose recorded parent is
    not [NULL], whatever the tip is. *)
Lemma confirm_parent_not_NULL (s : Blockchain) (b : Block) :
  str_eq (get (prev s) (block_hash b)) (Some NULL) = false ->
  fst (confirm s b) = Returned tt
  /\ tip (snd (confirm s b)) = Some (block_hash b).
Proof.
  intros H. unfold confirm. rewrite H. cbn [negb orb fst snd].
  split; [reflexivity|].
  generalize (transactions b). intros txs.
  match goal with
  | |- tip (fold_left ?f txs ?s0) = _ =>
      assert (Hgen : forall s1, tip (fold_left f txs s1) = tip s1)
  end.
  { induction txs as [|tx txs IH]; intros s1; [reflexivity|].
    cbn [fold_left]. now rewrite IH. }
  now rewrite Hgen.
Qed.

(** It fails, and leaves the engine as it was, only for a block whose
    recorded parent is [NULL] while the tip is another hash. *)
Lemma confirm_parent_NULL (s : Blockchain) (b : Block) :
  get (prev s) (block_hash b) = Some NULL ->
  tip s <> Some NULL ->
  confirm s b = (Threw "Attempting to confirm a non-contiguous block.", s).
Proof.
  intros H Ht. unfold confirm. rewrite H.
  replace (str_eq (Some NULL) (Some NULL)) with true by reflexivity.
  cbn [negb orb].
  destruct (tip s) as [t|]; cbn [str_eq]; [|reflexivity].
  destruct (String.eqb_spec NULL t) as [E|_]; [congruence|reflexivity].
Qed.

(** After [confirm], the pixel of the last transaction of the block holds
    that transaction. *)
Lemma confirm_sets_last_pixel (s s' : Blockchain) (b : Block)
  (txs : list Transaction) (tx : Transaction) :
  transactions b = txs ++ [tx] ->
  confirm s b = (Returned tt, s') ->
  get (pixels s') (posToString (position tx)) = Some tx.
Proof.
  intros Htx Hc. rewrite (confirm_pixels s s' b Hc), Htx.
  rewrite fold_left_app. cbn [fold_left pixels with_pixels].
  apply get_set_same.
Qed.

(** Hence a pixel mined by a block is still in the map after any
    [unconfirm]: the map of before the [confirm] does not come back. *)
Lemma confirm_unconfirm_pixels_differ (s s' : Blockchain) (b : Block)
  (txs : list Transaction) (tx : Transaction) (arg : unconfirmArg) :
  transactions b = txs ++ [tx] ->
  get (pixels s) (posToString (position tx)) = None ->
  confirm s b = (Returned tt, s') ->
  pixels (snd (unconfirm s' arg)) <> pixels s.
Proof.
  intros Htx Hfree Hc E. rewrite unconfirm_pixels in E.
  pose proof (confirm_sets_last_pixel s s' b txs tx Htx Hc) as Hset.
  rewrite E in Hset. congruence.
Qed.

(** [prune] writes to [prev] and [work] only. *)
Lemma prune_visit_frame (s : Blockchain) (k : string) :
  tip (prune_visit s k) = tip s
  /\ height (prune_visit s k) = height s
  /\ hashByHeight (prune_visit s k) = hashByHeight s
  /\ next (prune_visit s k) = next s
  /\ pixels (prune_visit s k) = pixels s.
Proof.
  unfold prune_visit.
  destruct (match get (height s) (key (get (prev s) k)) with
            | Some n => negb (num_truthy n)
            | None => true
            end); repeat split.
Qed.

Lemma prune_frame (s : Blockchain) :
  tip (prune s) = tip s
  /\ height (prune s) = height s
  /\ hashByHeight (prune s) = hashByHeight s
  /\ next (prune s) = next s
  /\ pixels (prune s) = pixels s.
Proof.
  unfold prune. generalize (keys (prev s)). intros ks. revert s.
  induction ks as [|k ks IH]; intros s; [repeat split|].
  cbn [fold_left].
  destruct (IH (prune_visit s k)) as (H1 & H2 & H3 & H4 & H5).
  destruct (prune_visit_frame s k) as (G1 & G2 & G3 & G4 & G5).
  rewrite H1, H2, H3, H4, H5. repeat split; assumption.
Qed.

(** Visiting a block whose parent is at height 0 deletes the entries of the
    parent. *)
Lemma prune_visit_height_zero (s : Blockchain) (k parent : string) :
  get (prev s) k = Some parent ->
  get (height s) parent = Some (Num 0) ->
  get (prev (prune_visit s k)) parent = None
  /\ get (work (prune_visit s k)) parent = None.
Proof.
  intros Hp Hh. unfold prune_visit. rewrite Hp. cbn [key]. rewrite Hh.
  cbn [num_truthy Z.eqb negb prev work with_prev with_work].
  split; apply get_delete_same.
Qed.

(** Visiting a block whose parent has a height other than 0 changes
    nothing. *)
Lemma prune_visit_height_other (s : Blockchain) (k parent : string) (n : Z) :
  get (prev s) k = Some parent ->
  get (height s) parent = Some (Num n) ->
  n <> 0 ->
  prune_visit s k = s.
Proof.
  intros Hp Hh Hn. unfold prune_visit. rewrite Hp. cbn [key]. rewrite Hh.
  cbn [num_truthy]. destruct (Z.eqb_spec n 0); [congruence|reflexivity].
Qed.

(** C9. A block that [isValidBlock] refuses makes [proposeNewBlock] throw
    before anything is written: the stores, [work], [prev], [height],
    [next], [hashByHeight], [tip] and [pixels] are those of before. *)
Theorem proposeNewBlock_rejects_invalid
  (fuel : nat) (s : Blockchain) (block : Block) :
  isValidBlock s block = false ->
  proposeNewBlock fuel s block = (Threw "Invalid Argument", s)
  /\ let s' := snd (proposeNewBlock fuel s block) in
     blockStore s' = blockStore s /\ txStore s' = txStore s
     /\ work s' = work s /\ prev s' = prev s /\ height s' = height s
     /\ next s' = next s /\ hashByHeight s' = hashByHeight s
     /\ tip s' = tip s /\ pixels s' = pixels s.
Proof.
  intros H. unfold proposeNewBlock. rewrite H. cbn [negb snd].
  repeat split.
Qed.

End Engine.

(** ** The sample instance satisfies the laws *)

Lemma bytes_eqb_refl (a : bytes) : bytes_eqb a a = true.
Proof.
  induction a as [|x a IH]; [reflexivity|].
  cbn [bytes_eqb]. rewrite IH.
  destruct (Byte.eqb x x) eqn:E; [reflexivity|].
  apply Byte.eqb_false in E. congruence.
Qed.

Lemma toy_PublicKey_codec_ok : PublicKey_codec_ok toy.
Proof. intros pk rest. reflexivity. Qed.

Lemma toy_Signature_codec_ok : Signature_codec_ok toy.
Proof. intros s. reflexivity. Qed.

Lemma toy_ECDSA_ok : ECDSA_ok toy.
Proof. intros sk digest. apply (bytes_eqb_refl (sk :: digest)). Qed.

(** ** The properties on the sample data *)

Lemma transaction_codec_roundtrip_witness :
  toBuffer signed_sample = wire_layout signed_sample x03
  /\ exists t',
      fromBufferReader _newTransaction (toBuffer signed_sample ++ [x99]) heap0
      = Returned (t', [x99], S heap0)
      /\ toBuffer t' = toBuffer signed_sample
      /\ version t' = version signed_sample
      /\ data (input t') = data (input signed_sample)
      /\ position t' = position signed_sample
      /\ color t' = color signed_sample
      /\ owner t' = owner signed_sample
      /\ signature_bytes t' = signature_bytes signed_sample
      /\ (signature_bytes signed_sample <> [] ->
          signature t' = signature signed_sample).
Proof.
  apply (@transaction_codec_roundtrip toy toy_PublicKey_codec_ok
           toy_Signature_codec_ok signed_sample _newTransaction x03 [x99]
           heap0).
  - constructor.
    + change (0 <= 1 < 2 ^ 8). lia.
    + reflexivity.
    + change (- 2 ^ 31 <= -1 < 2 ^ 31). lia.
    + change (- 2 ^ 31 <= 5 < 2 ^ 31). lia.
    + change (0 <= 4278190335 < 2 ^ 32). lia.
    + reflexivity.
    + change (2 <= 255)%nat. lia.
  - reflexivity.
Defined.

Lemma from_string_sets_only_input_witness :
  exists t',
    from (@_newTransaction toy) (FromString "00ff1A") heap0
    = Returned (t', S heap0)
    /\ data (input t') = [x00; xff; x1a]
    /\ version t' = version (@_newTransaction toy)
    /\ position t' = position (@_newTransaction toy)
    /\ color t' = color (@_newTransaction toy)
    /\ owner t' = owner (@_newTransaction toy)
    /\ signature t' = signature (@_newTransaction toy)
    /\ _previous t' = _previous (@_newTransaction toy)
    /\ (_previous (@_newTransaction toy) = None ->
        forall x y, exists t'',
          at_ t' (JNumber x) (JNumber y) = Returned t''
          /\ position t'' = {| pos_x := x; pos_y := y |}
          /\ input t'' = input t')
    /\ (forall tx h2 x y, exists t2 h2',
          from (@_newTransaction toy) (FromTransaction tx) h2
          = Returned (t2, h2')
          /\ position t2 = {| pos_x := pos_x (position tx);
                              pos_y := pos_y (position tx) |}
          /\ _previous t2 = Some tx
          /\ at_ t2 x y
             = Threw "Can not set position if a previous transaction was set").
Proof.
  apply (@from_string_sets_only_input toy _newTransaction "00ff1A"
           [x00; xff; x1a] heap0).
  reflexivity.
Defined.

Lemma sign_then_isValidSignature_witness :
  exists t h' t',
    from (@_newTransaction toy) (FromTransaction (coinbase_at 0 0)) heap0
    = Returned (t, h')
    /\ sign t (SignKey (x02 : @PrivateKey toy)) = Returned t'
    /\ signature t' = Some (@ECDSA_sign toy x02 (sighash t))
    /\ isValidSignature t' (JSignature (@ECDSA_sign toy x02 (sighash t)))
       = Returned (@ECDSA_verify toy (@toPublicKey toy x02) (sighash t')
                     (@ECDSA_sign toy x02 (sighash t)))
    /\ isValidSignature t' (JSignature (@ECDSA_sign toy x02 (sighash t)))
       = Returned true
    /\ forall pk,
         isValidSignature t' (JPublicKey pk)
         = Threw "signature must be a Signature".
Proof.
  apply (@sign_then_isValidSignature toy toy_ECDSA_ok _newTransaction
           (coinbase_at 0 0) x02 heap0).
  reflexivity.
Defined.

(** C3, as the specification words it: after [t.sign(sk)], the call
    [t.isValidSignature(pk)] with the public key does not return true, it
    throws. *)
Lemma isValidSignature_public_key_throws :
  exists t h' t',
    from (@_newTransaction toy) (FromTransaction (coinbase_at 0 0)) heap0
    = Returned (t, h')
    /\ owner (coinbase_at 0 0) = Some (@toPublicKey toy x02)
    /\ sign t (SignKey (x02 : @PrivateKey toy)) = Returned t'
    /\ isValidSignature t' (JPublicKey (@toPublicKey toy x02))
       = Threw "signature must be a Signature"
    /\ isValidSignature t' (JPublicKey (@toPublicKey toy x02))
       <> Returned true.
Proof.
  do 3 eexists.
  split; [vm_compute; reflexivity|].
  split; [reflexivity|].
  split; [vm_compute; reflexivity|].
  split; [reflexivity|discriminate].
Qed.

Lemma getBlockLocator_spec_witness :
  getBlockLocator (sample_chain 13)
  = Returned (map (hashAt (sample_chain 13)) (locator_heights 12))
  /\ recent_heights 10 12
     = filter (fun h => 0 <=? h)
         [12; 12 - 1; 12 - 2; 12 - 3; 12 - 4; 12 - 5; 12 - 6; 12 - 7; 12 - 8;
          12 - 9]
  /\ (forall k : nat,
        In (backoff_height (12 - 10) k) (backoff_heights (12 - 10))
        <-> 0 < backoff_height (12 - 10) k)
  /\ backoff_height (12 - 10) 0 = 12 - 10
  /\ (forall k : nat,
        backoff_height (12 - 10) k - backoff_height (12 - 10) (S k)
        = 2 ^ Z.of_nat k).
Proof.
  apply (@getBlockLocator_spec toy (sample_chain 13) (sample_hash 13) 12).
  - vm_compute. reflexivity.
  - vm_compute. discriminate.
  - vm_compute. reflexivity.
Defined.

Lemma proposeNewBlock_rejects_invalid_witness :
  proposeNewBlock 4 chain_G block_far = (Threw "Invalid Argument", chain_G)
  /\ let s' := snd (proposeNewBlock 4 chain_G block_far) in
     blockStore s' = blockStore chain_G /\ txStore s' = txStore chain_G
     /\ work s' = work chain_G /\ prev s' = prev chain_G
     /\ height s' = height chain_G /\ next s' = next chain_G
     /\ hashByHeight s' = hashByHeight chain_G
     /\ tip s' = tip chain_G /\ pixels s' = pixels chain_G.
Proof.
  apply (@proposeNewBlock_rejects_invalid toy 4 chain_G block_far).
  vm_compute. reflexivity.
Defined.

(** ** Where the code departs from the specification *)

(** C1. [unconfirm] does not touch the pixel map: after [confirm] and
    [unconfirm] of the first block, the pixel that block mined is still
    there, while the map was empty before the [confirm]. *)
Theorem unconfirm_keeps_confirmed_pixels :
  let before :=
    addHashReferences (saveBlockToStore new_Blockchain block_G) block_G in
  pixels before = []
  /\ exists after_confirm after_unconfirm,
      confirm before block_G = (Returned tt, after_confirm)
      /\ pixels after_confirm = [("0_0"%string, coinbase_at 0 0)]
      /\ unconfirm after_confirm (UHash (Some hash_G))
         = (Returned tt, after_unconfirm)
      /\ tip after_unconfirm = Some NULL
      /\ get (height after_unconfirm) hash_G = None
      /\ pixels after_unconfirm = [("0_0"%string, coinbase_at 0 0)].
Proof.
  cbv zeta. split; [reflexivity|].
  do 2 eexists.
  split; [vm_compute; reflexivity|].
  split; [reflexivity|].
  split; [vm_compute; reflexivity|].
  repeat split.
Qed.

(** A reorganisation through [proposeNewBlock] hands [unconfirm] the block
    object: the longer fork is stored, the call throws and the chain of
    before stays active. *)
Lemma proposeNewBlock_fork_throws :
  tip chain_GAC = Some hash_A
  /\ get (work chain_GAC) hash_A = Some (Num 2)
  /\ isValidBlock chain_GAC block_D = true
  /\ fst (proposeNewBlock 4 chain_GAC block_D)
     = Threw "Attempting to unconfirm a non-tip block"
  /\ get (work (snd (proposeNewBlock 4 chain_GAC block_D))) hash_D
     = Some (Num 3)
  /\ tip (snd (proposeNewBlock 4 chain_GAC block_D)) = Some hash_A
  /\ pixels (snd (proposeNewBlock 4 chain_GAC block_D)) = pixels chain_GAC.
Proof. vm_compute. repeat split. Qed.

(** C2. [confirm] accepts a block whose parent is not the tip: with [block_A]
    at the tip, the fork [block_C] on [block_G] is confirmed and becomes the
    tip at height 1, next to [block_A]. *)
Theorem confirm_accepts_non_contiguous_block :
  tip chain_GAC = Some hash_A
  /\ get (prev chain_GAC) (block_hash block_C) = Some hash_G
  /\ exists s',
      confirm chain_GAC block_C = (Returned tt, s')
      /\ tip s' = Some hash_C
      /\ get (height s') hash_C = Some (Num 1)
      /\ get (height s') hash_A = Some (Num 1)
      /\ get (hashByHeight s') "1" = Some hash_C
      /\ get (next s') hash_G = Some hash_C.
Proof.
  split; [reflexivity|]. split; [reflexivity|].
  eexists. split; [vm_compute; reflexivity|].
  repeat split.
Qed.

(** C4. A transaction read from bytes whose input is 32 zero bytes is not a
    coinbase for [isCoinbase], while the transaction it was written from
    is. *)
Theorem isCoinbase_false_after_decoding :
  isCoinbase (coinbase_at 0 0) = true
  /\ exists t',
      fromBuffer (@_newTransaction toy) (toBuffer (coinbase_at 0 0)) heap0
      = Returned (t', S heap0)
      /\ data (input t') = data NULL_HASH
      /\ isCoinbase t' = false.
Proof.
  split; [reflexivity|].
  eexists. split; [vm_compute; reflexivity|].
  split; reflexivity.
Qed.

(** C5. [prune] drops the [prev] and [work] entries of the block at height
    0 of the active chain. *)
Theorem prune_discards_active_genesis :
  tip chain_GA = Some hash_A
  /\ get (height chain_GA) hash_G = Some (Num 0)
  /\ get (hashByHeight chain_GA) "0" = Some hash_G
  /\ get (prev chain_GA) hash_G = Some NULL
  /\ get (work chain_GA) hash_G = Some (Num 1)
  /\ get (prev (prune chain_GA)) hash_G = None
  /\ get (work (prune chain_GA)) hash_G = None
  /\ prev (prune chain_GA) = [(hash_A, hash_G)].
Proof. vm_compute. repeat split. Qed.

(** * Properties of the code around the claims *)

Lemma toy_PublicKey_object_ok : PublicKey_object_ok toy toy_platform.
Proof. intros pk. reflexivity. Qed.

(** ** Adjacency, colors and the builder *)

Section Builder.
Context {P : Primitives} {Q : Platform P}.





End Builder.

(** ** Serializing, copying and the plain-object form *)

Section Serialization.
Context {P : Primitives} {Q : Platform P}.

(** The bytes of a transaction depend on its wire fields only. *)
Lemma toBuffer_ext (t t' : Transaction) :
  version t' = version t -> data (input t') = data (input t) ->
  position t' = position t -> color t' = color t -> owner t' = owner t ->
  signature t' = signature t ->
  toBuffer t' = toBuffer t.
Proof.
  intros Hv Hi Hp Hc Ho Hs. unfold toBuffer, toBufferWriter.
  now rewrite Hv, Hi, Hp, Hc, Ho, Hs.
Qed.

(** X3. [new Transaction().at(x, y).to(pk).colored(c)] with 32-bit
    coordinates and a color between 1 and [0xffffffff] returns a transaction
    that is a coinbase for [isCoinbase], is valid for the codec, is not
    signed, and serializes to [01], 32 zero bytes, [x], [y], [c], the key and
    a zero signature length. *)
Theorem builder_coinbase (x y c : Z) (pk : PublicKey) :
  - 2 ^ 31 <= x < 2 ^ 31 ->
  - 2 ^ 31 <= y < 2 ^ 31 ->
  1 <= c <= 4294967295 ->
  exists t,
    (do t1 <- at_ _newTransaction (JNumber x) (JNumber y);
     do t2 <- to t1 (ToPublicKey pk);
     colored t2 (ColorNumber (Num c))) = Returned t
    /\ valid_transaction t pk
    /\ isCoinbase t = true
    /\ isFullySigned t = false
    /\ toBuffer t
       = x01 :: repeat x00 32 ++ le_bytes 4 x ++ le_bytes 4 y ++ le_bytes 4 c
         ++ PublicKey_toBuffer pk ++ [x00].
Proof.
  intros Hx Hy Hc.
  unfold at_, to, colored. cbn [_newTransaction _previous isUndefined check
    bindO num_truthy version input position color owner signature].
  destruct (Z.eqb_spec c 0) as [E|_]; [lia|]. cbn [negb check bindO].
  destruct (Z.leb_spec 0 c); [|lia].
  destruct (Z.leb_spec c 4294967295); [|lia]. cbn [andb check bindO].
  eexists. split; [reflexivity|].
  split; [|split; [reflexivity|split; [reflexivity|]]].
  - constructor; cbn [version input position color owner signature
      pos_x pos_y data NULL_HASH].
    + unfold CURRENT_VERSION. lia.
    + apply repeat_length.
    + assumption.
    + assumption.
    + lia.
    + reflexivity.
    + unfold signature_bytes. cbn [signature List.length]. lia.
  - unfold toBuffer, toBufferWriter, write, writeUInt8, writeInt32LE,
      writeUInt32LE.
    cbn [version input position color owner signature pos_x pos_y data
      NULL_HASH].
    rewrite <- !app_assoc. reflexivity.
Qed.

Lemma serialize_value (this : Transaction) (unsafe : serializeArg)
  (s : string) :
  serialize this unsafe = Returned s -> s = uncheckedSerialize this.
Proof.
  intros E. unfold serialize, checkedSerialize in E.
  destruct unsafe as [|[|] d|];
    try (inversion E; reflexivity);
    destruct (getSerializationError this _);
    first [discriminate E | inversion E; reflexivity].
Qed.

(** X4. [serialize] returns exactly when the transaction is signed or a flag
    ([true], [disableAll], [disableIsFullySigned]) switches the test off;
    what it returns is the hexadecimal text of [toBuffer], which
    [new Buffer(text, 'hex')] reads back. *)
Theorem serialize_checks_signature (this : Transaction) (unsafe : serializeArg) :
  ((exists s, serialize this unsafe = Returned s)
   <-> (unsafe = Unsafe_true
        \/ (exists d, unsafe = Unsafe_flags true d)
        \/ (exists a, unsafe = Unsafe_flags a true)
        \/ signature this <> None))
  /\ forall s,
       serialize this unsafe = Returned s ->
       s = uncheckedSerialize this /\ fromHex s = Returned (toBuffer this).
Proof.
  split.
  - unfold serialize, checkedSerialize, getSerializationError,
      _isMissingSignatures, isFullySigned.
    destruct unsafe as [|[|] [|]|]; destruct (signature this) as [sg|];
      cbn [isUndefined negb];
      (split;
       [ intros [s E];
         first [ discriminate E
               | left; reflexivity
               | right; left; eexists; reflexivity
               | right; right; left; eexists; reflexivity
               | right; right; right; discriminate ]
       | intros [E|[[d E]|[[a E]|E]]];
         first [ eexists; reflexivity
               | discriminate E
               | exfalso; apply E; reflexivity ] ]).
  - intros s E.
    pose proof (serialize_value this unsafe s E) as Hs.
    split; [exact Hs|]. subst s. apply fromHex_toHex.
Qed.

(** X5. For a valid transaction, the text that [serialize] returns is read
    back by [fromString] into a transaction with the same bytes. *)
Theorem fromString_serialize
  (Hpk : PublicKey_codec_ok P) (Hsig : Signature_codec_ok P)
  (t this : Transaction) (pk : PublicKey) (unsafe : serializeArg)
  (s : string) (h : heap) :
  valid_transaction t pk ->
  signature this = None ->
  serialize t unsafe = Returned s ->
  exists t',
    fromString this s h = Returned (t', S h)
    /\ toBuffer t' = toBuffer t
    /\ uncheckedSerialize t' = s.
Proof.
  intros Hvalid Hthis Hser.
  rewrite (serialize_value t unsafe s Hser).
  unfold fromString, uncheckedSerialize at 1.
  rewrite fromHex_toHex. cbn [bindO].
  unfold fromBuffer.
  pose proof (valid_owner _ _ Hvalid) as Ho.
  rewrite <- (app_nil_r (toBuffer t)), (toBuffer_layout t pk Ho).
  rewrite (fromBufferReader_layout Hpk Hsig t this pk [] h Hvalid).
  cbn [bindO fst]. eexists. split; [reflexivity|].
  assert (Hb : toBuffer
                 {| version := version t;
                    input := {| ref := h; data := data (input t) |};
                    position := position t; color := color t;
                    owner := Some pk;
                    signature :=
                      match signature t with
                      | Some s =>
                          if (List.length (Signature_toBuffer s) =? 0)%nat
                          then signature this else Some s
                      | None => signature this
                      end;
                    _previous := _previous this |} = wire_layout t pk).
  { rewrite (toBuffer_layout _ pk) by reflexivity.
    apply wire_layout_ext; try reflexivity.
    unfold signature_bytes. cbn [signature]. rewrite Hthis.
    destruct (signature t) as [sg|]; [|reflexivity].
    destruct (Nat.eqb_spec (List.length (Signature_toBuffer sg)) 0) as [E|E];
      [|reflexivity].
    destruct (Signature_toBuffer sg); [reflexivity|discriminate]. }
  rewrite ?app_nil_r. split.
  - exact Hb.
  - unfold uncheckedSerialize. rewrite Hb, ?(toBuffer_layout t pk Ho).
    reflexivity.
Qed.

(** X6. A [shallowCopy] of a valid transaction has the same bytes but no
    previous transaction and a buffer of its own as input: signatures can
    no longer be checked or made on the copy, and the copy of a coinbase is
    not a coinbase for [isCoinbase]. *)
Theorem shallowCopy_forgets_previous
  (Hpk : PublicKey_codec_ok P) (Hsig : Signature_codec_ok P)
  (t : Transaction) (pk : PublicKey) (h : heap) :
  valid_transaction t pk ->
  (1 <= h)%nat ->
  exists t',
    shallowCopy t h = Returned (t', S h)
    /\ toBuffer t' = toBuffer t
    /\ _previous t' = None
    /\ isCoinbase t' = false
    /\ (forall sg,
          isValidSignature t' sg
          = Threw "No previous transaction information, cannot validate signature")
    /\ (forall k,
          sign t' (SignKey k)
          = Threw "No previous transaction information, cannot validate signature").
Proof.
  intros Hvalid Hh.
  pose proof (valid_owner _ _ Hvalid) as Ho.
  unfold shallowCopy, new_Transaction_buffer, fromBuffer.
  rewrite <- (app_nil_r (toBuffer t)), (toBuffer_layout t pk Ho).
  rewrite (fromBufferReader_layout Hpk Hsig t blank pk [] h Hvalid).
  cbn [bindO fst blank signature _previous]. eexists.
  split; [reflexivity|]. split; [|split; [reflexivity|split; [|split]]].
  - rewrite (toBuffer_layout _ pk) by reflexivity.
    rewrite app_nil_r. apply wire_layout_ext; try reflexivity.
    unfold signature_bytes. cbn [signature].
    destruct (signature t) as [sg|]; [|reflexivity].
    destruct (Nat.eqb_spec (List.length (Signature_toBuffer sg)) 0) as [E|E];
      [|reflexivity].
    destruct (Signature_toBuffer sg); [reflexivity|discriminate].
  - unfold isCoinbase, buf_eq. cbn [input ref NULL_HASH].
    apply Nat.eqb_neq. lia.
  - intros sg. reflexivity.
  - intros k. reflexivity.
Qed.

(** X7. The plain-object form leaves the signature out: reading
    [t.toObject()], or [t] itself, with [fromObject] into a new transaction
    gives the fields of [t] without signature and without previous
    transaction, so that its bytes are those of [t] unsigned and its hash is
    the digest that signatures of [t] sign. *)
Theorem fromObject_toObject_drops_signature
  (Hobj : PublicKey_object_ok P Q)
  (t : Transaction) (pk : PublicKey) (h : heap) :
  owner t = Some pk ->
  exists o t',
    toObject t = Returned o
    /\ fromObject _newTransaction (TxObject o) h = Returned (t', S h)
    /\ fromObject _newTransaction (TxInstance t) h = Returned (t', S h)
    /\ version t' = version t
    /\ data (input t') = data (input t)
    /\ position t' = position t
    /\ color t' = color t
    /\ owner t' = owner t
    /\ signature t' = None
    /\ _previous t' = None
    /\ toBuffer t' = toBuffer (_clearSignatures t)
    /\ getHash t' = sighash t.
Proof.
  intros Ho.
  assert (Hbuf : forall t' : Transaction,
            version t' = version t -> data (input t') = data (input t) ->
            position t' = position t -> color t' = color t ->
            owner t' = owner t -> signature t' = None ->
            toBuffer t' = toBuffer (_clearSignatures t)).
  { intros t' Hv Hi Hp Hc Hw Hs. apply toBuffer_ext; assumption. }
  set (o := {| obj_version := version t;
               obj_input := toHex (data (input t));
               obj_position := {| pos_x := pos_x (position t);
                                  pos_y := pos_y (position t) |};
               obj_color := color t;
               obj_owner := PublicKey_toObject pk |}).
  set (t' := {| version := version t;
                input := {| ref := h; data := data (input t) |};
                position := {| pos_x := pos_x (position t);
                               pos_y := pos_y (position t) |};
                color := color t; owner := Some pk; signature := None;
                _previous := None |}).
  assert (Hto : toObject t = Returned o)
    by (unfold toObject; rewrite Ho; reflexivity).
  assert (Hfrom : fromObject _newTransaction (TxObject o) h
                  = Returned (t', S h)).
  { unfold fromObject. subst o. cbn [bindO obj_input obj_owner obj_version
      obj_position obj_color].
    rewrite fromHex_toHex. cbn [bindO alloc]. rewrite Hobj. reflexivity. }
  exists o, t'. split; [exact Hto|]. split; [exact Hfrom|].
  split.
  { unfold fromObject in *. rewrite Hto. exact Hfrom. }
  assert (Hpos : position t' = position t)
    by (subst t'; cbn [position]; destruct (position t); reflexivity).
  split; [reflexivity|]. split; [reflexivity|]. split; [exact Hpos|].
  split; [reflexivity|]. split; [now symmetry|].
  split; [reflexivity|]. split; [reflexivity|].
  split.
  - apply Hbuf; auto.
  - unfold getHash, sighash. f_equal. apply Hbuf; auto.
Qed.

Lemma toObject_without_owner (t : Transaction) :
  owner t = None ->
  toObject t = Threw "Cannot read property 'toObject' of null".
Proof. intros Ho. unfold toObject. now rewrite Ho. Qed.

(** ** What [sign] stores *)

Lemma applySignature_inv (t t1 : Transaction) (s : Signature) :
  applySignature t (JSignature s) = Returned t1 ->
  exists t0 pk,
    _previous t = Some t0 /\ owner t0 = Some pk
    /\ ECDSA_verify pk (sighash t) s = true
    /\ t1 = {| version := version t; input := input t;
               position := position t; color := color t; owner := owner t;
               signature := Some s; _previous := _previous t |}.
Proof.
  unfold applySignature, isValidSignature. cbn [check bindO].
  destruct (_previous t) as [t0|] eqn:Hp; [|discriminate].
  destruct (owner t0) as [pk|] eqn:Ho; [|discriminate].
  cbn [bindO]. unfold Sighash_verify.
  destruct (ECDSA_verify pk (sighash t) s) eqn:E; cbn [check bindO];
    [|discriminate].
  intros H. inversion H. exists t0, pk. repeat split; auto.
Qed.

Lemma sign_each_inv (ks : list PrivateKey) :
  forall t t' : Transaction,
    sign_each t ks = Returned t' ->
    (ks = [] /\ t' = t)
    \/ exists t0 pk sg,
         _previous t = Some t0 /\ owner t0 = Some pk
         /\ signature t' = Some sg
         /\ ECDSA_verify pk (sighash t) sg = true
         /\ _clearSignatures t' = _clearSignatures t.
Proof.
  induction ks as [|k ks IH]; intros t t' H.
  - left. inversion H. auto.
  - right. cbn [sign_each] in H.
    destruct (applySignature t (JSignature (getSignature t k)))
      as [t1| |] eqn:E1; try discriminate H. cbn [bindO] in H.
    destruct (applySignature_inv _ _ _ E1) as (t0 & pk & Hp & Ho & Hv & ->).
    destruct (IH _ _ H) as [[-> ->]|(t0' & pk' & sg & Hp' & Ho' & Hs & Hv' & Hc)].
    + exists t0, pk, (getSignature t k). repeat split; assumption.
    + cbn [_previous] in Hp'. rewrite Hp in Hp'. inversion Hp'; subst t0'.
      rewrite Ho in Ho'. inversion Ho'; subst pk'.
      exists t0, pk, sg. repeat split; assumption.
Qed.

(** X8. Whatever [sign] stores verifies: when [sign] returns for a key or a
    non-empty array of keys, the transaction has a previous transaction with
    an owner, the stored signature verifies against that owner over the
    sighash digest, and no other field has changed. *)
Theorem sign_stores_verified_signature
  (t t' : Transaction) (arg : signArg) :
  sign t arg = Returned t' ->
  arg <> SignKeys [] ->
  exists t0 pk sg,
    _previous t = Some t0 /\ owner t0 = Some pk
    /\ signature t' = Some sg
    /\ ECDSA_verify pk (sighash t) sg = true
    /\ isValidSignature t' (JSignature sg) = Returned true
    /\ _clearSignatures t' = _clearSignatures t.
Proof.
  intros H Hne.
  assert (Hinv : exists t0 pk sg,
             _previous t = Some t0 /\ owner t0 = Some pk
             /\ signature t' = Some sg
             /\ ECDSA_verify pk (sighash t) sg = true
             /\ _clearSignatures t' = _clearSignatures t).
  { destruct arg as [k|ks]; cbn [sign] in H.
    - destruct (applySignature_inv _ _ _ H) as (t0 & pk & Hp & Ho & Hv & ->).
      exists t0, pk, (getSignature t k). repeat split; assumption.
    - destruct (sign_each_inv ks t t' H) as [[-> _]|Hx]; [congruence|exact Hx]. }
  destruct Hinv as (t0 & pk & sg & Hp & Ho & Hs & Hv & Hc).
  exists t0, pk, sg. repeat (split; [assumption|]). split; [|assumption].
  assert (Hprev : _previous t' = _previous t)
    by (apply (f_equal _previous) in Hc; exact Hc).
  unfold isValidSignature. rewrite Hprev, Hp, Ho.
  unfold Sighash_verify, sighash. rewrite Hc. exact (f_equal Returned Hv).
Qed.

End Serialization.

(** ** Block headers *)

Lemma BN_digits_toHex (bs : bytes) :
  forall acc : Z,
    BN_digits acc (toHex bs)
    = Returned (fold_left (fun a b => 256 * a + Z_of_byte b) bs acc).
Proof.
  induction bs as [|b r IH]; intros acc; [reflexivity|].
  cbn [toHex BN_digits fold_left].
  destruct (hex_byte b) as (H1 & H2 & _). rewrite H1, H2, IH.
  do 2 f_equal.
  pose proof (Z.div_mod (Z_of_byte b) 16). lia.
Qed.

Lemma BN_fromHex_toHex (bs : bytes) :
  BN_fromHex (toHex bs) = Returned (be_value bs).
Proof. apply BN_digits_toHex. Qed.

Lemma be_value_rev (bs : bytes) : be_value (rev bs) = le_value bs.
Proof.
  unfold be_value. induction bs as [|b r IH]; [reflexivity|].
  cbn [rev le_value]. rewrite fold_left_app. cbn [fold_left].
  rewrite IH. lia.
Qed.

Lemma be_value_leading_zeros (k : nat) (bs : bytes) :
  be_value (repeat x00 k ++ bs) = be_value bs.
Proof.
  unfold be_value. rewrite fold_left_app. f_equal.
  induction k as [|k IH]; [reflexivity|].
  cbn [repeat fold_left]. exact IH.
Qed.

Lemma BlockHeader_toBuffer_layout (h : BlockHeader) (p m : bytes) :
  header_prevHash h = Some p -> header_merkleRoot h = Some m ->
  BlockHeader_toBuffer h
  = Returned (le_bytes 4 (header_version h) ++ le_bytes 4 (header_height h)
              ++ le_bytes 4 (header_time h) ++ le_bytes 4 (header_bits h)
              ++ p ++ m ++ le_bytes 4 (header_nonce h)).
Proof.
  intros Hp Hm. unfold BlockHeader_toBuffer, BlockHeader_toBufferWriter.
  rewrite Hp, Hm. unfold write, writeUInt32LE. cbn [app].
  now rewrite <- !app_assoc.
Qed.

Lemma BlockHeader__fromBufferReader_layout (h : BlockHeader)
  (p m rest : bytes) :
  valid_header h p m ->
  BlockHeader__fromBufferReader
    ((le_bytes 4 (header_version h) ++ le_bytes 4 (header_height h)
      ++ le_bytes 4 (header_time h) ++ le_bytes 4 (header_bits h)
      ++ p ++ m ++ le_bytes 4 (header_nonce h)) ++ rest)
  = Returned
      ({| header_version := header_version h;
          header_height := header_height h;
          header_time := header_time h;
          header_timestamp := None;
          header_bits := header_bits h;
          header_prevHash := Some p;
          header_merkleRoot := Some m;
          header_nonce := header_nonce h;
          header__id := None |}, rest).
Proof.
  intros [Hv Hh Ht Hb Hn Hp Hm Hlp Hlm].
  unfold BlockHeader__fromBufferReader. rewrite <- !app_assoc.
  rewrite readUInt32LE_le_bytes by assumption. cbn [bindO].
  rewrite readUInt32LE_le_bytes by assumption. cbn [bindO].
  rewrite readUInt32LE_le_bytes by assumption. cbn [bindO].
  rewrite readUInt32LE_le_bytes by assumption. cbn [bindO].
  rewrite <- Hlp at 1. rewrite read_app. cbn [bindO].
  rewrite <- Hlm at 1. rewrite read_app. cbn [bindO].
  rewrite readUInt32LE_le_bytes by assumption. reflexivity.
Qed.

Lemma BlockHeader_fromBufferReader_layout (h : BlockHeader)
  (p m rest : bytes) :
  valid_header h p m ->
  BlockHeader_fromBufferReader
    ((le_bytes 4 (header_version h) ++ le_bytes 4 (header_height h)
      ++ le_bytes 4 (header_time h) ++ le_bytes 4 (header_bits h)
      ++ p ++ m ++ le_bytes 4 (header_nonce h)) ++ rest)
  = Returned (constructed h, rest).
Proof.
  intros Hvalid. unfold BlockHeader_fromBufferReader.
  rewrite (BlockHeader__fromBufferReader_layout h p m rest Hvalid).
  cbn [bindO]. unfold constructed.
  rewrite (valid_header_prevHash _ _ _ Hvalid).
  rewrite (valid_header_merkleRoot _ _ _ Hvalid). reflexivity.
Qed.

(** X9. A header whose numbers are unsigned 32-bit and whose hashes have 32
    bytes serializes to 84 bytes, and reading them back, with anything
    behind, gives the same fields and leaves what is behind;
    [BlockHeader.fromBufferReader] also sets [timestamp] to [time]. *)
Theorem BlockHeader_codec_roundtrip
  (h : BlockHeader) (p m rest : bytes) :
  valid_header h p m ->
  exists b,
    BlockHeader_toBuffer h = Returned b
    /\ List.length b = 84%nat
    /\ BlockHeader__fromBufferReader (b ++ rest)
       = Returned
           ({| header_version := header_version h;
               header_height := header_height h;
               header_time := header_time h;
               header_timestamp := None;
               header_bits := header_bits h;
               header_prevHash := Some p;
               header_merkleRoot := Some m;
               header_nonce := header_nonce h;
               header__id := None |}, rest)
    /\ BlockHeader_fromBufferReader (b ++ rest) = Returned (constructed h, rest)
    /\ BlockHeader_toBuffer (constructed h) = Returned b.
Proof.
  intros Hvalid.
  pose proof (valid_header_prevHash _ _ _ Hvalid) as Hp.
  pose proof (valid_header_merkleRoot _ _ _ Hvalid) as Hm.
  rewrite (BlockHeader_toBuffer_layout h p m Hp Hm).
  eexists. split; [reflexivity|]. split.
  { rewrite !length_app, !length_le_bytes.
    rewrite (valid_header_prevHash_length _ _ _ Hvalid).
    rewrite (valid_header_merkleRoot_length _ _ _ Hvalid). reflexivity. }
  split; [now apply BlockHeader__fromBufferReader_layout|]. split.
  - now apply BlockHeader_fromBufferReader_layout.
  - rewrite (BlockHeader_toBuffer_layout (constructed h) p m); auto.
Qed.

(** X10. A header with both hashes has a plain-object form, with the hashes
    reversed and in hexadecimal, and [BlockHeader.fromObject] reads it back
    to the same fields. Without a Merkle root, [toObject] throws. *)
Theorem BlockHeader_fromObject_toObject (h : BlockHeader) (p m : bytes) :
  header_prevHash h = Some p ->
  header_merkleRoot h = Some m ->
  exists d,
    BlockHeader_toObject h = Returned d
    /\ data_prevHash d = HashString (toHex (rev p))
    /\ data_merkleRoot d = HashString (toHex (rev m))
    /\ BlockHeader_fromObject d = Returned (constructed h)
    /\ BlockHeader_toObject (with_merkleRoot h None)
       = Threw "Cannot read property 'length' of undefined".
Proof.
  intros Hp Hm. unfold BlockHeader_toObject. rewrite Hp, Hm.
  eexists. split; [reflexivity|]. split; [reflexivity|].
  split; [reflexivity|]. split.
  - unfold BlockHeader_fromObject, BlockHeader__fromObject.
    cbn [data_prevHash data_merkleRoot BlockHeader_hash_field].
    rewrite !fromHex_toHex. cbn [bindO]. rewrite !rev_involutive.
    cbn [bindO new_BlockHeader HeaderData_of BlockHeader__fromObject
      header_prevHash header_merkleRoot hashArg_of data_prevHash
      data_merkleRoot BlockHeader_hash_field].
    cbn. unfold constructed. now rewrite Hp, Hm.
  - cbn [with_merkleRoot header_prevHash header_merkleRoot]. rewrite Hp.
    reflexivity.
Qed.

Lemma getTargetDifficulty_loop_spec (fuel : nat) :
  forall mov target : Z,
    (Z.to_nat mov < fuel)%nat ->
    getTargetDifficulty_loop fuel mov target
    = Returned (target * 2 ^ Z.max 0 mov).
Proof.
  induction fuel as [|fuel IH]; intros mov target Hf; [lia|].
  cbn [getTargetDifficulty_loop].
  destruct (Z.ltb_spec 0 mov) as [Hpos|Hneg].
  - rewrite IH by lia. f_equal.
    replace (Z.max 0 mov) with (Z.succ (Z.max 0 (mov - 1))) by lia.
    rewrite Z.pow_succ_r by lia. lia.
  - replace (Z.max 0 mov) with 0 by lia. f_equal. lia.
Qed.

Lemma getTargetDifficulty_value (bits : Z) :
  0 <= bits < 2 ^ 32 ->
  getTargetDifficulty (JNumber bits)
  = Returned ((bits mod 2 ^ 24) * 2 ^ (8 * Z.max 0 (bits / 2 ^ 24 - 3))).
Proof.
  intros Hb. unfold getTargetDifficulty. rewrite Z.mod_small by assumption.
  rewrite getTargetDifficulty_loop_spec by lia.
  change 16777215 with (Z.ones 24).
  rewrite Z.land_ones, Z.shiftr_div_pow2 by lia.
  do 3 f_equal. lia.
Qed.

(** X11. For 32-bit [bits] with mantissa [bits mod 2^24] and exponent
    [bits / 2^24], the target is the mantissa times [256^(exponent - 3)];
    an exponent below 3 leaves the mantissa as it is. *)
Theorem getTargetDifficulty_closed_form (bits : Z) :
  0 <= bits < 2 ^ 32 ->
  getTargetDifficulty (JNumber bits)
  = Returned ((bits mod 2 ^ 24) * 2 ^ (8 * Z.max 0 (bits / 2 ^ 24 - 3)))
  /\ (bits / 2 ^ 24 <= 3 ->
      getTargetDifficulty (JNumber bits) = Returned (bits mod 2 ^ 24)).
Proof.
  intros Hb.
  pose proof (getTargetDifficulty_value bits Hb) as E.
  split; [exact E|].
  intros He. rewrite E. f_equal.
  replace (Z.max 0 (bits / 2 ^ 24 - 3)) with 0 by lia.
  change (2 ^ (8 * 0)) with 1. lia.
Qed.

Section HeaderHash.
Context {P : Primitives} {Q : Platform P}.

(** X12. For a header whose id is not cached yet, [validProofOfWork] holds
    exactly when the hash of the header, read as a little-endian integer,
    is at most the target of its [bits]; the call fills the cache of the
    id. *)
Theorem validProofOfWork_meaning (h : BlockHeader) (p m : bytes) :
  header_prevHash h = Some p ->
  header_merkleRoot h = Some m ->
  header__id h = None ->
  0 <= header_bits h < 2 ^ 32 ->
  exists hsh,
    BlockHeader_getHash h = Returned hsh
    /\ validProofOfWork h
       = Returned
           (le_value hsh
            <=? (header_bits h mod 2 ^ 24)
                * 2 ^ (8 * Z.max 0 (header_bits h / 2 ^ 24 - 3)),
            with__id h (Some (toHex (rev hsh)))).
Proof.
  intros Hp Hm Hid Hb.
  unfold validProofOfWork, BlockHeader_id, BlockHeader_getHash.
  rewrite Hid. cbn [str_truthy].
  rewrite (BlockHeader_toBuffer_layout h p m Hp Hm). cbn [bindO].
  eexists. split; [reflexivity|].
  rewrite BN_fromHex_toHex. cbn [bindO with__id header_bits].
  rewrite (getTargetDifficulty_value (header_bits h) Hb).
  cbn [bindO]. rewrite be_value_rev. do 2 f_equal.
  rewrite Z.leb_antisym. reflexivity.
Qed.

End HeaderHash.

(** ** Blocks: the codec, the constructor and the Merkle root *)

Section BlockCode.
Context {P : Primitives} {Q : Platform P}.

(** Reading the bytes of a valid transaction into an object without
    signature. *)
Lemma fromBufferReader_toBuffer
  (Hpk : PublicKey_codec_ok P) (Hsig : Signature_codec_ok P)
  (t this : Transaction) (pk : PublicKey) (rest : bytes) (h : heap) :
  valid_transaction t pk ->
  signature this = None ->
  exists t',
    fromBufferReader this (toBuffer t ++ rest) h = Returned (t', rest, S h)
    /\ toBuffer t' = toBuffer t
    /\ signature_bytes t' = signature_bytes t
    /\ _previous t' = _previous this
    /\ ref (input t') = h.
Proof.
  intros Hvalid Hthis.
  pose proof (valid_owner _ _ Hvalid) as Ho.
  rewrite (toBuffer_layout t pk Ho).
  rewrite (fromBufferReader_layout Hpk Hsig t this pk rest h Hvalid).
  eexists. split; [reflexivity|].
  assert (Hs : signature_bytes
                 {| version := version t;
                    input := {| ref := h; data := data (input t) |};
                    position := position t; color := color t;
                    owner := Some pk;
                    signature :=
                      match signature t with
                      | Some s =>
                          if (List.length (Signature_toBuffer s) =? 0)%nat
                          then signature this else Some s
                      | None => signature this
                      end;
                    _previous := _previous this |} = signature_bytes t).
  { unfold signature_bytes. cbn [signature]. rewrite Hthis.
    destruct (signature t) as [s|]; [|reflexivity].
    destruct (Nat.eqb_spec (List.length (Signature_toBuffer s)) 0) as [E|E];
      [|reflexivity].
    destruct (Signature_toBuffer s); [reflexivity|discriminate]. }
  split.
  { rewrite (toBuffer_layout _ pk) by reflexivity.
    apply wire_layout_ext; auto. }
  split; [exact Hs|]. split; reflexivity.
Qed.

Lemma fromBufferReader_heap (this t : Transaction)
  (r r' : BufferReader) (h h' : heap) :
  fromBufferReader this r h = Returned (t, r', h') ->
  h' = S h /\ _previous t = _previous this.
Proof.
  unfold fromBufferReader. intros H.
  repeat match type of H with
         | bindO ?o _ = Returned _ =>
             destruct o as [[? ?]| |] eqn:?; cbn [bindO alloc] in H;
             try discriminate H
         | bindO ?o _ = Returned _ =>
             destruct o as [?| |] eqn:?; cbn [bindO alloc] in H;
             try discriminate H
         | (if ?c then _ else _) = Returned _ => destruct c eqn:?
         end;
    inversion H; split; reflexivity.
Qed.

Lemma toBufferWriter_app (t : Transaction) (w : BufferWriter) :
  toBufferWriter t w = w ++ toBuffer t.
Proof.
  unfold toBuffer, toBufferWriter, write, writeUInt8, writeInt32LE,
    writeUInt32LE.
  destruct (owner t), (signature t); cbn [app]; now rewrite <- ?app_assoc.
Qed.

Lemma fold_toBufferWriter (txs : list Transaction) :
  forall w : BufferWriter,
    fold_left (fun bw tx => toBufferWriter tx bw) txs w
    = w ++ List.concat (map toBuffer txs).
Proof.
  induction txs as [|t txs IH]; intros w; cbn [fold_left map List.concat].
  - now rewrite app_nil_r.
  - now rewrite IH, toBufferWriter_app, <- app_assoc.
Qed.

(** The variable-length count reads back. *)
Lemma readVarintNum_writeVarintNum (n : Z) (rest : bytes) :
  0 <= n < 2 ^ 64 ->
  readVarintNum (writeVarintNum n [] ++ rest) = Returned (n, rest).
Proof.
  intros Hn. unfold writeVarintNum, readVarintNum.
  assert (Hvalue : forall k : nat, 0 <= n < 2 ^ (8 * Z.of_nat k) ->
            read k (le_bytes k n ++ rest) = Returned (le_bytes k n, rest)
            /\ le_value (le_bytes k n) = n).
  { intros k Hk. split.
    - pose proof (read_app (le_bytes k n) rest) as E.
      now rewrite length_le_bytes in E.
    - rewrite le_value_le_bytes. now apply Z.mod_small. }
  destruct (Z.ltb_spec n 253) as [H1|H1].
  - cbn [app]. rewrite readUInt8_le_bytes by (change (2 ^ 8) with 256; lia).
    cbn [bindO].
    destruct (Z.eqb_spec n 253); [lia|].
    destruct (Z.eqb_spec n 254); [lia|].
    destruct (Z.eqb_spec n 255); [lia|reflexivity].
  - destruct (Z.ltb_spec n (2 ^ 16)) as [H2|H2];
      [|destruct (Z.ltb_spec n (2 ^ 32)) as [H3|H3]]; cbn [app].
    + change (readUInt8 (xfd :: le_bytes 2 n ++ rest))
        with (Returned (253, le_bytes 2 n ++ rest)).
      cbn [bindO Z.eqb Pos.eqb].
      destruct (Hvalue 2%nat) as [E1 E2];
        [change (2 ^ (8 * Z.of_nat 2)) with (2 ^ 16); lia|].
      rewrite E1. cbn [bindO]. now rewrite E2.
    + change (readUInt8 (xfe :: le_bytes 4 n ++ rest))
        with (Returned (254, le_bytes 4 n ++ rest)).
      cbn [bindO Z.eqb Pos.eqb].
      destruct (Hvalue 4%nat) as [E1 E2];
        [change (2 ^ (8 * Z.of_nat 4)) with (2 ^ 32); lia|].
      rewrite E1. cbn [bindO]. now rewrite E2.
    + change (readUInt8 (xff :: le_bytes 8 n ++ rest))
        with (Returned (255, le_bytes 8 n ++ rest)).
      cbn [bindO Z.eqb Pos.eqb].
      destruct (Hvalue 8%nat) as [E1 E2];
        [change (2 ^ (8 * Z.of_nat 8)) with (2 ^ 64); lia|].
      rewrite E1. cbn [bindO]. now rewrite E2.
Qed.

(** Reading the transactions of a block, one after the other. *)
Lemma Block_read_transactions_spec
  (Hpk : PublicKey_codec_ok P) (Hsig : Signature_codec_ok P)
  (txs : list Transaction) (pks : list PublicKey) (rest : bytes) :
  Forall2 valid_transaction txs pks ->
  forall h : heap,
  exists txs',
    Block_read_transactions (List.length txs)
      (List.concat (map toBuffer txs) ++ rest) h
    = Returned (txs', rest, (h + List.length txs)%nat)
    /\ Forall2 (fun t t' => toBuffer t' = toBuffer t
                            /\ signature_bytes t' = signature_bytes t
                            /\ _previous t' = None) txs txs'.
Proof.
  induction 1 as [|t pk txs pks Hv _ IH]; intros h.
  - exists []. cbn. rewrite Nat.add_0_r. split; [reflexivity|constructor].
  - cbn [List.length map List.concat Block_read_transactions].
    rewrite <- app_assoc.
    destruct (fromBufferReader_toBuffer Hpk Hsig t _newTransaction pk
                (List.concat (map toBuffer txs) ++ rest) h Hv eq_refl)
      as (t' & E & Hb & Hs & Hp & _).
    rewrite E. cbn [bindO fst snd].
    destruct (IH (S h)) as (txs' & E' & HF).
    rewrite E'. cbn [bindO fst snd].
    exists (t' :: txs'). split.
    + do 2 f_equal. lia.
    + constructor; [|exact HF]. repeat split; assumption.
Qed.

(** X13. A block with a valid header and valid transactions serializes to
    the 84 bytes of the header, the count and the transactions;
    [Block._fromBufferReader] reads it back to the same header and to
    transactions with the same bytes and no previous transaction, leaves
    what is behind and the result serializes to the same bytes. *)
Theorem Block_codec_roundtrip
  (Hpk : PublicKey_codec_ok P) (Hsig : Signature_codec_ok P)
  (b : BlockInstance) (p m : bytes) (pks : list PublicKey) (rest : bytes)
  (h : heap) :
  valid_header (blk_header b) p m ->
  Forall2 valid_transaction (blk_transactions b) pks ->
  Z.of_nat (List.length (blk_transactions b)) < 2 ^ 64 ->
  exists bs hb txs',
    BlockHeader_toBuffer (blk_header b) = Returned hb
    /\ Block_toBuffer b = Returned bs
    /\ bs = hb
            ++ writeVarintNum (Z.of_nat (List.length (blk_transactions b))) []
            ++ List.concat (map toBuffer (blk_transactions b))
    /\ Block__fromBufferReader (bs ++ rest) h
       = Returned ({| blk_header := constructed (blk_header b);
                      blk_transactions := txs' |}, rest,
                   (h + List.length (blk_transactions b))%nat)
    /\ Forall2 (fun t t' => toBuffer t' = toBuffer t
                            /\ signature_bytes t' = signature_bytes t
                            /\ _previous t' = None)
         (blk_transactions b) txs'
    /\ Block_toBuffer {| blk_header := constructed (blk_header b);
                         blk_transactions := txs' |} = Returned bs.
Proof.
  intros Hh Htx Hn.
  set (hb := le_bytes 4 (header_version (blk_header b))
             ++ le_bytes 4 (header_height (blk_header b))
             ++ le_bytes 4 (header_time (blk_header b))
             ++ le_bytes 4 (header_bits (blk_header b))
             ++ p ++ m ++ le_bytes 4 (header_nonce (blk_header b))).
  assert (Ehb : BlockHeader_toBuffer (blk_header b) = Returned hb).
  { apply BlockHeader_toBuffer_layout;
      [exact (valid_header_prevHash _ _ _ Hh)
      |exact (valid_header_merkleRoot _ _ _ Hh)]. }
  assert (Ehb' : BlockHeader_toBuffer (constructed (blk_header b))
                 = Returned hb).
  { apply (BlockHeader_toBuffer_layout (constructed (blk_header b)));
      [exact (valid_header_prevHash _ _ _ Hh)
      |exact (valid_header_merkleRoot _ _ _ Hh)]. }
  assert (Hlen : List.length hb = 84%nat).
  { unfold hb. rewrite !length_app, !length_le_bytes.
    rewrite (valid_header_prevHash_length _ _ _ Hh).
    rewrite (valid_header_merkleRoot_length _ _ _ Hh). reflexivity. }
  pose proof (BlockHeader_fromBufferReader_layout (blk_header b) p m
                (writeVarintNum
                   (Z.of_nat (List.length (blk_transactions b))) []
                 ++ List.concat (map toBuffer (blk_transactions b)) ++ rest)
                Hh) as Eread.
  fold hb in Eread.
  destruct (Block_read_transactions_spec Hpk Hsig _ _ rest Htx h)
    as (txs' & Etx & HF).
  assert (Hvar : forall w n, writeVarintNum n w = w ++ writeVarintNum n []).
  { intros w n. unfold writeVarintNum.
    destruct (n <? 253), (n <? 2 ^ 16), (n <? 2 ^ 32); reflexivity. }
  assert (Hbs : forall hdr txs,
            BlockHeader_toBuffer hdr = Returned hb ->
            Block_toBuffer {| blk_header := hdr; blk_transactions := txs |}
            = Returned (hb ++ writeVarintNum (Z.of_nat (List.length txs)) []
                        ++ List.concat (map toBuffer txs))).
  { intros hdr txs E. unfold Block_toBuffer, Block_toBufferWriter.
    cbn [blk_header blk_transactions]. rewrite E. cbn [bindO].
    rewrite fold_toBufferWriter, Hvar. unfold write. cbn [app].
    now rewrite <- app_assoc. }
  exists (hb ++ writeVarintNum (Z.of_nat (List.length (blk_transactions b))) []
          ++ List.concat (map toBuffer (blk_transactions b))), hb, txs'.
  split; [exact Ehb|]. split.
  { destruct b as [hdr txs]. now apply Hbs. }
  split; [reflexivity|]. split.
  - unfold Block__fromBufferReader. rewrite <- !app_assoc.
    replace (finished (hb ++ _)) with false
      by (destruct hb; [discriminate Hlen|reflexivity]).
    cbn [negb check bindO]. rewrite Eread. cbn [bindO].
    rewrite readVarintNum_writeVarintNum by lia. cbn [bindO].
    rewrite Nat2Z.id, Etx. reflexivity.
  - split; [exact HF|].
    rewrite (Hbs _ _ Ehb').
    assert (Hl : List.length txs' = List.length (blk_transactions b)).
    { clear - HF. induction HF as [|t t' l l' _ _ IH]; cbn [List.length];
        [reflexivity|now rewrite IH]. }
    assert (Hm : map toBuffer txs' = map toBuffer (blk_transactions b)).
    { clear - HF. induction HF as [|t t' l l' (E & _) _ IH]; cbn [map];
        [reflexivity|now rewrite E, IH]. }
    now rewrite Hl, Hm.
Qed.

(** What [fromObject] leaves in a [new Transaction()]. *)
Lemma fromObject_new_unsigned (a : txArg) (t : Transaction) (h h' : heap) :
  fromObject _newTransaction a h = Returned (t, h') ->
  signature t = None /\ _previous t = None /\ ref (input t) = h /\ h' = S h.
Proof.
  unfold fromObject. intros H.
  destruct (match a with
            | TxInstance t0 => toObject t0
            | TxObject o => Returned o
            end) as [o| |]; try discriminate H. cbn [bindO] in H.
  destruct (fromHex (obj_input o)) as [d| |]; try discriminate H.
  cbn [bindO alloc] in H.
  destruct (PublicKey_fromObject (obj_owner o)) as [pk| |];
    try discriminate H.
  inversion H. repeat split.
Qed.

Lemma Block_transactions_fromJSON_unsigned (l : list txArg) :
  forall (h h' : heap) (ts : list Transaction),
    Block_transactions_fromJSON l h = Returned (ts, h') ->
    Forall (fun t => signature t = None /\ _previous t = None
                     /\ (h <= ref (input t))%nat) ts.
Proof.
  induction l as [|a l IH]; intros h h' ts H; cbn in H.
  - inversion H. constructor.
  - unfold fromJSON in H.
    destruct (fromObject _newTransaction a h) as [[t h1]| |] eqn:E;
      try discriminate H. cbn [bindO] in H.
    destruct (Block_transactions_fromJSON l h1) as [[ts1 h2]| |] eqn:E';
      try discriminate H. cbn [bindO] in H.
    inversion H; subst; clear H.
    destruct (fromObject_new_unsigned a t h h1 E) as (Hs & Hp & Hr & ->).
    constructor; [repeat split; auto; lia|].
    eapply Forall_impl; [|exact (IH _ _ _ E')].
    cbn. intros t0 (H1 & H2 & H3). repeat split; auto. lia.
Qed.

(** The transactions of a block that the constructor returns are those that
    [_from] made. *)
Lemma new_Block_transactions (arg : blockArg) (h h' : heap)
  (b : BlockInstance) :
  new_Block arg h = Returned (b, h') ->
  exists b0,
    Block__from arg h = Returned (b0, h')
    /\ blk_transactions b = blk_transactions b0
    /\ validMerkleRoot b = Returned true.
Proof.
  unfold new_Block. intros H.
  destruct (Block__from arg h) as [[b0 h0]| |]; try discriminate H.
  cbn [bindO] in H.
  destruct (header_merkleRoot (blk_header b0)) as [m|].
  - cbn [bindO] in H.
    destruct (validMerkleRoot b0) as [[|]| |] eqn:Ev; try discriminate H.
    cbn [check bindO] in H. inversion H; subst. exists b. auto.
  - destruct (Block_getMerkleRoot b0) as [root| |]; try discriminate H.
    cbn [bindO] in H.
    match type of H with
    | bindO (validMerkleRoot ?b1) _ = _ =>
        destruct (validMerkleRoot b1) as [[|]| |] eqn:Ev; try discriminate H
    end.
    cbn [check bindO] in H. inversion H; subst. exists b0. auto.
Qed.

Lemma Block_transactions_fromJSON_heap (l : list txArg) :
  forall (h h' : heap) (ts : list Transaction),
    Block_transactions_fromJSON l h = Returned (ts, h') -> (h <= h')%nat.
Proof.
  induction l as [|a l IH]; intros h h' ts H; cbn in H.
  - inversion H. lia.
  - unfold fromJSON in H.
    destruct (fromObject _newTransaction a h) as [[t h1]| |] eqn:E;
      try discriminate H. cbn [bindO] in H.
    destruct (Block_transactions_fromJSON l h1) as [[ts1 h2]| |] eqn:E';
      try discriminate H. cbn [bindO] in H.
    inversion H; subst; clear H.
    destruct (fromObject_new_unsigned a t h h1 E) as (_ & _ & _ & ->).
    pose proof (IH _ _ _ E'). lia.
Qed.

Lemma Block_read_transactions_heap (n : nat) :
  forall (br br' : BufferReader) (h h' : heap) (ts : list Transaction),
    Block_read_transactions n br h = Returned (ts, br', h') -> (h <= h')%nat.
Proof.
  induction n as [|n IH]; intros br br' h h' ts H;
    cbn [Block_read_transactions] in H.
  - inversion H. lia.
  - destruct (fromBufferReader _newTransaction br h) as [[[t r1] h1]| |] eqn:E;
      try discriminate H. cbn [bindO fst snd] in H.
    destruct (Block_read_transactions n r1 h1) as [[[ts1 r2] h2]| |] eqn:E';
      try discriminate H. cbn [bindO fst snd] in H.
    inversion H; subst; clear H.
    destruct (fromBufferReader_heap _ _ _ _ _ _ E) as [-> _].
    pose proof (IH _ _ _ _ _ E'). lia.
Qed.

Lemma new_Block_object_unsigned
  (d : BlockData) (h h' : heap) (b : BlockInstance) :
  (1 <= h)%nat ->
  new_Block (BlockArgObject d) h = Returned (b, h') ->
  Forall (fun t => signature t = None /\ _previous t = None
                   /\ isCoinbase t = false
                   /\ isFullySigned t = false)
    (blk_transactions b).
Proof.
  intros Hh H.
  destruct (new_Block_transactions _ _ _ _ H) as (b0 & E & -> & _).
  cbn [Block__from] in E. unfold Block__fromObject in E.
  destruct (Block_transactions_fromJSON (data_transactions d) h)
    as [[ts h1]| |] eqn:Ets; try discriminate E. cbn [bindO] in E.
  destruct (BlockHeader_fromObject (data_header d)) as [hdr| |];
    try discriminate E.
  inversion E; subst; clear E. cbn [blk_transactions].
  eapply Forall_impl; [|exact (Block_transactions_fromJSON_unsigned _ _ _ _ Ets)].
  cbn. intros t (Hs & Hp & Hr). repeat split; auto.
  - unfold isCoinbase, buf_eq. cbn [ref NULL_HASH]. apply Nat.eqb_neq. lia.
  - unfold isFullySigned. now rewrite Hs.
Qed.

(** X14. A block that the constructor makes from an object, and so a block
    that [Block.fromObject], [Block.fromBuffer] or [Block.fromCoinbase]
    returns, holds transactions without signature and without previous
    transaction, each with an input buffer of its own: none of them is a
    coinbase for [isCoinbase]. *)
Theorem Block_from_object_unsigned
  (d obj : BlockData) (buf : bytes) (now : Z) (coinbase : Transaction)
  (hd : CreateData) (h h' : heap) (b : BlockInstance) :
  (1 <= h)%nat ->
  new_Block (BlockArgObject d) h = Returned (b, h')
  \/ Block_fromObject obj h = Returned (b, h')
  \/ Block_fromBuffer buf h = Returned (b, h')
  \/ Block_fromCoinbase now coinbase hd h = Returned (b, h') ->
  Forall (fun t => signature t = None /\ _previous t = None
                   /\ isCoinbase t = false
                   /\ isFullySigned t = false)
    (blk_transactions b).
Proof.
  intros Hh [H|[H|[H|H]]].
  - exact (new_Block_object_unsigned d h h' b Hh H).
  - unfold Block_fromObject, Block__fromObject in H.
    destruct (Block_transactions_fromJSON (data_transactions obj) h)
      as [[ts h1]| |] eqn:Ets; try discriminate H. cbn [bindO] in H.
    destruct (BlockHeader_fromObject (data_header obj)) as [hdr| |];
      try discriminate H. cbn [bindO] in H.
    pose proof (Block_transactions_fromJSON_heap _ _ _ _ Ets).
    eapply new_Block_object_unsigned; [|exact H]. lia.
  - unfold Block_fromBuffer, Block_fromBufferReader, Block__fromBufferReader
      in H.
    destruct (check (negb (finished buf)) "No block data received")
      as [u| |]; try discriminate H. cbn [bindO] in H.
    destruct (BlockHeader_fromBufferReader buf) as [[hdr br]| |];
      try discriminate H. cbn [bindO] in H.
    destruct (readVarintNum br) as [[n br1]| |]; try discriminate H.
    cbn [bindO] in H.
    destruct (Block_read_transactions (Z.to_nat n) br1 h)
      as [[[ts br2] h1]| |] eqn:Ets; try discriminate H.
    cbn [bindO fst snd] in H.
    pose proof (Block_read_transactions_heap _ _ _ _ _ _ Ets).
    eapply new_Block_object_unsigned; [|exact H]. lia.
  - unfold Block_fromCoinbase in H.
    repeat match type of H with
           | bindO ?o _ = Returned _ =>
               destruct o; cbn [bindO] in H; try discriminate H
           end.
    exact (new_Block_object_unsigned _ h h' b Hh H).
Qed.

(** The Merkle root of the transactions, again for the code below. *)
Lemma getMerkleRoot_reduction (b : Block) :
  getMerkleRoot b = Returned (merkle_root_spec (map getHash (transactions b))).
Proof.
  unfold getMerkleRoot, getMerkleTree, getTransactionHashes.
  destruct (transactions b) as [|tx txs] eqn:Etx; [reflexivity|].
  change (List.length (tx :: txs) =? 0)%nat with false. cbv iota.
  set (hashes := map getHash (tx :: txs)).
  assert (Hlen : List.length hashes = List.length (tx :: txs))
    by apply length_map.
  rewrite <- Hlen.
  destruct (getMerkleTree_levels_spec (S (List.length hashes)) [] hashes)
    as (tree & E & Hne & Hl); [discriminate|lia|].
  cbn [app List.length] in E. rewrite E. cbn [bindO].
  rewrite (nth_error_last tree []) by assumption.
  now rewrite Hl.
Qed.

Lemma validMerkleRoot_value (b : BlockInstance) (m : bytes) :
  header_merkleRoot (blk_header b) = Some m ->
  validMerkleRoot b
  = Returned
      (be_value m
       =? be_value (merkle_root_spec (map getHash (blk_transactions b)))).
Proof.
  intros Hm. unfold validMerkleRoot, Block_getMerkleRoot. rewrite Hm.
  rewrite BN_fromHex_toHex. cbn [bindO].
  rewrite getMerkleRoot_reduction. cbn [bindO].
  rewrite BN_fromHex_toHex. reflexivity.
Qed.

(** X15. [validMerkleRoot] compares the Merkle root of the header and the
    root of the transactions as integers written most significant byte
    first: it holds for the root itself, hence after [addTransaction], and
    it still holds when zero bytes are put in front of the root of the
    header. *)
Theorem validMerkleRoot_compares_integers
  (b : BlockInstance) (m : bytes) (tx : Transaction) (k : nat) :
  header_merkleRoot (blk_header b) = Some m ->
  validMerkleRoot b
  = Returned
      (be_value m
       =? be_value (merkle_root_spec (map getHash (blk_transactions b))))
  /\ validMerkleRoot
       {| blk_header := with_merkleRoot (blk_header b)
                          (Some (repeat x00 k ++ m));
          blk_transactions := blk_transactions b |}
     = validMerkleRoot b
  /\ exists b',
       addTransaction b tx = Returned b'
       /\ blk_transactions b' = blk_transactions b ++ [tx]
       /\ header_merkleRoot (blk_header b')
          = Some (merkle_root_spec
                    (map getHash (blk_transactions b ++ [tx])))
       /\ validMerkleRoot b' = Returned true.
Proof.
  intros Hm. split; [now apply validMerkleRoot_value|]. split.
  - rewrite (validMerkleRoot_value b m Hm).
    rewrite (validMerkleRoot_value _ (repeat x00 k ++ m)) by reflexivity.
    cbn [blk_transactions]. now rewrite be_value_leading_zeros.
  - set (root := merkle_root_spec (map getHash (blk_transactions b ++ [tx]))).
    exists {| blk_header := with_merkleRoot (blk_header b) (Some root);
              blk_transactions := blk_transactions b ++ [tx] |}.
    split.
    { unfold addTransaction, Block_getMerkleRoot.
      rewrite getMerkleRoot_reduction. reflexivity. }
    split; [reflexivity|]. split; [reflexivity|].
    rewrite (validMerkleRoot_value _ root) by reflexivity.
    cbn [blk_transactions]. now rewrite Z.eqb_refl.
Qed.

End BlockCode.

Section BlockIdentity.
Context {P : Primitives} {Q : Platform P}.

(** X16. Once the [hash] (or [id]) of a block has been read, it is kept in
    the header: after [addTransaction], which writes a new Merkle root into
    the header, the getter still returns the old text and computes nothing,
    whatever the transaction; only [increaseNonce] makes the next reading
    hash the bytes of the header again. *)
Theorem Block_hash_ignores_addTransaction
  (b b1 : BlockInstance) (i : string) (tx : Transaction) :
  Block_hash b = Returned (i, b1) ->
  i <> ""%string ->
  exists b2,
    addTransaction b1 tx = Returned b2
    /\ header_merkleRoot (blk_header b2)
       = Some (merkle_root_spec (map getHash (blk_transactions b ++ [tx])))
    /\ Block_hash b2 = Returned (i, b2)
    /\ Block_hash {| blk_header := increaseNonce (blk_header b2);
                     blk_transactions := blk_transactions b2 |}
       = (do hsh <- BlockHeader_getHash (increaseNonce (blk_header b2));
          Returned (toHex (rev hsh),
                    {| blk_header :=
                         with__id (increaseNonce (blk_header b2))
                           (Some (toHex (rev hsh)));
                       blk_transactions := blk_transactions b2 |})).
Proof.
  intros H Hi.
  assert (Hid : header__id (blk_header b1) = Some i
                /\ blk_transactions b1 = blk_transactions b).
  { unfold Block_hash, BlockHeader_id in H.
    destruct (str_truthy (header__id (blk_header b))) eqn:Et.
    - cbn [bindO] in H. inversion H; subst; clear H. cbn.
      destruct (header__id (blk_header b)); [auto|discriminate Et].
    - destruct (BlockHeader_getHash (blk_header b)) as [hsh| |];
        try discriminate H.
      cbn [bindO] in H. inversion H; subst; clear H. cbn. auto. }
  destruct Hid as (Hid & Htx).
  set (root := merkle_root_spec (map getHash (blk_transactions b1 ++ [tx]))).
  exists {| blk_header := with_merkleRoot (blk_header b1) (Some root);
            blk_transactions := blk_transactions b1 ++ [tx] |}.
  assert (Et : str_truthy (Some i) = true).
  { cbn. destruct (String.eqb_spec i ""); [contradiction|reflexivity]. }
  split.
  { unfold addTransaction, Block_getMerkleRoot.
    rewrite getMerkleRoot_reduction. reflexivity. }
  split; [cbn; subst root; now rewrite Htx|]. split.
  - unfold Block_hash, BlockHeader_id.
    cbn [blk_header blk_transactions with_merkleRoot header__id].
    rewrite Hid, Et. reflexivity.
  - unfold Block_hash, BlockHeader_id.
    cbn [blk_header blk_transactions increaseNonce header__id str_truthy].
    match goal with
    | |- context [BlockHeader_getHash ?x] =>
        destruct (BlockHeader_getHash x); reflexivity
    end.
Qed.

(** X17. [Block.fromCoinbase] on a coinbase with an owner and on header data
    with a height and a previous hash returns a block whose only
    transaction is a copy of the coinbase with an input buffer of its own
    and no signature, and whose header has version 1, the Merkle root equal
    to the hash of that copy, and the defaults of [create]: the clock for a
    missing or zero time, [0x207fffff] for missing or zero bits, 0 for a
    missing nonce. *)
Theorem Block_fromCoinbase_spec
  (Hobj : PublicKey_object_ok P Q)
  (now : Z) (t : Transaction) (pk : PublicKey) (hd : CreateData)
  (hgt : Z) (p : bytes) (h : heap) :
  isCoinbase t = true ->
  owner t = Some pk ->
  create_height hd = Some hgt ->
  BlockHeader_hash_field (create_prevHash hd) = Returned (Some p) ->
  create_merkleRoot hd = HashUndefined ->
  let t' := {| version := version t;
               input := {| ref := h; data := data (input t) |};
               position := {| pos_x := pos_x (position t);
                              pos_y := pos_y (position t) |};
               color := color t; owner := Some pk;
               signature := None; _previous := None |} in
  Block_fromCoinbase now t hd h
  = Returned
      ({| blk_header :=
            {| header_version := 1;
               header_height := hgt;
               header_time := match create_time hd with
                              | Some v => if v =? 0 then now else v
                              | None => now
                              end;
               header_timestamp := Some match create_time hd with
                                        | Some v => if v =? 0 then now else v
                                        | None => now
                                        end;
               header_bits := match create_bits hd with
                              | Some v => if v =? 0 then 545259519 else v
                              | None => 545259519
                              end;
               header_prevHash := Some p;
               header_merkleRoot := Some (getHash t');
               header_nonce := match create_nonce hd with
                               | Some v => v
                               | None => 0
                               end;
               header__id := None |};
          blk_transactions := [t'] |}, S h).
Proof.
  intros Hc Ho Hh Hp Hm t'.
  unfold Block_fromCoinbase. rewrite Hc, Hh. cbn [check bindO isUndefined negb].
  assert (Hcreate : BlockHeader_create now hd
    = Returned
        {| header_version := 1;
           header_height := hgt;
           header_time := match create_time hd with
                          | Some v => if v =? 0 then now else v
                          | None => now
                          end;
           header_timestamp := Some match create_time hd with
                                    | Some v => if v =? 0 then now else v
                                    | None => now
                                    end;
           header_bits := match create_bits hd with
                          | Some v => if v =? 0 then 545259519 else v
                          | None => 545259519
                          end;
           header_prevHash := Some p;
           header_merkleRoot := None;
           header_nonce := match create_nonce hd with
                           | Some v => v
                           | None => 0
                           end;
           header__id := None |}).
  { unfold BlockHeader_create. rewrite Hh, Hm.
    destruct (create_prevHash hd) as [s|bf|] eqn:Eprev;
      [| |discriminate Hp];
      cbn [new_BlockHeader]; unfold BlockHeader__fromObject;
      cbn [data_prevHash data_merkleRoot]; rewrite Hp;
      reflexivity. }
  assert (Hprev : match create_prevHash hd with
                  | HashUndefined => false
                  | _ => true
                  end = true).
  { destruct (create_prevHash hd); [reflexivity|reflexivity|discriminate Hp]. }
  rewrite Hprev. cbn [check bindO].
  unfold toObject. rewrite Ho. cbn [bindO]. rewrite Hcreate. cbn [bindO].
  unfold new_Block. cbn [Block__from]. unfold Block__fromObject.
  cbn [data_transactions Block_transactions_fromJSON].
  unfold fromJSON, fromObject. cbn [bindO obj_input obj_owner].
  rewrite fromHex_toHex. cbn [bindO alloc]. rewrite Hobj. cbn [bindO].
  cbn [data_header]. unfold BlockHeader_fromObject, BlockHeader__fromObject.
  cbn. fold t'.
  rewrite BN_fromHex_toHex. cbn [bindO]. rewrite Z.eqb_refl. reflexivity.
Qed.

End BlockIdentity.

(** ** The engine: proposing, confirming and pruning *)

Section Proposals.
Context {P : Primitives}.

Lemma saveTxToStore_frame (block : Block) :
  forall s : Blockchain,
    tip (saveTxToStore s block) = tip s
    /\ work (saveTxToStore s block) = work s
    /\ height (saveTxToStore s block) = height s
    /\ hashByHeight (saveTxToStore s block) = hashByHeight s
    /\ next (saveTxToStore s block) = next s
    /\ prev (saveTxToStore s block) = prev s
    /\ pixels (saveTxToStore s block) = pixels s
    /\ blockStore (saveTxToStore s block) = blockStore s.
Proof.
  unfold saveTxToStore. induction (transactions block) as [|tx txs IH];
    intros s; [repeat split|].
  cbn [fold_left].
  destruct (IH (with_txStore s (TransactionStore_set (txStore s) tx)))
    as (H1 & H2 & H3 & H4 & H5 & H6 & H7 & H8).
  rewrite H1, H2, H3, H4, H5, H6, H7, H8. repeat split.
Qed.

Lemma recorded_frame (s : Blockchain) (block : Block) :
  tip (recorded s block) = tip s
  /\ height (recorded s block) = height s
  /\ hashByHeight (recorded s block) = hashByHeight s
  /\ next (recorded s block) = next s
  /\ pixels (recorded s block) = pixels s
  /\ work (recorded s block)
     = set (work s) (block_hash block)
         (num_add (toNumber (get (work s) (block_prevHash block))) (Num 1))
  /\ prev (recorded s block)
     = set (prev s) (block_hash block) (block_prevHash block)
  /\ blockStore (recorded s block)
     = set (blockStore s) (block_hash block) block.
Proof.
  unfold recorded, addHashReferences, saveBlockToStore.
  destruct (saveTxToStore_frame block
              (with_blockStore s (BlockStore_set (blockStore s) block)))
    as (H1 & H2 & H3 & H4 & H5 & H6 & H7 & H8).
  cbn [tip height hashByHeight next pixels work prev blockStore with_work
       with_prev].
  rewrite H1, H2, H3, H4, H5, H6, H7, H8. repeat split.
Qed.

Lemma isValidBlock_parent (s : Blockchain) (block : Block) :
  isValidBlock s block = true ->
  get (work s) (block_prevHash block) <> None.
Proof.
  unfold isValidBlock, checkValidBlock.
  destruct (get (work s) (block_prevHash block)); [discriminate|].
  cbn [isUndefined]. discriminate.
Qed.

(** The pixels that the loop of [confirm] writes, and the fields it
    leaves. *)
Lemma confirm_loop (txs : list Transaction) :
  forall s : Blockchain,
    let s' := fold_left
                (fun s tx =>
                   with_pixels s
                     (set (pixels s) (posToString (position tx)) tx))
                txs s in
    s' = with_pixels s
           (fold_left (fun px tx => set px (posToString (position tx)) tx)
              txs (pixels s)).
Proof.
  induction txs as [|tx txs IH]; intros s; cbn [fold_left].
  - destruct s; reflexivity.
  - cbn zeta in IH. rewrite IH. reflexivity.
Qed.

(** X18. With a tip that is not [undefined], [proposeNewBlock] never
    returns a list of unconfirmed blocks: as soon as a block of the active
    chain would have to be unconfirmed, [_appendNewBlock] hands [unconfirm]
    a block object (or [undefined]) where it compares a hash with the tip,
    and the call throws. *)
Theorem proposeNewBlock_never_unconfirms
  (fuel : nat) (s s' : Blockchain) (block : Block) (r : reorg) :
  tip s <> None ->
  proposeNewBlock fuel s block = (Returned r, s') ->
  unconfirmed r = [].
Proof.
  intros Htip. unfold proposeNewBlock.
  destruct (isValidBlock s block); cbn [negb]; [|discriminate].
  destruct (hasData s (block_prevHash block)); cbn [negb]; [|discriminate].
  fold (recorded s block).
  destruct (recorded_frame s block) as (Ht & _).
  destruct (get (work (recorded s block)) (block_hash block)) as [w|];
    [|discriminate].
  destruct (get (work (recorded s block)) (key (tip (recorded s block))))
    as [tw|]; [|discriminate].
  destruct (num_gt w tw); [|intros E; inversion E; reflexivity].
  unfold _appendNewBlock.
  destruct (walk_toConfirm fuel (recorded s block) (Some (block_hash block)) [])
    as [[toConfirm ancestor]| |]; try discriminate.
  destruct (walk_toUnconfirm fuel (recorded s block) ancestor
              (tip (recorded s block)) []) as [[|u us]| |];
    try discriminate.
  - cbn [each].
    match goal with
    | |- match ?e with _ => _ end = _ -> _ =>
        destruct e as [[[]| |] s2]; try discriminate
    end.
    intros E. inversion E. reflexivity.
  - cbn [each].
    assert (Hthrow : forall a,
              unconfirm (recorded s block)
                match a with
                | Some b => UBlock b
                | None => UHash None
                end
              = (Threw "Attempting to unconfirm a non-tip block",
                 recorded s block)).
    { intros [b|]; [reflexivity|]. unfold unconfirm. rewrite Ht.
      destruct (tip s); [reflexivity|congruence]. }
    rewrite Hthrow. discriminate.
Qed.

(** X19. A valid block on top of the tip is confirmed. When the tip is a
    confirmed hash with a numeric work, and the hash of the block has no
    height yet, [proposeNewBlock] returns the block as the only confirmed
    one, makes it the tip one above the old tip, links it into [next],
    [prev], [hashByHeight] and [work], stores it, and writes each of its
    transactions into [pixels], in order. *)
Theorem proposeNewBlock_extends_tip
  (fuel : nat) (s : Blockchain) (block : Block) (p : string) (w : Z)
  (hp : number) :
  isValidBlock s block = true ->
  tip s = Some p ->
  block_prevHash block = p ->
  get (work s) p = Some (Num w) ->
  get (height s) p = Some hp ->
  get (height s) (block_hash block) = None ->
  (2 <= fuel)%nat ->
  exists s',
    proposeNewBlock fuel s block
    = (Returned {| unconfirmed := []; confirmed := [Some (block_hash block)] |},
       s')
    /\ tip s' = Some (block_hash block)
    /\ get (height s') (block_hash block) = Some (num_add hp (Num 1))
    /\ get (hashByHeight s') (num_toString (num_add hp (Num 1)))
       = Some (block_hash block)
    /\ get (next s') p = Some (block_hash block)
    /\ get (prev s') (block_hash block) = Some p
    /\ get (work s') (block_hash block) = Some (Num (w + 1))
    /\ getBlock s' (Some (block_hash block)) = Some block
    /\ pixels s'
       = fold_left (fun px tx => set px (posToString (position tx)) tx)
           (transactions block) (pixels s).
Proof.
  intros Hvalid Htip Hprev Hw Hhp Hfresh Hfuel.
  assert (Hne : block_hash block <> p) by congruence.
  destruct (recorded_frame s block)
    as (Ft & Fh & Fb & Fn & Fx & Fw & Fp & Fs).
  rewrite Hprev, Hw in Fw. cbn [toNumber num_add] in Fw.
  rewrite Hprev in Fp.
  unfold proposeNewBlock. rewrite Hvalid. cbn [negb].
  unfold hasData. rewrite Hprev, Hw. cbn [isUndefined negb].
  replace (if String.eqb p NULL then true else true) with true
    by (destruct (String.eqb p NULL); reflexivity).
  cbn [negb]. fold (recorded s block).
  rewrite Ft, Htip. cbn [key].
  rewrite Fw. rewrite get_set_same.
  rewrite get_set_other by congruence. rewrite Hw.
  cbn [num_gt]. replace (w <? w + 1) with true
    by (symmetry; apply Z.ltb_lt; lia).
  unfold _appendNewBlock.
  destruct fuel as [|[|fuel]]; try lia.
  assert (Hwalk : walk_toConfirm (S (S fuel)) (recorded s block)
                    (Some (block_hash block)) []
                  = Returned ([Some (block_hash block)], Some p)).
  { cbn [walk_toConfirm key]. rewrite Fh, Hfresh. cbn [isUndefined app].
    rewrite Fp, get_set_same. cbn [key]. rewrite Hhp. reflexivity. }
  rewrite Hwalk.
  assert (Hback : walk_toUnconfirm (S (S fuel)) (recorded s block) (Some p)
                    (tip (recorded s block)) [] = Returned []).
  { cbn [walk_toUnconfirm]. rewrite Ft, Htip. cbn [str_eq].
    now rewrite String.eqb_refl. }
  rewrite Hback.
  cbn [rev app each]. unfold BlockStore_get. cbn [key].
  rewrite Fs, get_set_same.
  unfold confirm. rewrite Fp, get_set_same, Ft, Htip.
  cbn [str_eq]. rewrite String.eqb_refl, Bool.orb_true_r. cbn [negb].
  cbn [key height with_tip with_next with_hashByHeight next hashByHeight].
  rewrite Fh, Hhp. cbn [toNumber].
  rewrite confirm_loop.
  eexists. split; [reflexivity|].
  cbn [tip height hashByHeight next prev work pixels blockStore with_pixels
       with_height with_tip with_next with_hashByHeight getBlock].
  rewrite Fn, Fb, Fp, Fw, Fx.
  repeat split; try apply get_set_same.
  unfold getBlock, BlockStore_get.
  cbn [key blockStore with_pixels with_height with_hashByHeight with_next
       with_tip].
  rewrite Fs. apply get_set_same.
Qed.

(** X20. A valid block whose work does not exceed the work of the tip is
    stored and linked into [work] and [prev], and nothing else moves: the
    two lists are empty, and the tip, the heights, [next] and [pixels] are
    those of before. *)
Theorem proposeNewBlock_side_branch
  (fuel : nat) (s : Blockchain) (block : Block) (w wt : Z) :
  isValidBlock s block = true ->
  get (work s) (block_prevHash block) = Some (Num w) ->
  get (work s) (key (tip s)) = Some (Num wt) ->
  w + 1 <= wt ->
  exists s',
    proposeNewBlock fuel s block
    = (Returned {| unconfirmed := []; confirmed := [] |}, s')
    /\ tip s' = tip s
    /\ height s' = height s
    /\ hashByHeight s' = hashByHeight s
    /\ next s' = next s
    /\ pixels s' = pixels s
    /\ get (work s') (block_hash block) = Some (Num (w + 1))
    /\ get (prev s') (block_hash block) = Some (block_prevHash block)
    /\ getBlock s' (Some (block_hash block)) = Some block.
Proof.
  intros Hvalid Hw Hwt Hle.
  destruct (recorded_frame s block)
    as (Ft & Fh & Fb & Fn & Fx & Fw & Fp & Fs).
  rewrite Hw in Fw. cbn [toNumber num_add] in Fw.
  exists (recorded s block).
  split.
  - unfold proposeNewBlock. rewrite Hvalid. cbn [negb].
    unfold hasData. rewrite Hw. cbn [isUndefined negb].
    replace (if String.eqb (block_prevHash block) NULL then true else true)
      with true by (destruct (String.eqb _ NULL); reflexivity).
    cbn [negb]. fold (recorded s block).
    rewrite Ft, Fw, get_set_same.
    destruct (String.eqb_spec (key (tip s)) (block_hash block)) as [E|E].
    + rewrite E, get_set_same. cbn [num_gt].
      now rewrite Z.ltb_irrefl.
    + rewrite get_set_other by congruence. rewrite Hwt. cbn [num_gt].
      replace (wt <? w + 1) with false
        by (symmetry; apply Z.ltb_ge; lia).
      reflexivity.
  - repeat (split; [assumption|]).
    split; [rewrite Fw; apply get_set_same|].
    split; [rewrite Fp; apply get_set_same|].
    unfold getBlock, BlockStore_get. cbn [key]. rewrite Fs.
    apply get_set_same.
Qed.

End Proposals.

Section DictionariesMore.
Context {V : Type}.

Lemma get_set_defined (o : obj V) (k k' : string) (v : V) :
  get o k' <> None -> get (set o k v) k' <> None.
Proof.
  intros H. destruct (String.eqb_spec k k') as [E|E].
  - subst k'. rewrite get_set_same. discriminate.
  - now rewrite get_set_other.
Qed.

Lemma delete_set_fresh (o : obj V) (k : string) (v : V) :
  get o k = None -> delete (set o k v) k = o.
Proof.
  induction o as [|[k' v'] r IH]; cbn [get set delete]; intros H.
  - now rewrite String.eqb_refl.
  - destruct (String.eqb_spec k k') as [E|E]; [discriminate H|].
    cbn [delete]. destruct (String.eqb_spec k k'); [congruence|].
    now rewrite IH.
Qed.

Lemma get_delete_Some (o : obj V) (k k' : string) (v : V) :
  get (delete o k) k' = Some v -> get o k' = Some v.
Proof.
  destruct (String.eqb_spec k k') as [E|E].
  - subst k'. rewrite get_delete_same. discriminate.
  - now rewrite get_delete_other.
Qed.

End DictionariesMore.

Section Pixels.
Context {P : Primitives} {Q : Platform P}.

Lemma pixels_stay_defined (txs : list Transaction) (k : string) :
  forall px : obj Transaction,
    get px k <> None ->
    get (fold_left (fun px tx => set px (posToString (position tx)) tx)
           txs px) k <> None.
Proof.
  induction txs as [|tx txs IH]; intros px H; [exact H|].
  cbn [fold_left]. apply IH. now apply get_set_defined.
Qed.

Lemma pixels_written (txs : list Transaction) (tx : Transaction) :
  In tx txs ->
  forall px : obj Transaction,
    get (fold_left (fun px tx => set px (posToString (position tx)) tx)
           txs px) (posToString (position tx)) <> None.
Proof.
  induction txs as [|t txs IH]; intros Hin px; [contradiction|].
  cbn [fold_left]. destruct Hin as [->|Hin].
  - apply pixels_stay_defined. rewrite get_set_same. discriminate.
  - now apply IH.
Qed.

(** X21. A mined pixel cannot be mined again. After [confirm] of a block,
    a block whose first transaction is at the position of one of its
    transactions is invalid, and it stays invalid after any [unconfirm],
    which leaves [pixels] alone: [proposeNewBlock] throws on it. *)
Theorem mined_pixel_stays_mined
  (fuel : nat) (s s1 : Blockchain) (b b' : Block) (tx c : Transaction)
  (rest : list Transaction) (arg : unconfirmArg) :
  confirm s b = (Returned tt, s1) ->
  In tx (transactions b) ->
  transactions b' = c :: rest ->
  position c = position tx ->
  isValidBlock s1 b' = false
  /\ isValidBlock (snd (unconfirm s1 arg)) b' = false
  /\ proposeNewBlock fuel (snd (unconfirm s1 arg)) b'
     = (Threw "Invalid Argument", snd (unconfirm s1 arg)).
Proof.
  intros Hc Hin Htx Hpos.
  assert (Hpx : get (pixels s1) (posToString (position c)) <> None).
  { rewrite (confirm_pixels s s1 b Hc), confirm_loop.
    cbn [pixels with_pixels]. rewrite Hpos. now apply pixels_written. }
  assert (Hinvalid : forall s2, pixels s2 = pixels s1 ->
                       isValidBlock s2 b' = false).
  { intros s2 E. unfold isValidBlock, checkValidBlock.
    destruct (isUndefined (get (work s2) (block_prevHash b')));
      [reflexivity|].
    rewrite Htx, E.
    destruct (get (pixels s1) (posToString (position c)));
      [reflexivity|congruence]. }
  split; [now apply Hinvalid|].
  assert (H2 : isValidBlock (snd (unconfirm s1 arg)) b' = false)
    by (apply Hinvalid, unconfirm_pixels).
  split; [exact H2|].
  unfold proposeNewBlock. now rewrite H2.
Qed.

(** X22. [unconfirm] undoes [confirm] except for the pixels. For a block
    recorded on top of the tip, whose hash has no height and whose slots
    in [hashByHeight] and [next] are free, [confirm] followed by
    [unconfirm] of its hash returns the engine of before with the pixels
    of the block still written. *)
Theorem confirm_then_unconfirm
  (s : Blockchain) (b : Block) (p : string) (hp : number) :
  tip s = Some p ->
  get (prev s) (block_hash b) = Some p ->
  get (height s) p = Some hp ->
  get (height s) (block_hash b) = None ->
  get (hashByHeight s) (num_toString (num_add hp (Num 1))) = None ->
  get (next s) p = None ->
  exists s1,
    confirm s b = (Returned tt, s1)
    /\ tip s1 = Some (block_hash b)
    /\ unconfirm s1 (UHash (Some (block_hash b)))
       = (Returned tt,
          with_pixels s
            (fold_left (fun px tx => set px (posToString (position tx)) tx)
               (transactions b) (pixels s))).
Proof.
  intros Htip Hprev Hhp Hfresh Hslot Hnext.
  unfold confirm. rewrite Hprev, Htip. cbn [str_eq].
  rewrite String.eqb_refl, Bool.orb_true_r. cbn [negb].
  rewrite confirm_loop.
  eexists. split; [reflexivity|]. split; [reflexivity|].
  unfold unconfirm.
  cbn [tip height hashByHeight next prev work pixels blockStore txStore
       with_pixels with_height with_tip with_next with_hashByHeight key
       str_eq].
  rewrite String.eqb_refl. cbn [negb].
  rewrite Hprev, Hhp. cbn [key toNumber].
  rewrite get_set_same. cbn [height_key].
  rewrite !delete_set_fresh by assumption.
  destruct s; cbn in *. subst. reflexivity.
Qed.

(** X23. [prune] only deletes: an entry of [prev] or [work] that is there
    afterwards was there before with the same value, and the other indices
    are untouched. *)
Theorem prune_only_deletes (s : Blockchain) (k : string) :
  (forall v, get (prev (prune s)) k = Some v -> get (prev s) k = Some v)
  /\ (forall v, get (work (prune s)) k = Some v -> get (work s) k = Some v)
  /\ tip (prune s) = tip s
  /\ height (prune s) = height s
  /\ hashByHeight (prune s) = hashByHeight s
  /\ next (prune s) = next s
  /\ pixels (prune s) = pixels s
  /\ blockStore (prune s) = blockStore s.
Proof.
  assert (Hvisit : forall s0 k0,
            (forall v, get (prev (prune_visit s0 k0)) k = Some v ->
                       get (prev s0) k = Some v)
            /\ (forall v, get (work (prune_visit s0 k0)) k = Some v ->
                          get (work s0) k = Some v)
            /\ blockStore (prune_visit s0 k0) = blockStore s0).
  { intros s0 k0. unfold prune_visit.
    destruct (match get (height s0) (key (get (prev s0) k0)) with
              | Some n => negb (num_truthy n)
              | None => true
              end); cbn [prev work blockStore with_prev with_work];
      repeat split; auto; intros v; apply get_delete_Some. }
  assert (Hfold : forall ks s0,
            (forall v, get (prev (fold_left prune_visit ks s0)) k = Some v ->
                       get (prev s0) k = Some v)
            /\ (forall v, get (work (fold_left prune_visit ks s0)) k = Some v ->
                          get (work s0) k = Some v)
            /\ blockStore (fold_left prune_visit ks s0) = blockStore s0).
  { induction ks as [|k0 ks IH]; intros s0; cbn [fold_left];
      [repeat split; auto|].
    destruct (IH (prune_visit s0 k0)) as (H1 & H2 & H3).
    destruct (Hvisit s0 k0) as (G1 & G2 & G3).
    repeat split; [intros v E; auto | intros v E; auto | congruence]. }
  destruct (Hfold (keys (prev s)) s) as (H1 & H2 & H3).
  destruct (prune_frame s) as (F1 & F2 & F3 & F4 & F5).
  repeat split; assumption.
Qed.

(** X24. [prune] never removes a hash that no recorded block has as its
    parent: the entries in [prev] and [work] of a block without children
    (and other than the text [undefined]) survive, whether the block is on
    the active chain or the end of a side branch. *)
Theorem prune_keeps_childless (s : Blockchain) (k : string) :
  (forall c, get (prev s) c <> Some k) ->
  k <> "undefined"%string ->
  get (prev (prune s)) k = get (prev s) k
  /\ get (work (prune s)) k = get (work s) k.
Proof.
  intros Hchild Hk.
  assert (Hvisit : forall s0 k0,
            (forall c, get (prev s0) c <> Some k) ->
            (forall c, get (prev (prune_visit s0 k0)) c <> Some k)
            /\ get (prev (prune_visit s0 k0)) k = get (prev s0) k
            /\ get (work (prune_visit s0 k0)) k = get (work s0) k).
  { intros s0 k0 H0. unfold prune_visit.
    assert (Hne : key (get (prev s0) k0) <> k).
    { destruct (get (prev s0) k0) as [v|] eqn:E; cbn [key]; [|congruence].
      intros ->. exact (H0 k0 E). }
    destruct (match get (height s0) (key (get (prev s0) k0)) with
              | Some n => negb (num_truthy n)
              | None => true
              end); cbn [prev work with_prev with_work];
      [|repeat split; auto].
    split; [|split; now apply get_delete_other].
    intros c E. apply get_delete_Some in E. exact (H0 c E). }
  assert (Hfold : forall ks s0,
            (forall c, get (prev s0) c <> Some k) ->
            get (prev (fold_left prune_visit ks s0)) k = get (prev s0) k
            /\ get (work (fold_left prune_visit ks s0)) k = get (work s0) k).
  { induction ks as [|k0 ks IH]; intros s0 H0; cbn [fold_left];
      [split; reflexivity|].
    destruct (Hvisit s0 k0 H0) as (G0 & G1 & G2).
    destruct (IH (prune_visit s0 k0) G0) as (H1 & H2).
    split; congruence. }
  exact (Hfold (keys (prev s)) s Hchild).
Qed.

(** X25. The snapshot of [toObject] carries neither the pixels nor the
    stores. In the engine that [fromObject] makes of it, no block is found
    by [getBlock], and every block with a height other than 0 is invalid,
    as no pixel is adjacent to anything: [proposeNewBlock] throws on it. *)
Theorem restored_engine_rejects
  (fuel : nat) (s : Blockchain) (block : Block) (hash : option string) :
  block_height block <> 0 ->
  let s' := Blockchain_fromObject (Blockchain_toObject s) in
  tip s' = tip s /\ work s' = work s /\ height s' = height s
  /\ hashByHeight s' = hashByHeight s /\ next s' = next s
  /\ prev s' = prev s
  /\ getBlock s' hash = None
  /\ isValidBlock s' block = false
  /\ proposeNewBlock fuel s' block = (Threw "Invalid Argument", s').
Proof.
  intros Hh s'.
  assert (Hinvalid : isValidBlock s' block = false).
  { unfold isValidBlock, checkValidBlock.
    destruct (isUndefined (get (work s') (block_prevHash block)));
      [reflexivity|].
    destruct (transactions block) as [|c rest]; [reflexivity|].
    cbn. destruct (Z.eqb_spec (block_height block) 0); [contradiction|].
    reflexivity. }
  repeat split; try exact Hinvalid.
  unfold proposeNewBlock. now rewrite Hinvalid.
Qed.

Lemma adjacent_found (px : obj Transaction) (l : list Position) :
  forall init : bool,
    init = true
    \/ (exists n, In n l /\ get px (posToString n) <> None) ->
    fold_left
      (fun adjacent n =>
         if negb (isUndefined (get px (posToString n))) then true
         else adjacent) l init = true.
Proof.
  induction l as [|n l IH]; intros init H; cbn [fold_left].
  - destruct H as [H|(n & [] & _)]. exact H.
  - apply IH. destruct H as [->|(m & [->|Hin] & Hm)].
    + left. now destruct (negb _).
    + left. destruct (get px (posToString m)); [reflexivity|congruence].
    + right. exists m. auto.
Qed.

(** X26. A transfer signed by [sign] passes the check of the engine. Let a
    block hold a coinbase that the engine accepts (parent known, pixel
    free, height 0 or a mined neighbour) and one more transaction, at
    another position, that [sign] returned for a transaction whose
    recorded previous transaction is the one the engine holds at that
    position: [checkValidBlock] returns true. *)
Theorem signed_transfer_accepted
  (s : Blockchain) (block : Block) (cb t t' p : Transaction)
  (arg : signArg) (w : number) :
  transactions block = [cb; t'] ->
  get (work s) (block_prevHash block) = Some w ->
  get (pixels s) (posToString (position cb)) = None ->
  (block_height block = 0
   \/ exists n, In n (neighbors (position cb))
                /\ get (pixels s) (posToString n) <> None) ->
  posToString (position t) <> posToString (position cb) ->
  _previous t = Some p ->
  get (pixels s) (posToString (position t)) = Some p ->
  sign t arg = Returned t' ->
  arg <> SignKeys [] ->
  checkValidBlock s block = Returned true
  /\ isValidBlock s block = true.
Proof.
  intros Htx Hw Hfree Hadj Hpos Hprev Hpx Hsign Harg.
  assert (Hinv : exists pk sg,
             owner p = Some pk /\ signature t' = Some sg
             /\ ECDSA_verify pk (sighash t) sg = true
             /\ _clearSignatures t' = _clearSignatures t).
  { destruct arg as [k|ks]; cbn [sign] in Hsign.
    - destruct (applySignature_inv _ _ _ Hsign)
        as (t0 & pk & Hp & Ho & Hv & ->).
      rewrite Hprev in Hp. inversion Hp; subst t0.
      exists pk, (getSignature t k). repeat split; assumption.
    - destruct (sign_each_inv ks t t' Hsign)
        as [[-> _]|(t0 & pk & sg & Hp & Ho & Hs & Hv & Hc)]; [congruence|].
      rewrite Hprev in Hp. inversion Hp; subst t0.
      exists pk, sg. repeat split; assumption. }
  destruct Hinv as (pk & sg & Ho & Hs & Hv & Hc).
  assert (Hposition : position t' = position t)
    by (apply (f_equal position) in Hc; exact Hc).
  assert (E : checkValidBlock s block = Returned true).
  { unfold checkValidBlock. rewrite Hw, Htx, Hfree. cbn [isUndefined negb].
    rewrite adjacent_found.
    2:{ destruct Hadj as [H0|H1]; [left|right; exact H1].
        now apply Z.eqb_eq. }
    cbn [negb checkValidBlock_signatures].
    rewrite Hposition. cbn [get].
    destruct (String.eqb_spec (posToString (position t))
                (posToString (position cb))) as [E|_]; [contradiction|].
    rewrite Hpx, Hs, Ho. cbn [Sighash_verify_call bindO].
    unfold Sighash_verify, sighash. rewrite Hc.
    fold (sighash t). rewrite Hv. reflexivity. }
  split; [exact E|]. unfold isValidBlock. now rewrite E.
Qed.

End Pixels.

Section Keys.

Lemma underscore_splits (u : string) :
  forall u' v v' : string,
    ~ In "_"%char (list_ascii_of_string u) ->
    ~ In "_"%char (list_ascii_of_string u') ->
    (u ++ String "_" v = u' ++ String "_" v')%string ->
    u = u' /\ v = v'.
Proof.
  induction u as [|c u IH]; intros [|c' u'] v v' Hu Hu' E;
    cbn [String.append list_ascii_of_string] in *.
  - inversion E. auto.
  - inversion E; subst. exfalso. apply Hu'. now left.
  - inversion E; subst. exfalso. apply Hu. now left.
  - inversion E; subst.
    destruct (IH u' v v') as [-> ->]; auto.
    + intros H. apply Hu. now right.
    + intros H. apply Hu'. now right.
Qed.

Lemma digits_without_underscore (d : Decimal.uint) :
  ~ In "_"%char (list_ascii_of_string (NilEmpty.string_of_uint d)).
Proof.
  induction d; cbn [NilEmpty.string_of_uint list_ascii_of_string In];
    intros H; [exact H|..];
    (destruct H as [H|H]; [discriminate H|auto]).
Qed.

Lemma Z_toString_without_underscore (z : Z) :
  ~ In "_"%char (list_ascii_of_string (Z_toString z)).
Proof.
  unfold Z_toString, NilZero.string_of_int, NilZero.string_of_uint.
  destruct (Z.to_int z) as [d|d].
  - destruct d; first [apply digits_without_underscore
                      | cbn; intros [H|[]]; discriminate H ].
  - cbn [list_ascii_of_string In]. intros [H|H]; [discriminate H|].
    revert H.
    destruct d; first [apply digits_without_underscore
                      | cbn; intros [H|[]]; discriminate H ].
Qed.

Lemma Z_toString_injective (a b : Z) : Z_toString a = Z_toString b -> a = b.
Proof.
  unfold Z_toString. intros E. apply DecimalZ.to_int_inj.
  assert (Hn : forall z, Z.to_int z <> Decimal.Pos Decimal.Nil
                         /\ Z.to_int z <> Decimal.Neg Decimal.Nil).
  { intros [|p|p]; cbn [Z.to_int]; split; try discriminate;
      intros H; inversion H as [H1];
      exact (DecimalPos.Unsigned.to_uint_nonnil p H1). }
  pose proof (NilZero.isi (Z.to_int a) (proj1 (Hn a)) (proj2 (Hn a))) as Ha.
  pose proof (NilZero.isi (Z.to_int b) (proj1 (Hn b)) (proj2 (Hn b))) as Hb.
  rewrite E in Ha. congruence.
Qed.

(** X27. The key of a position in [pixels] determines the position: two
    positions with the same key have the same coordinates, so that two
    pixels never share an entry. *)
Theorem posToString_injective (p q : Position) :
  posToString p = posToString q <-> p = q.
Proof.
  split; [|now intros ->].
  unfold posToString. intros E.
  destruct (underscore_splits _ _ _ _
              (Z_toString_without_underscore (pos_x p))
              (Z_toString_without_underscore (pos_x q)) E) as [Hx Hy].
  apply Z_toString_injective in Hx. apply Z_toString_injective in Hy.
  destruct p, q. cbn in *. congruence.
Qed.

End Keys.

(** ** The further properties on the sample data *)

#[local] Existing Instance toy.
#[local] Existing Instance toy_platform.

Lemma signed_sample_valid : valid_transaction signed_sample x03.
Proof.
  constructor.
  - change (0 <= 1 < 2 ^ 8). lia.
  - reflexivity.
  - change (- 2 ^ 31 <= -1 < 2 ^ 31). lia.
  - change (- 2 ^ 31 <= 5 < 2 ^ 31). lia.
  - change (0 <= 4278190335 < 2 ^ 32). lia.
  - reflexivity.
  - change (2 <= 255)%nat. lia.
Qed.

Lemma coinbase_origin_valid : valid_transaction (coinbase_at 0 0) x02.
Proof.
  constructor.
  - change (0 <= 1 < 2 ^ 8). lia.
  - reflexivity.
  - change (- 2 ^ 31 <= 0 < 2 ^ 31). lia.
  - change (- 2 ^ 31 <= 0 < 2 ^ 31). lia.
  - change (0 <= 322376503 < 2 ^ 32). lia.
  - reflexivity.
  - change (0 <= 255)%nat. lia.
Qed.

Lemma sample_header_valid :
  valid_header sample_header (repeat x00 32) (repeat x11 32).
Proof.
  constructor; try reflexivity; cbn [sample_header header_version
    header_height header_time header_bits header_nonce]; lia.
Qed.

Lemma builder_coinbase_witness :
  exists t : @Transaction toy,
    (do t1 <- at_ (@_newTransaction toy) (JNumber 0) (JNumber 0);
     do t2 <- @to toy toy_platform t1 (@ToPublicKey toy x02);
     @colored toy toy_platform t2 (ColorNumber (Num 322376503)))
    = Returned t
    /\ valid_transaction t x02
    /\ isCoinbase t = true
    /\ isFullySigned t = false
    /\ toBuffer t
       = x01 :: repeat x00 32 ++ le_bytes 4 0 ++ le_bytes 4 0
         ++ le_bytes 4 322376503 ++ @PublicKey_toBuffer toy x02 ++ [x00].
Proof.
  apply (@builder_coinbase toy toy_platform 0 0 322376503 x02); lia.
Defined.

Lemma fromString_serialize_witness :
  exists t' : @Transaction toy,
    fromString _newTransaction (toHex (toBuffer signed_sample)) heap0
    = Returned (t', S heap0)
    /\ toBuffer t' = toBuffer signed_sample
    /\ uncheckedSerialize t' = toHex (toBuffer signed_sample).
Proof.
  apply (@fromString_serialize toy toy_PublicKey_codec_ok
           toy_Signature_codec_ok signed_sample _newTransaction x03
           Unsafe_nothing (toHex (toBuffer signed_sample)) heap0).
  - exact signed_sample_valid.
  - reflexivity.
  - reflexivity.
Defined.

Lemma shallowCopy_forgets_previous_witness :
  exists t' : @Transaction toy,
    shallowCopy (coinbase_at 0 0) heap0 = Returned (t', S heap0)
    /\ toBuffer t' = toBuffer (coinbase_at 0 0)
    /\ _previous t' = None
    /\ isCoinbase t' = false
    /\ (forall sg,
          isValidSignature t' sg
          = Threw "No previous transaction information, cannot validate signature")
    /\ (forall k,
          sign t' (SignKey k)
          = Threw "No previous transaction information, cannot validate signature").
Proof.
  apply (@shallowCopy_forgets_previous toy toy_PublicKey_codec_ok
           toy_Signature_codec_ok (coinbase_at 0 0) x02 heap0).
  - exact coinbase_origin_valid.
  - unfold heap0. lia.
Defined.

Lemma fromObject_toObject_drops_signature_witness :
  exists (o : @TransactionObject toy toy_platform) (t' : @Transaction toy),
    toObject signed_sample = Returned o
    /\ fromObject _newTransaction (TxObject o) heap0 = Returned (t', S heap0)
    /\ fromObject _newTransaction (TxInstance signed_sample) heap0
       = Returned (t', S heap0)
    /\ version t' = version signed_sample
    /\ data (input t') = data (input signed_sample)
    /\ position t' = position signed_sample
    /\ color t' = color signed_sample
    /\ owner t' = owner signed_sample
    /\ signature t' = None
    /\ _previous t' = None
    /\ toBuffer t' = toBuffer (_clearSignatures signed_sample)
    /\ getHash t' = sighash signed_sample.
Proof.
  apply (@fromObject_toObject_drops_signature toy toy_platform
           toy_PublicKey_object_ok signed_sample x03 heap0).
  reflexivity.
Defined.

Lemma sign_stores_verified_signature_witness :
  exists (t0 : @Transaction toy) (pk : @PublicKey toy) (sg : @Signature toy),
    _previous spend_G = Some t0
    /\ owner t0 = Some pk
    /\ signature spend_G_signed = Some sg
    /\ ECDSA_verify pk (sighash spend_G) sg = true
    /\ isValidSignature spend_G_signed (JSignature sg) = Returned true
    /\ _clearSignatures spend_G_signed = _clearSignatures spend_G.
Proof.
  apply (@sign_stores_verified_signature toy spend_G spend_G_signed
           (SignKey (x02 : @PrivateKey toy))).
  - vm_compute. reflexivity.
  - discriminate.
Defined.

Lemma BlockHeader_codec_roundtrip_witness :
  exists b,
    BlockHeader_toBuffer sample_header = Returned b
    /\ List.length b = 84%nat
    /\ BlockHeader__fromBufferReader (b ++ [x99])
       = Returned
           ({| header_version := header_version sample_header;
               header_height := header_height sample_header;
               header_time := header_time sample_header;
               header_timestamp := None;
               header_bits := header_bits sample_header;
               header_prevHash := Some (repeat x00 32);
               header_merkleRoot := Some (repeat x11 32);
               header_nonce := header_nonce sample_header;
               header__id := None |}, [x99])
    /\ BlockHeader_fromBufferReader (b ++ [x99])
       = Returned (constructed sample_header, [x99])
    /\ BlockHeader_toBuffer (constructed sample_header) = Returned b.
Proof.
  apply (BlockHeader_codec_roundtrip sample_header (repeat x00 32)
           (repeat x11 32) [x99]).
  exact sample_header_valid.
Defined.

Lemma BlockHeader_fromObject_toObject_witness :
  exists d : HeaderData,
    BlockHeader_toObject sample_header = Returned d
    /\ data_prevHash d = HashString (toHex (rev (repeat x00 32)))
    /\ data_merkleRoot d = HashString (toHex (rev (repeat x11 32)))
    /\ BlockHeader_fromObject d = Returned (constructed sample_header)
    /\ BlockHeader_toObject (with_merkleRoot sample_header None)
       = Threw "Cannot read property 'length' of undefined".
Proof.
  apply (BlockHeader_fromObject_toObject sample_header (repeat x00 32)
           (repeat x11 32)); reflexivity.
Defined.

Lemma getTargetDifficulty_closed_form_witness :
  getTargetDifficulty (JNumber 504365055)
  = Returned ((504365055 mod 2 ^ 24)
              * 2 ^ (8 * Z.max 0 (504365055 / 2 ^ 24 - 3)))
  /\ (504365055 / 2 ^ 24 <= 3 ->
      getTargetDifficulty (JNumber 504365055)
      = Returned (504365055 mod 2 ^ 24)).
Proof.
  apply (getTargetDifficulty_closed_form 504365055). lia.
Defined.

Lemma validProofOfWork_meaning_witness :
  exists hsh,
    @BlockHeader_getHash toy sample_header = Returned hsh
    /\ @validProofOfWork toy sample_header
       = Returned
           (le_value hsh
            <=? (header_bits sample_header mod 2 ^ 24)
                * 2 ^ (8 * Z.max 0 (header_bits sample_header / 2 ^ 24 - 3)),
            with__id sample_header (Some (toHex (rev hsh)))).
Proof.
  apply (@validProofOfWork_meaning toy sample_header (repeat x00 32)
           (repeat x11 32)); try reflexivity.
  cbn [sample_header header_bits]. lia.
Defined.

Lemma Block_codec_roundtrip_witness :
  exists bs hb (txs' : list (@Transaction toy)),
    BlockHeader_toBuffer (blk_header sample_instance) = Returned hb
    /\ Block_toBuffer sample_instance = Returned bs
    /\ bs = hb
            ++ writeVarintNum
                 (Z.of_nat (List.length (blk_transactions sample_instance))) []
            ++ List.concat (map toBuffer (blk_transactions sample_instance))
    /\ Block__fromBufferReader (bs ++ [x99]) heap0
       = Returned ({| blk_header := constructed (blk_header sample_instance);
                      blk_transactions := txs' |}, [x99],
                   (heap0 + List.length (blk_transactions sample_instance))%nat)
    /\ Forall2 (fun t t' => toBuffer t' = toBuffer t
                            /\ signature_bytes t' = signature_bytes t
                            /\ _previous t' = None)
         (blk_transactions sample_instance) txs'
    /\ Block_toBuffer {| blk_header := constructed (blk_header sample_instance);
                         blk_transactions := txs' |} = Returned bs.
Proof.
  apply (@Block_codec_roundtrip toy toy_PublicKey_codec_ok
           toy_Signature_codec_ok sample_instance (repeat x00 32)
           (repeat x11 32) [x02; x03] [x99] heap0).
  - exact sample_header_valid.
  - constructor; [exact coinbase_origin_valid|].
    constructor; [exact signed_sample_valid|constructor].
  - cbn [sample_instance blk_transactions List.length]. lia.
Defined.

Lemma Block_from_object_unsigned_witness :
  Forall (fun t : @Transaction toy =>
            signature t = None /\ _previous t = None
            /\ isCoinbase t = false /\ isFullySigned t = false)
    (blk_transactions (fst sample_built)).
Proof.
  apply (@Block_from_object_unsigned toy toy_platform sample_data sample_data
           [] 0 (coinbase_at 0 0) genesis_header_data heap0
           (snd sample_built) (fst sample_built)).
  - unfold heap0. lia.
  - left. vm_compute. reflexivity.
Defined.

Lemma validMerkleRoot_compares_integers_witness :
  validMerkleRoot sample_instance
  = Returned
      (be_value (repeat x11 32)
       =? be_value (merkle_root_spec
                      (map getHash (blk_transactions sample_instance))))
  /\ validMerkleRoot
       {| blk_header := with_merkleRoot (blk_header sample_instance)
                          (Some (repeat x00 2 ++ repeat x11 32));
          blk_transactions := blk_transactions sample_instance |}
     = validMerkleRoot sample_instance
  /\ exists b',
       addTransaction sample_instance (coinbase_at 1 0) = Returned b'
       /\ blk_transactions b'
          = blk_transactions sample_instance ++ [coinbase_at 1 0]
       /\ header_merkleRoot (blk_header b')
          = Some (merkle_root_spec
                    (map getHash (blk_transactions sample_instance
                                  ++ [coinbase_at 1 0])))
       /\ validMerkleRoot b' = Returned true.
Proof.
  apply (@validMerkleRoot_compares_integers toy sample_instance
           (repeat x11 32) (coinbase_at 1 0) 2).
  reflexivity.
Defined.

Lemma Block_hash_ignores_addTransaction_witness :
  exists b2,
    addTransaction (snd sample_hashed) (coinbase_at 1 0) = Returned b2
    /\ header_merkleRoot (blk_header b2)
       = Some (merkle_root_spec
                 (map getHash (blk_transactions sample_instance
                               ++ [coinbase_at 1 0])))
    /\ Block_hash b2 = Returned (fst sample_hashed, b2)
    /\ Block_hash {| blk_header := increaseNonce (blk_header b2);
                     blk_transactions := blk_transactions b2 |}
       = (do hsh <- BlockHeader_getHash (increaseNonce (blk_header b2));
          Returned (toHex (rev hsh),
                    {| blk_header :=
                         with__id (increaseNonce (blk_header b2))
                           (Some (toHex (rev hsh)));
                       blk_transactions := blk_transactions b2 |})).
Proof.
  apply (@Block_hash_ignores_addTransaction toy sample_instance
           (snd sample_hashed) (fst sample_hashed) (coinbase_at 1 0)).
  - vm_compute. reflexivity.
  - vm_compute. discriminate.
Defined.

Lemma Block_fromCoinbase_spec_witness :
  let t' := @mkTransaction toy (version (coinbase_at 0 0))
              {| ref := heap0; data := data (input (coinbase_at 0 0)) |}
              {| pos_x := pos_x (position (coinbase_at 0 0));
                 pos_y := pos_y (position (coinbase_at 0 0)) |}
              (color (coinbase_at 0 0)) (Some x02) None None in
  Block_fromCoinbase 1433037900 (coinbase_at 0 0) genesis_header_data heap0
  = Returned
      ({| blk_header :=
            {| header_version := 1;
               header_height := 0;
               header_time := match create_time genesis_header_data with
                              | Some v => if v =? 0 then 1433037900 else v
                              | None => 1433037900
                              end;
               header_timestamp :=
                 Some match create_time genesis_header_data with
                      | Some v => if v =? 0 then 1433037900 else v
                      | None => 1433037900
                      end;
               header_bits := match create_bits genesis_header_data with
                              | Some v => if v =? 0 then 545259519 else v
                              | None => 545259519
                              end;
               header_prevHash := Some (repeat x00 32);
               header_merkleRoot := Some (getHash t');
               header_nonce := match create_nonce genesis_header_data with
                               | Some v => v
                               | None => 0
                               end;
               header__id := None |};
          blk_transactions := [t'] |}, S heap0).
Proof.
  apply (@Block_fromCoinbase_spec toy toy_platform toy_PublicKey_object_ok
           1433037900 (coinbase_at 0 0) x02 genesis_header_data 0
           (repeat x00 32) heap0); reflexivity.
Defined.

Lemma proposeNewBlock_never_unconfirms_witness :
  unconfirmed {| unconfirmed := []; confirmed := [Some hash_G] |} = [].
Proof.
  apply (@proposeNewBlock_never_unconfirms toy 4 new_Blockchain chain_G
           block_G {| unconfirmed := []; confirmed := [Some hash_G] |}).
  - discriminate.
  - vm_compute. reflexivity.
Defined.

Lemma proposeNewBlock_extends_tip_witness :
  exists s' : @Blockchain toy,
    proposeNewBlock 4 chain_G block_A
    = (Returned {| unconfirmed := [];
                   confirmed := [Some (block_hash block_A)] |}, s')
    /\ tip s' = Some (block_hash block_A)
    /\ get (height s') (block_hash block_A) = Some (num_add (Num 0) (Num 1))
    /\ get (hashByHeight s') (num_toString (num_add (Num 0) (Num 1)))
       = Some (block_hash block_A)
    /\ get (next s') hash_G = Some (block_hash block_A)
    /\ get (prev s') (block_hash block_A) = Some hash_G
    /\ get (work s') (block_hash block_A) = Some (Num (1 + 1))
    /\ getBlock s' (Some (block_hash block_A)) = Some block_A
    /\ pixels s'
       = fold_left (fun px tx => set px (posToString (position tx)) tx)
           (transactions block_A) (pixels chain_G).
Proof.
  apply (@proposeNewBlock_extends_tip toy 4 chain_G block_A hash_G 1 (Num 0));
    try (vm_compute; reflexivity).
  lia.
Defined.

Lemma proposeNewBlock_side_branch_witness :
  exists s' : @Blockchain toy,
    proposeNewBlock 4 chain_GA block_C
    = (Returned {| unconfirmed := []; confirmed := [] |}, s')
    /\ tip s' = tip chain_GA
    /\ height s' = height chain_GA
    /\ hashByHeight s' = hashByHeight chain_GA
    /\ next s' = next chain_GA
    /\ pixels s' = pixels chain_GA
    /\ get (work s') (block_hash block_C) = Some (Num (1 + 1))
    /\ get (prev s') (block_hash block_C) = Some (block_prevHash block_C)
    /\ getBlock s' (Some (block_hash block_C)) = Some block_C.
Proof.
  apply (@proposeNewBlock_side_branch toy 4 chain_GA block_C 1 2);
    try (vm_compute; reflexivity).
  lia.
Defined.

Lemma mined_pixel_stays_mined_witness :
  let s1 := snd (confirm (@new_Blockchain toy) block_G) in
  isValidBlock s1 block_G = false
  /\ isValidBlock (snd (unconfirm s1 (UHash (Some hash_G)))) block_G = false
  /\ proposeNewBlock 4 (snd (unconfirm s1 (UHash (Some hash_G)))) block_G
     = (Threw "Invalid Argument", snd (unconfirm s1 (UHash (Some hash_G)))).
Proof.
  apply (@mined_pixel_stays_mined toy 4 new_Blockchain
           (snd (confirm (@new_Blockchain toy) block_G)) block_G block_G
           (coinbase_at 0 0) (coinbase_at 0 0) [] (UHash (Some hash_G)));
    try reflexivity.
  left. reflexivity.
Defined.

Lemma confirm_then_unconfirm_witness :
  exists s1 : @Blockchain toy,
    confirm (recorded chain_G block_A) block_A = (Returned tt, s1)
    /\ tip s1 = Some (block_hash block_A)
    /\ unconfirm s1 (UHash (Some (block_hash block_A)))
       = (Returned tt,
          with_pixels (recorded chain_G block_A)
            (fold_left (fun px tx => set px (posToString (position tx)) tx)
               (transactions block_A) (pixels (recorded chain_G block_A)))).
Proof.
  apply (@confirm_then_unconfirm toy (recorded chain_G block_A) block_A
           hash_G (Num 0)); vm_compute; reflexivity.
Defined.

Lemma prune_keeps_childless_witness :
  get (prev (prune chain_GA)) hash_A = get (prev chain_GA) hash_A
  /\ get (work (prune chain_GA)) hash_A = get (work chain_GA) hash_A.
Proof.
  apply (@prune_keeps_childless toy chain_GA hash_A).
  - intros c.
    change (prev chain_GA) with [(hash_G, NULL); (hash_A, hash_G)].
    cbn [get].
    destruct (String.eqb c hash_G); [discriminate|].
    destruct (String.eqb c hash_A); discriminate.
  - discriminate.
Defined.

Lemma restored_engine_rejects_witness :
  let s' := Blockchain_fromObject (Blockchain_toObject chain_G) in
  tip s' = tip chain_G /\ work s' = work chain_G
  /\ height s' = height chain_G
  /\ hashByHeight s' = hashByHeight chain_G /\ next s' = next chain_G
  /\ prev s' = prev chain_G
  /\ getBlock s' (Some hash_G) = None
  /\ isValidBlock s' block_A = false
  /\ proposeNewBlock 4 s' block_A = (Threw "Invalid Argument", s').
Proof.
  apply (@restored_engine_rejects toy 4 chain_G block_A (Some hash_G)).
  discriminate.
Defined.

Lemma signed_transfer_accepted_witness :
  checkValidBlock chain_G block_transfer = Returned true
  /\ isValidBlock chain_G block_transfer = true.
Proof.
  apply (@signed_transfer_accepted toy chain_G block_transfer
           (coinbase_at 1 0) spend_G spend_G_signed (coinbase_at 0 0)
           (SignKey (x02 : @PrivateKey toy)) (Num 1));
    try (vm_compute; reflexivity).
  - right. exists {| pos_x := 0; pos_y := 0 |}. split.
    + left. reflexivity.
    + vm_compute. discriminate.
  - vm_compute. discriminate.
  - discriminate.
Defined.
